(** * gatsby-source-kontent-rs: schema and content projection

    A shallow embedding of [src/plugins/gatsby-source-kontent-rs/gatsby-node.js]
    and the properties its specification states about it.

    Layout:
    - [ChangeCase]: the three casing functions the plugin imports;
    - the naming layer ([getGraphTypeName], [getGraphFieldName],
      [getElementValueType], [getNodeIdValue]);
    - Type Projection ([createTypeDef]);
    - a small JavaScript object store (values, heap objects, JSON);
    - Item Projection ([createItemNode], [unionBy]);
    - the plugin entry point ([sourceNodes]) as a run over a world that
      records every host call;
    - the type projection of the two earlier revisions in [src/unnamed]
      ([Part000], [Part001]);
    - the theorems. *)

From Stdlib Require Import Ascii String.
From stdpp Require Import base option list strings gmap fin_maps pretty.

#[local] Set Warnings "-register-all".

Local Open Scope string_scope.
Local Open Scope list_scope.

(** ** The casing functions of the [change-case] package *)

(** Modelled from the spec: the [change-case] package ([paramCase],
    [camelCase], [pascalCase]) is a dependency of the plugin and is not
    among the sources. The spec names the three conversions kebab-case,
    camelCase and PascalCase; the model follows the package's algorithm
    on ASCII input, where its releases 3 and 4 agree: a word boundary is
    put between a lower case letter or digit and an upper case letter, and
    between an upper case letter and an upper case letter that starts a
    lower case run; every run of characters that are not letters or digits
    separates two words (and is dropped at either end); all words are
    lower-cased. *)
Module ChangeCase.

Definition is_upper (c : ascii) : bool :=
  let n := nat_of_ascii c in (65 <=? n)%nat && (n <=? 90)%nat.

Definition is_lower (c : ascii) : bool :=
  let n := nat_of_ascii c in (97 <=? n)%nat && (n <=? 122)%nat.

Definition is_digit (c : ascii) : bool :=
  let n := nat_of_ascii c in (48 <=? n)%nat && (n <=? 57)%nat.

Definition is_word (c : ascii) : bool :=
  is_upper c || is_lower c || is_digit c.

Definition lowerCaseChar (c : ascii) : ascii :=
  if is_upper c then ascii_of_nat (nat_of_ascii c + 32) else c.

Definition upperCaseChar (c : ascii) : ascii :=
  if is_lower c then ascii_of_nat (nat_of_ascii c - 32) else c.

(** [str.replace(/([a-z0-9])([A-Z])/g, '$1 $2')] *)
Fixpoint splitCamel (s : list ascii) : list ascii :=
  match s with
  | a :: t =>
      match t with
      | b :: _ =>
          if (is_lower a || is_digit a) && is_upper b
          then a :: " "%char :: splitCamel t
          else a :: splitCamel t
      | [] => [a]
      end
  | [] => []
  end.

(** [str.replace(/([A-Z])([A-Z][a-z])/g, '$1 $2')] *)
Fixpoint splitCamelUpper (s : list ascii) : list ascii :=
  match s with
  | a :: t =>
      match t with
      | b :: c :: _ =>
          if is_upper a && is_upper b && is_lower c
          then a :: " "%char :: splitCamelUpper t
          else a :: splitCamelUpper t
      | _ => a :: splitCamelUpper t
      end
  | [] => []
  end.

(** The maximal runs of letters and digits of [s], in order. [cur] is the
    run being read, reversed. *)
Fixpoint wordsFrom (cur : list ascii) (s : list ascii) : list (list ascii) :=
  match s with
  | [] => match cur with [] => [] | _ => [rev cur] end
  | c :: t =>
      if is_word c then wordsFrom (c :: cur) t
      else match cur with
           | [] => wordsFrom [] t
           | _ => rev cur :: wordsFrom [] t
           end
  end.

(** The words of [no-case]: boundaries first, then the split at every run
    of other characters, then lower case. *)
Definition words (s : string) : list (list ascii) :=
  map (map lowerCaseChar)
      (wordsFrom [] (splitCamelUpper (splitCamel (list_ascii_of_string s)))).

Fixpoint joinWith (sep : list ascii) (ws : list (list ascii)) : list ascii :=
  match ws with
  | [] => []
  | [w] => w
  | w :: rest => w ++ sep ++ joinWith sep rest
  end.

(** [noCase(value, locale, replacement)] *)
Definition noCase (replacement : string) (s : string) : string :=
  string_of_list_ascii (joinWith (list_ascii_of_string replacement) (words s)).

(** [paramCase(value) = noCase(value, locale, '-')] *)
Definition paramCase (s : string) : string := noCase "-" s.

(** A word after the first one: [' ' before a digit -> '_'], every other
    [' ' + c -> upperCase(c)]. *)
Definition camelWord (w : list ascii) : list ascii :=
  match w with
  | [] => []
  | c :: t => if is_digit c then "_"%char :: c :: t else upperCaseChar c :: t
  end.

Definition upperCaseFirst (w : list ascii) : list ascii :=
  match w with
  | [] => []
  | c :: t => upperCaseChar c :: t
  end.

Definition camelCase (s : string) : string :=
  match words s with
  | [] => ""
  | w :: rest => string_of_list_ascii (w ++ concat (map camelWord rest))
  end.

(** [pascalCase(value) = upperCaseFirst(camelCase(value))] *)
Definition pascalCase (s : string) : string :=
  string_of_list_ascii (upperCaseFirst (list_ascii_of_string (camelCase s))).

End ChangeCase.

(** ** Naming layer *)

(** [getElementValueType(elementType)] *)
Definition getElementValueType (elementType : string) : string :=
  "Kontent" +:+ ChangeCase.pascalCase elementType +:+ "Element".

(** [getGraphFieldName(elementName)] *)
Definition getGraphFieldName (elementName : string) : string :=
  ChangeCase.camelCase elementName.

(** [getGraphTypeName(typeName)] *)
Definition getGraphTypeName (typeName : string) : string :=
  "KontentItem" +:+ ChangeCase.pascalCase typeName.

Example paramCase_words :
  ChangeCase.paramCase "blogPost__HTMLPage 2" = "blog-post-html-page-2".
Proof. reflexivity. Qed.

Example camelCase_words : ChangeCase.camelCase "url_slug" = "urlSlug".
Proof. reflexivity. Qed.

Example pascalCase_words : ChangeCase.pascalCase "modular_content" = "ModularContent".
Proof. reflexivity. Qed.

(** ** Type Projection *)

(** What the plugin reads of a content type of the delivery client:
    [type.system.codename] and, of each entry of [type.elements], its
    [codename] and its [type] (the element kind). *)
Record ContentTypeElement := {
  element_codename : string;
  element_type : string;
}.

Record ContentType := {
  type_system_codename : string;
  type_elements : list ContentTypeElement;
}.

(** The configuration the plugin hands to [schema.buildObjectType]. The
    elements type passes no [interfaces]; the item type passes two. A field
    is either the short form (a type name) or the long form [{ type: ... }];
    both carry only the type name. *)
Record ObjectTypeDef := {
  def_name : string;
  def_fields : list (string * string);
  def_interfaces : list string;
  def_infer : bool;
}.

(** [Object.assign(acc, { [key]: value })] on an object held as the list of
    its properties in insertion order: an existing key keeps its place and
    takes the new value, a new key goes last. *)
Fixpoint assign {A} (acc : list (string * A)) (key : string) (value : A)
  : list (string * A) :=
  match acc with
  | [] => [(key, value)]
  | (k, v) :: rest =>
      if String.eqb k key then (k, value) :: rest
      else (k, v) :: assign rest key value
  end.

(** Property lookup on such an object. *)
Fixpoint prop {A} (o : list (string * A)) (key : string) : option A :=
  match o with
  | [] => None
  | (k, v) :: rest => if String.eqb k key then Some v else prop rest key
  end.

(** [createTypeDef(schema, type)] *)
Definition createTypeDef (type : ContentType) : list ObjectTypeDef :=
  let elementFields :=
    fold_left
      (fun acc element =>
         let fieldName := getGraphFieldName (element_codename element) in
         assign acc fieldName (getElementValueType (element_type element)))
      (type_elements type) [] in
  let elementsTypeDef :=
    {| def_name := getGraphTypeName (type_system_codename type) +:+ "Elements";
       def_fields := elementFields;
       def_interfaces := [];
       def_infer := false |} in
  let typeDef :=
    {| def_name := getGraphTypeName (type_system_codename type);
       def_fields :=
         [("system", "KontentItemSystem!");
          ("elements", getGraphTypeName (type_system_codename type) +:+ "Elements")];
       def_interfaces := ["Node"; "KontentItem"];
       def_infer := false |} in
  [elementsTypeDef; typeDef].

(** [createBaseTypes(schema)]: the fixed schema text, kept as its
    declarations. A field is its name, its type and its directive. *)
Inductive Directive :=
| NoDirective
| DateFormat
| LinkBy (path : string).

Inductive DeclKind := Interface | ObjectType.

Record BaseDecl := {
  decl_kind : DeclKind;
  decl_name : string;
  decl_implements : list string;
  decl_directive : string;
  decl_fields : list (string * string * Directive);
}.

Definition field (name type : string) : string * string * Directive :=
  (name, type, NoDirective).

Definition elementDecl (name : string) (fields : list (string * string * Directive))
  : BaseDecl :=
  {| decl_kind := ObjectType; decl_name := name;
     decl_implements := ["KontentElement"]; decl_directive := "infer";
     decl_fields := field "name" "String!" :: field "type" "String!" :: fields |}.

Definition plainDecl (name : string) (fields : list (string * string * Directive))
  : BaseDecl :=
  {| decl_kind := ObjectType; decl_name := name;
     decl_implements := []; decl_directive := "infer";
     decl_fields := fields |}.

Definition createBaseTypes : list BaseDecl :=
  [ {| decl_kind := Interface; decl_name := "KontentItem";
       decl_implements := []; decl_directive := "nodeInterface";
       decl_fields := [field "id" "ID!"; field "system" "KontentItemSystem!"] |};
    {| decl_kind := Interface; decl_name := "KontentElement";
       decl_implements := []; decl_directive := "dontInfer";
       decl_fields := [field "name" "String!"; field "type" "String!"] |};
    plainDecl "KontentItemSystem"
      [field "codename" "String!"; field "id" "String!";
       field "language" "String!"; ("lastModified", "Date!", DateFormat);
       field "name" "String!"; field "type" "String!"];
    plainDecl "KontentAsset"
      [field "name" "String!"; field "description" "String";
       field "type" "String!"; field "size" "Int!"; field "url" "String!";
       field "width" "Int!"; field "height" "Int!"];
    elementDecl "KontentAssetElement" [field "value" "[KontentAsset]"];
    elementDecl "KontentDateTimeElement" [("value", "Date", DateFormat)];
    elementDecl "KontentModularContentElement"
      [("value", "[KontentItem]", LinkBy "system.codename")];
    elementDecl "KontentMultipleChoiceElement" [];
    elementDecl "KontentNumberElement" [field "value" "Float"];
    elementDecl "KontentRichTextElement"
      [field "value" "String"; field "images" "[KontentRichTextImage]";
       field "links" "[KontentRichTextLink]";
       ("linkedItems", "[KontentItem]", LinkBy "system.codename")];
    plainDecl "KontentRichTextImage"
      [field "description" "String"; field "height" "Int!";
       field "imageId" "String!"; field "url" "String!"; field "width" "Int!"];
    plainDecl "KontentRichTextLink"
      [field "codename" "String!"; field "linkId" "String!";
       field "type" "String!"; field "urlSlug" "String!"];
    elementDecl "KontentTaxonomyElement"
      [field "taxonomyGroup" "String!"; field "value" "[KontentTaxonomyItem]"];
    plainDecl "KontentTaxonomyItem"
      [field "name" "String!"; field "codename" "String!"];
    elementDecl "KontentTextElement" [field "value" "String"];
    elementDecl "KontentUrlSlugElement" [field "value" "String"] ].

(** ** JavaScript values and the object store *)

Definition loc := positive.

(** A value is a primitive or a reference to an object of the store.
    Numbers are the integers; the plugin does no arithmetic. *)
Inductive val :=
| VUndefined
| VNull
| VBool (b : bool)
| VNumber (n : Z)
| VString (s : string)
| VRef (l : loc).

Global Instance val_eq_dec : EqDecision val.
Proof. solve_decision. Defined.

(** An object of the store: a plain object with its own enumerable
    properties in the order [Object.keys] lists them, each key once; an
    array, which has its entries and no named property but [length]; or a
    [Date] (its ISO text; [None] is the invalid date). Accessors, [toJSON]
    methods and prototypes are left out: the items of the delivery client
    hold data. *)
Inductive obj :=
| OObject (props : list (string * val))
| OArray (elems : list val)
| ODate (iso : option string).

(** What [JSON.parse] builds: plain data with no references. *)
Inductive json :=
| JNull
| JBool (b : bool)
| JNumber (n : Z)
| JString (s : string)
| JArray (elems : list json)
| JObject (props : list (string * json)).

Inductive error :=
| TypeError (msg : string)
| Rejected (reason : string)
| OutOfFuel.

Inductive result (A : Type) :=
| Ok (a : A)
| Err (e : error).
Arguments Ok {A} a.
Arguments Err {A} e.

Global Instance result_ret : MRet result := @Ok.
Global Instance result_bind : MBind result := fun A B f r =>
  match r with Ok a => f a | Err e => Err e end.

(** [Boolean(v)] *)
Definition truthy (v : val) : bool :=
  match v with
  | VUndefined | VNull => false
  | VBool b => b
  | VNumber n => negb (n =? 0)%Z
  | VString s => negb (String.eqb s "")
  | VRef _ => true
  end.

(** The index an array key names, if any. *)
Definition arrayIndex (n : nat) (key : string) : option nat :=
  fst <$> list_find (fun i : nat => String.eqb (pretty i) key) (seq 0 n).

(** [o[key]] for an object of the store. *)
Definition ownProp (o : obj) (key : string) : val :=
  match o with
  | OObject ps => default VUndefined (prop ps key)
  | OArray es =>
      if String.eqb key "length" then VNumber (Z.of_nat (length es))
      else match arrayIndex (length es) key with
           | Some i => default VUndefined (es !! i)
           | None => VUndefined
           end
  | ODate _ => VUndefined
  end.

(** [v[key]] / [v.key]: a [TypeError] on [undefined] and [null]; none of the
    names the plugin reads is a property of a boolean, number or string. *)
Definition readProp (h : gmap loc obj) (v : val) (key : string) : result val :=
  match v with
  | VUndefined | VNull =>
      Err (TypeError ("Cannot read property '" +:+ key +:+ "'"))
  | VRef l => Ok (from_option (fun o => ownProp o key) VUndefined (h !! l))
  | _ => Ok VUndefined
  end.

(** [Object.keys(o)] *)
Definition ownKeys (o : obj) : list string :=
  match o with
  | OObject ps => map fst ps
  | OArray es => map (fun i : nat => pretty i) (seq 0 (length es))
  | ODate _ => []
  end.

(** [delete o[key]] *)
Definition deleteOwn (key : string) (o : obj) : obj :=
  match o with
  | OObject ps => OObject (filter (fun p => negb (String.eqb (fst p) key)) ps)
  | _ => o
  end.

(** [o[key] = value] on a plain object. *)
Definition assignOwn (key : string) (value : val) (o : obj) : obj :=
  match o with
  | OObject ps => OObject (assign ps key value)
  | _ => o
  end.

(** ** [JSON.parse(JSON.stringify(v))] *)

(** Array entries: [undefined] is written as [null]. *)
Fixpoint plainElems (f : val -> result (option json)) (es : list val)
  : result (list json) :=
  match es with
  | [] => Ok []
  | v :: rest =>
      j ← f v; js ← plainElems f rest; Ok (default JNull j :: js)
  end.

(** Properties: a property whose value is [undefined] is left out. *)
Fixpoint plainProps (f : val -> result (option json)) (ps : list (string * val))
  : result (list (string * json)) :=
  match ps with
  | [] => Ok []
  | (k, v) :: rest =>
      j ← f v; js ← plainProps f rest;
      Ok (match j with Some x => (k, x) :: js | None => js end)
  end.

(** The plain copy of [v]; [None] stands for [undefined]. [seen] holds the
    objects being serialized around [v]: meeting one of them again is the
    circular structure [JSON.stringify] rejects. [fuel] bounds the nesting
    depth; [plain_fuel] shows one more than the size of the store is always
    enough. *)
Fixpoint plain (fuel : nat) (h : gmap loc obj) (seen : list loc) (v : val)
  : result (option json) :=
  match fuel with
  | O => Err OutOfFuel
  | S n =>
      match v with
      | VUndefined => Ok None
      | VNull => Ok (Some JNull)
      | VBool b => Ok (Some (JBool b))
      | VNumber z => Ok (Some (JNumber z))
      | VString s => Ok (Some (JString s))
      | VRef l =>
          if decide (l ∈ seen)
          then Err (TypeError "Converting circular structure to JSON")
          else match h !! l with
               | None => Ok None
               | Some (ODate iso) => Ok (Some (from_option JString JNull iso))
               | Some (OArray es) =>
                   js ← plainElems (plain n h (l :: seen)) es;
                   Ok (Some (JArray js))
               | Some (OObject ps) =>
                   jps ← plainProps (plain n h (l :: seen)) ps;
                   Ok (Some (JObject jps))
               end
      end
  end.

Definition JSON_roundtrip (h : gmap loc obj) (v : val) : result (option json) :=
  plain (S (size h)) h [] v.

(** [String(v)] for plain data, as a template literal applies it. *)
Fixpoint jsString (j : json) : string :=
  match j with
  | JNull => "null"
  | JBool true => "true"
  | JBool false => "false"
  | JNumber n => pretty n
  | JString s => s
  | JArray es =>
      String.concat ","
        (map (fun e => match e with JNull => "" | _ => jsString e end) es)
  | JObject _ => "[object Object]"
  end.

(** The text a casing function works on: the empty string for [undefined]
    and [null], [String(value)] otherwise. *)
Definition caseArg (v : option json) : string :=
  match v with
  | None | Some JNull => ""
  | Some j => jsString j
  end.

(** [`${v}`] *)
Definition interpolate (v : option json) : string :=
  match v with
  | None => "undefined"
  | Some j => jsString j
  end.

(** [v.key] on plain data. *)
Definition jsonProp (v : option json) (key : string) : result (option json) :=
  match v with
  | None | Some JNull =>
      Err (TypeError ("Cannot read property '" +:+ key +:+ "'"))
  | Some (JObject ps) => Ok (prop ps key)
  | Some _ => Ok None
  end.

(** [getNodeIdValue(item)] *)
Definition getNodeIdValue (item : json) : result string :=
  system ← jsonProp (Some item) "system";
  type ← jsonProp system "type";
  system' ← jsonProp (Some item) "system";
  id ← jsonProp system' "id";
  Ok (ChangeCase.paramCase (caseArg type) +:+ "-" +:+ interpolate id).

(** ** Runs: the store, the calls made to the host, and exceptions *)

(** What [createTypes] receives: the schema text or built type
    definitions. *)
Inductive TypeDefs :=
| SchemaText (decls : list BaseDecl)
| BuiltTypes (defs : list ObjectTypeDef).

Inductive hostCall :=
| CreateTypes (typeDefs : TypeDefs)
| CreateNode (node : json).

Record world := {
  heap : gmap loc obj;
  calls : list hostCall;
}.

(** A computation returns or throws; either way it leaves a world behind,
    so the calls made before an exception stay made. *)
Inductive outcome (A : Type) :=
| Returns (a : A) (w : world)
| Throws (e : error) (w : world).
Arguments Returns {A} a w.
Arguments Throws {A} e w.

Definition M (A : Type) : Type := world -> outcome A.

Global Instance M_ret : MRet M := fun A a w => Returns a w.
Global Instance M_bind : MBind M := fun A B f m w =>
  match m w with
  | Returns a w' => f a w'
  | Throws e w' => Throws e w'
  end.

Definition throw {A} (e : error) : M A := fun w => Throws e w.

(** A read of the store. *)
Definition reading {A} (f : gmap loc obj -> result A) : M A := fun w =>
  match f (heap w) with
  | Ok a => Returns a w
  | Err e => Throws e w
  end.

Definition updating (f : gmap loc obj -> gmap loc obj) : M unit := fun w =>
  Returns tt {| heap := f (heap w); calls := calls w |}.

Definition calling (c : hostCall) : M unit := fun w =>
  Returns tt {| heap := heap w; calls := calls w ++ [c] |}.

(** An object literal: a new object of the store. *)
Definition alloc (o : obj) : M val := fun w =>
  let l := fresh (dom (heap w)) in
  Returns (VRef l) {| heap := <[l := o]> (heap w); calls := calls w |}.

Definition getProp (v : val) (key : string) : M val :=
  reading (fun h => readProp h v key).

(** [delete v[key]] *)
Definition deleteProp (v : val) (key : string) : M unit :=
  match v with
  | VUndefined | VNull =>
      throw (TypeError ("Cannot convert undefined or null to object"))
  | VRef l => updating (alter (deleteOwn key) l)
  | _ => mret tt
  end.

(** [Object.assign(target, { [key]: value })]; the target is returned. *)
Definition Object_assign (target : val) (key : string) (value : val) : M val :=
  match target with
  | VUndefined | VNull =>
      throw (TypeError ("Cannot convert undefined or null to object"))
  | VRef l => updating (alter (assignOwn key value) l);; mret target
  | _ => mret target
  end.

(** [Object.keys(v)]; a boolean or a number has no keys, and the index keys
    of a string name one-character strings, which carry no [type]. *)
Definition Object_keys (v : val) : M (list string) :=
  match v with
  | VUndefined | VNull =>
      throw (TypeError ("Cannot convert undefined or null to object"))
  | VRef l => reading (fun h => Ok (from_option ownKeys [] (h !! l)))
  | _ => mret []
  end.

Fixpoint filterM {A} (p : A -> M bool) (l : list A) : M (list A) :=
  match l with
  | [] => mret []
  | x :: rest =>
      b ← p x; rest' ← filterM p rest;
      mret (if b : bool then x :: rest' else rest')
  end.

Fixpoint reduceM {A B} (f : B -> A -> M B) (l : list A) (acc : B) : M B :=
  match l with
  | [] => mret acc
  | x :: rest => acc' ← f acc x; reduceM f rest acc'
  end.

Fixpoint forEachM {A} (f : A -> M unit) (l : list A) : M unit :=
  match l with
  | [] => mret tt
  | x :: rest => f x;; forEachM f rest
  end.

(** ** Item Projection *)

(** [key => item[key] && item[key].type], as the filter reads it. *)
Definition hasType (item : val) (key : string) : M bool :=
  v ← getProp item key;
  if truthy v
  then v' ← getProp item key; type ← getProp v' "type"; mret (truthy type)
  else mret false.

(** The callback of the [reduce] that builds [elements]. *)
Definition addElement (item : val) (acc : val) (key : string) : M val :=
  let fieldName := getGraphFieldName key in
  elementValue ← getProp item key;
  type ← getProp elementValue "type";
  fieldValue ←
    (if bool_decide (type = VString "modular_content") then
       name ← getProp elementValue "name";
       type ← getProp elementValue "type";
       value ← getProp elementValue "itemCodenames";
       alloc (OObject [("name", name); ("type", type); ("value", value)])
     else
       type ← getProp elementValue "type";
       if bool_decide (type = VString "rich_text") then
         images ← getProp elementValue "images";
         linkedItems ← getProp elementValue "linkedItemCodenames";
         links ← getProp elementValue "links";
         name ← getProp elementValue "name";
         type ← getProp elementValue "type";
         value ← getProp elementValue "value";
         alloc (OObject [("images", images); ("linkedItems", linkedItems);
                         ("links", links); ("name", name); ("type", type);
                         ("value", value)])
       else mret elementValue);
  deleteProp fieldValue "rawData";;
  Object_assign acc fieldName fieldValue.

(** [Object.assign({}, source)] on plain data. *)
Definition assignAll {A} (target source : list (string * A)) : list (string * A) :=
  fold_left (fun acc p => assign acc (fst p) (snd p)) source target.

Definition ofResult {A} (r : result A) : M A := reading (fun _ => r).

(** [createItemNode(createContentDigest, createNodeId, item)]. The plain
    copy of [nodeData], an object, is an object; the last branch of the
    match is there for the type of [parsed] and is never taken. *)
Definition createItemNode (createContentDigest : json -> string)
    (createNodeId : string -> string) (item : val) : M json :=
  keys ← Object_keys item;
  elementPropertyKeys ← filterM (hasType item) keys;
  acc ← alloc (OObject []);
  elements ← reduceM (addElement item) elementPropertyKeys acc;
  system ← getProp item "system";
  nodeData ← alloc (OObject [("system", system); ("elements", elements)]);
  parsed ← reading (fun h => JSON_roundtrip h nodeData);
  match parsed with
  | Some (JObject nodeData) =>
      idValue ← ofResult (getNodeIdValue (JObject nodeData));
      system ← ofResult (jsonProp (Some (JObject nodeData)) "system");
      type ← ofResult (jsonProp system "type");
      let nodeMeta :=
        [("id", JString (createNodeId idValue));
         ("parent", JNull);
         ("children", JArray []);
         ("internal",
           JObject [("type", JString (getGraphTypeName (caseArg type)));
                    ("mediaType", JString "text/html");
                    ("contentDigest",
                      JString (createContentDigest (JObject nodeData)))])] in
      mret (JObject (assignAll (assignAll [] nodeData) nodeMeta))
  | _ => throw (TypeError "nodeData is not an object")
  end.

(** lodash's [get(object, path)]: [undefined] as soon as the walk meets
    [undefined] or [null] before the path ends. *)
Fixpoint baseGet (h : gmap loc obj) (object : val) (path : list string) : val :=
  match path with
  | [] => object
  | key :: rest =>
      match readProp h object key with
      | Ok v => baseGet h v rest
      | Err _ => VUndefined
      end
  end.

(** lodash's [baseUniq] with an iteratee: an entry is kept unless the key
    computed for it was computed for an entry before it. *)
Fixpoint baseUniq (iteratee : val -> val) (seen : list val) (array : list val)
  : list val :=
  match array with
  | [] => []
  | value :: rest =>
      let computed := iteratee value in
      if bool_decide (computed ∈ seen) then baseUniq iteratee seen rest
      else value :: baseUniq iteratee (computed :: seen) rest
  end.

(** Modelled from the spec: lodash's [unionBy] is a dependency of the
    plugin and is not among the sources; the spec describes it as the
    merge of the two lists keyed by the item codename that prefers the
    first occurrence, which is how lodash documents it (the arrays are
    concatenated, then made unique by the property path). [path] is the
    path ['system.codename'] split at its dot. *)
Definition unionBy (h : gmap loc obj) (array other : list val)
    (path : list string) : list val :=
  baseUniq (fun v => baseGet h v path) [] (array ++ other).

(** ** The plugin entry point *)

Record ItemsResponse := {
  items : list val;
  linkedItems : list val;
}.

(** The delivery client, as the outcome of its two requests: each promise
    resolves with a response or is rejected. The item objects of a response
    are objects of the store. *)
Record DeliveryClient := {
  client_types : result (list ContentType);
  client_items : result ItemsResponse;
}.

Definition createTypes (typeDefs : TypeDefs) : M unit :=
  calling (CreateTypes typeDefs).

Definition createNode (node : json) : M unit :=
  calling (CreateNode node).

Section SourceNodes.

Variable createContentDigest : json -> string.
Variable createNodeId : string -> string.
Variable client : DeliveryClient.

(** [handleTypeCreation()] *)
Definition handleTypeCreation : M unit :=
  createTypes (SchemaText createBaseTypes);;
  types ← ofResult (client_types client);
  createTypes
    (BuiltTypes
       (fold_left (fun acc type => acc ++ createTypeDef type) types [])).

(** [handleNodeCreation()] *)
Definition handleNodeCreation : M unit :=
  response ← ofResult (client_items client);
  allItems ← reading (fun h =>
    Ok (unionBy h (items response) (linkedItems response)
          ["system"; "codename"]));
  forEachM
    (fun item =>
       itemNode ← createItemNode createContentDigest createNodeId item;
       createNode itemNode)
    allItems.

(** [exports.sourceNodes] *)
Definition sourceNodes : M unit :=
  handleTypeCreation;;
  handleNodeCreation.

End SourceNodes.

(** * Earlier revisions of the type projection *)

(** [src/unnamed/part_000]: only text elements have a type of their
    own. The naming functions are those above. *)
Module Part000.

(** [getGraphQLScalarType(elementType)] *)
Definition getGraphQLScalarType (elementType : string) : string :=
  if String.eqb elementType "asset" then "String"
  else if String.eqb elementType "date_time" then "Date"
  else if String.eqb elementType "modular_content" then "String"
  else if String.eqb elementType "rich_text" then "String"
  else if String.eqb elementType "taxonomy" then "String"
  else if String.eqb elementType "text" then "KontentTextElement"
  else if String.eqb elementType "url_slug" then "String"
  else "String".

(** [createTypeDef(schema, type)] *)
Definition createTypeDef (type : ContentType) : list ObjectTypeDef :=
  let elementFields :=
    fold_left
      (fun acc element =>
         let fieldName := getGraphFieldName (element_codename element) in
         assign acc fieldName (getGraphQLScalarType (element_type element)))
      (type_elements type) [] in
  let elementsTypeDef :=
    {| def_name := getGraphTypeName (type_system_codename type) +:+ "Elements";
       def_fields := elementFields;
       def_interfaces := [];
       def_infer := false |} in
  let typeDef :=
    {| def_name := getGraphTypeName (type_system_codename type);
       def_fields :=
         [("system", "KontentItemSystem!");
          ("elements", getGraphTypeName (type_system_codename type) +:+ "Elements")];
       def_interfaces := ["Node"; "KontentItem"];
       def_infer := false |} in
  [elementsTypeDef; typeDef].

(** [createBaseTypes(schema)] *)
Definition createBaseTypes : list BaseDecl :=
  [ {| decl_kind := Interface; decl_name := "KontentItem";
       decl_implements := []; decl_directive := "nodeInterface";
       decl_fields := [field "id" "ID!"; field "system" "KontentItemSystem!"] |};
    {| decl_kind := ObjectType; decl_name := "KontentItemSystem";
       decl_implements := []; decl_directive := "dontInfer";
       decl_fields :=
         [field "codename" "String!"; field "id" "String!";
          field "language" "String!"; ("lastModified", "Date!", DateFormat);
          field "name" "String!"; field "type" "String!"] |};
    {| decl_kind := ObjectType; decl_name := "KontentTextElement";
       decl_implements := []; decl_directive := "dontInfer";
       decl_fields :=
         [field "name" "String!"; field "type" "String!";
          field "value" "String!"] |} ].

End Part000.

(** [src/unnamed/part_001]: every element is a scalar, and the type names
    have the shorter prefix. *)
Module Part001.

(** [getGraphTypeName(typeName)] *)
Definition getGraphTypeName (typeName : string) : string :=
  "Kontent" +:+ ChangeCase.pascalCase typeName.

(** [getGraphQLScalarType(elementType)] *)
Definition getGraphQLScalarType (elementType : string) : string :=
  if String.eqb elementType "asset" then "String"
  else if String.eqb elementType "date_time" then "Date"
  else if String.eqb elementType "modular_content" then "String"
  else if String.eqb elementType "rich_text" then "String"
  else if String.eqb elementType "taxonomy" then "String"
  else if String.eqb elementType "text" then "String"
  else if String.eqb elementType "url_slug" then "String"
  else "String".

(** [createTypeDef(schema, type)] *)
Definition createTypeDef (type : ContentType) : list ObjectTypeDef :=
  let elementFields :=
    fold_left
      (fun acc element =>
         let fieldName := getGraphFieldName (element_codename element) in
         assign acc fieldName (getGraphQLScalarType (element_type element)))
      (type_elements type) [] in
  let elementsTypeDef :=
    {| def_name := getGraphTypeName (type_system_codename type) +:+ "Elements";
       def_fields := elementFields;
       def_interfaces := [];
       def_infer := false |} in
  let typeDef :=
    {| def_name := getGraphTypeName (type_system_codename type);
       def_fields :=
         [("system", "KontentItemSystem!");
          ("elements", getGraphTypeName (type_system_codename type) +:+ "Elements")];
       def_interfaces := ["Node"; "KontentItem"];
       def_infer := false |} in
  [elementsTypeDef; typeDef].

(** [createBaseTypes(schema)] *)
Definition createBaseTypes : list BaseDecl :=
  [ {| decl_kind := Interface; decl_name := "KontentItem";
       decl_implements := []; decl_directive := "nodeInterface";
       decl_fields := [field "id" "ID!"; field "system" "KontentItemSystem!"] |};
    {| decl_kind := ObjectType; decl_name := "KontentItemSystem";
       decl_implements := []; decl_directive := "dontInfer";
       decl_fields :=
         [field "codename" "String!"; field "id" "String!";
          field "language" "String!"; ("lastModified", "Date!", DateFormat);
          field "name" "String!"; field "type" "String!"] |} ].

End Part001.

(** * The vocabulary of the properties *)

(** ** Type Projection *)

Definition fieldOf (element : ContentTypeElement) : string :=
  getGraphFieldName (element_codename element).

Definition valueTypeOf (element : ContentTypeElement) : string :=
  getElementValueType (element_type element).

(** The [reduce] of [createTypeDef], from any accumulator. *)
Definition elementFieldsFrom (acc : list (string * string))
    (elements : list ContentTypeElement) : list (string * string) :=
  fold_left (fun acc element => assign acc (fieldOf element) (valueTypeOf element))
            elements acc.

(** A content type with two elements whose codenames differ and whose
    field names coincide. *)
Definition collidingType : ContentType :=
  {| type_system_codename := "article";
     type_elements :=
       [ {| element_codename := "body_text"; element_type := "text" |};
         {| element_codename := "body__text"; element_type := "number" |} ] |}.

(** ** Outcomes *)

(** The world a run leaves behind, however it ends. *)
Definition worldOf {A} (o : outcome A) : world :=
  match o with
  | Returns _ w => w
  | Throws _ w => w
  end.

(** What a run returned, if it returned. *)
Definition returned {A} (o : outcome A) : option A :=
  match o with
  | Returns a _ => Some a
  | Throws _ _ => None
  end.

(** ** The store during the reduce *)

Definition stripped (o : obj) : obj := deleteOwn "rawData" o.

(** The filter predicate, read off a store. *)
Definition elementKey (h : gmap loc obj) (item : val) (key : string) : bool :=
  match readProp h item key with
  | Ok v =>
      truthy v &&
      match readProp h v "type" with
      | Ok type => truthy type
      | Err _ => false
      end
  | Err _ => false
  end.

(** The element keys of an item, on a store. *)
Definition elementKeys (h : gmap loc obj) (li : loc) : list string :=
  filter (fun key => elementKey h (VRef li) key)
         (from_option ownKeys [] (h !! li)).

(** The objects the reduce builds for the two kinds it rewrites. *)
Definition modularFields (o : obj) : obj :=
  OObject [("name", ownProp o "name"); ("type", ownProp o "type");
           ("value", ownProp o "itemCodenames")].

Definition richTextFields (o : obj) : obj :=
  OObject [("images", ownProp o "images");
           ("linkedItems", ownProp o "linkedItemCodenames");
           ("links", ownProp o "links"); ("name", ownProp o "name");
           ("type", ownProp o "type"); ("value", ownProp o "value")].

(** The end of the callback: [rawData] leaves the field value, and the
    field value enters the accumulator. *)
Definition storeElement (la : loc) (fieldName : string) (target : loc)
    (h : gmap loc obj) : gmap loc obj :=
  alter (assignOwn fieldName (VRef target)) la (alter stripped target h).

(** [l] is an element the reduce hands on as it is: a property of the
    item with a truthy [type] that is neither of the two rewritten
    kinds. *)
Definition passedThrough (h0 : gmap loc obj) (li l : loc) : Prop :=
  exists key type,
    readProp h0 (VRef li) key = Ok (VRef l) /\
    readProp h0 (VRef l) "type" = Ok type /\
    truthy type = true /\
    type <> VString "modular_content" /\ type <> VString "rich_text".

(** Every object of the store on entry is as it was, or is an element
    handed on that has lost [rawData]. *)
Definition frame (h0 : gmap loc obj) (li : loc) (h : gmap loc obj) : Prop :=
  forall l o, h0 !! l = Some o ->
    h !! l = Some o \/ (h !! l = Some (stripped o) /\ passedThrough h0 li l).

(** [v] is what the callback stores for [key]. *)
Definition built (h0 : gmap loc obj) (li la : loc) (h : gmap loc obj)
    (key : string) (v : val) : Prop :=
  exists oi le o,
    h0 !! li = Some oi /\ ownProp oi key = VRef le /\ h0 !! le = Some o /\
    truthy (ownProp o "type") = true /\
    if bool_decide (ownProp o "type" = VString "modular_content") then
      exists l, v = VRef l /\ h0 !! l = None /\ l <> la /\
                h !! l = Some (modularFields o)
    else if bool_decide (ownProp o "type" = VString "rich_text") then
      exists l, v = VRef l /\ h0 !! l = None /\ l <> la /\
                h !! l = Some (richTextFields o)
    else v = VRef le.

(** The loop invariant, after the keys [done]. *)
Definition Inv (h0 : gmap loc obj) (li la : loc) (c0 : list hostCall)
    (done : list string) (w : world) : Prop :=
  calls w = c0 /\ frame h0 li (heap w) /\
  exists acc,
    heap w !! la = Some (OObject acc) /\
    (forall f v, prop acc f = Some v ->
       exists key, key ∈ done /\ getGraphFieldName key = f /\
                   built h0 li la (heap w) key v) /\
    (forall key, key ∈ done -> is_Some (prop acc (getGraphFieldName key))) /\
    NoDup (map fst acc).

(** ** The emitted node *)

(** The metadata of a node, from the plain [nodeData]. *)
Definition nodeMetaOf (createContentDigest : json -> string)
    (createNodeId : string -> string) (nodeData : list (string * json))
    (idValue : string) (type : option json) : list (string * json) :=
  [("id", JString (createNodeId idValue));
   ("parent", JNull);
   ("children", JArray []);
   ("internal",
     JObject [("type", JString (getGraphTypeName (caseArg type)));
              ("mediaType", JString "text/html");
              ("contentDigest", JString (createContentDigest (JObject nodeData)))])].

Definition nodeOf (createContentDigest : json -> string)
    (createNodeId : string -> string) (nodeData : list (string * json))
    (idValue : string) (type : option json) : json :=
  JObject (assignAll (assignAll [] nodeData)
             (nodeMetaOf createContentDigest createNodeId nodeData idValue type)).

(** [j.key] on plain data, [None] where there is no such property. *)
Definition jprop (j : json) (key : string) : option json :=
  match j with
  | JObject ps => prop ps key
  | _ => None
  end.

Definition jkeys (j : json) : list string :=
  match j with
  | JObject ps => map fst ps
  | _ => []
  end.

(** [node.internal.contentDigest] *)
Definition contentDigestOf (node : json) : option json :=
  jprop node "internal" ≫= fun internal => jprop internal "contentDigest".

(** ** Runs *)

Definition codenameOf (h : gmap loc obj) (item : val) : val :=
  baseGet h item ["system"; "codename"].

(** The nodes created for a list of items, one after the other: each item
    is normalized in the world the node before it left behind. *)
Inductive emits (d : json -> string) (n : string -> string)
  : list val -> world -> list json -> world -> Prop :=
| emits_nil w : emits d n [] w [] w
| emits_cons item rest w node w1 nodes w2 :
    createItemNode d n item w = Returns node w1 ->
    emits d n rest {| heap := heap w1; calls := calls w1 ++ [CreateNode node] |}
          nodes w2 ->
    emits d n (item :: rest) w (node :: nodes) w2.

(** A computation that makes no host call, however it ends. *)
Definition quiet {A} (m : M A) : Prop :=
  forall w, calls (worldOf (m w)) = calls w.

(** A computation whose exceptions are exceptions of the program: the
    bound on the depth of the plain copy is never what ends it. *)
Definition fuelled {A} (m : M A) : Prop :=
  forall w e w', m w = Throws e w' -> e <> OutOfFuel.

(** ** Sample stores *)

(** An item [1] with its system record [2], a text element [3] and a rich
    text element [4]; both elements carry the raw payload [5], and the rich
    text element also carries its resolved linked items [8], which lead
    back to the item. *)
Definition sampleHeap : gmap loc obj :=
  list_to_map
    [(1%positive,
       OObject [("system", VRef 2%positive); ("title", VRef 3%positive);
                ("body", VRef 4%positive)]);
     (2%positive,
       OObject [("codename", VString "first_post"); ("id", VString "i1");
                ("type", VString "blog_post")]);
     (3%positive,
       OObject [("name", VString "Title"); ("type", VString "text");
                ("value", VString "Hello"); ("rawData", VRef 5%positive)]);
     (4%positive,
       OObject [("name", VString "Body"); ("type", VString "rich_text");
                ("value", VString "<p>hi</p>");
                ("images", VRef 6%positive); ("links", VRef 6%positive);
                ("linkedItemCodenames", VRef 7%positive);
                ("rawData", VRef 5%positive);
                ("linkedItems", VRef 8%positive)]);
     (5%positive, OObject [("value", VString "raw")]);
     (6%positive, OArray []);
     (7%positive, OArray [VString "c1"]);
     (8%positive, OArray [VRef 1%positive])].

Definition sampleWorld : world := {| heap := sampleHeap; calls := [] |}.

(** Stand-ins for the two host functions. *)
Definition sampleDigest (content : json) : string :=
  match jprop content "system" with
  | Some system => "digest:" +:+ interpolate (jprop system "codename")
  | None => "digest"
  end.

Definition sampleNodeId (key : string) : string := "id:" +:+ key.

(** The sample item with the codenames of its rich text element taken
    away. *)
Definition sampleHeapNoCodenames : gmap loc obj :=
  <[4%positive :=
      OObject [("name", VString "Body"); ("type", VString "rich_text");
               ("value", VString "<p>hi</p>");
               ("images", VRef 6%positive); ("links", VRef 6%positive)]]>
    sampleHeap.

(** The sample item again, as a second object in a store where other
    objects come first. *)
Definition sampleHeapMoved : gmap loc obj :=
  list_to_map
    [(11%positive,
       OObject [("system", VRef 12%positive); ("title", VRef 13%positive);
                ("body", VRef 14%positive)]);
     (12%positive,
       OObject [("codename", VString "first_post"); ("id", VString "i1");
                ("type", VString "blog_post")]);
     (13%positive,
       OObject [("name", VString "Title"); ("type", VString "text");
                ("value", VString "Hello")]);
     (14%positive,
       OObject [("name", VString "Body"); ("type", VString "rich_text");
                ("value", VString "<p>hi</p>");
                ("images", VRef 16%positive); ("links", VRef 17%positive);
                ("linkedItemCodenames", VRef 18%positive)]);
     (16%positive, OArray []);
     (17%positive, OArray []);
     (18%positive, OArray [VString "c1"])].

(** Three root and linked items: [1] is [A], [2] is [B], [3] is the linked
    occurrence of [B] and [4] is [C]. *)
Definition threeItems : gmap loc obj :=
  list_to_map
    [(1%positive, OObject [("system", VRef 5%positive)]);
     (2%positive, OObject [("system", VRef 6%positive)]);
     (3%positive, OObject [("system", VRef 7%positive)]);
     (4%positive, OObject [("system", VRef 8%positive)]);
     (5%positive, OObject [("codename", VString "a"); ("id", VString "1");
                           ("type", VString "page")]);
     (6%positive, OObject [("codename", VString "b"); ("id", VString "2");
                           ("type", VString "page")]);
     (7%positive, OObject [("codename", VString "b"); ("id", VString "2-linked");
                           ("type", VString "page")]);
     (8%positive, OObject [("codename", VString "c"); ("id", VString "3");
                           ("type", VString "page")])].

(** Two items [1] and [2] that share an object: [6] is the value of an
    element of [1] and is itself an element of [2]. *)
Definition sharedHeap : gmap loc obj :=
  list_to_map
    [(1%positive, OObject [("system", VRef 3%positive); ("el", VRef 5%positive)]);
     (2%positive, OObject [("system", VRef 4%positive); ("x", VRef 6%positive)]);
     (3%positive, OObject [("codename", VString "a"); ("id", VString "1");
                           ("type", VString "page")]);
     (4%positive, OObject [("codename", VString "b"); ("id", VString "2");
                           ("type", VString "page")]);
     (5%positive, OObject [("name", VString "El"); ("type", VString "custom");
                           ("value", VRef 6%positive)]);
     (6%positive, OObject [("type", VString "option"); ("rawData", VNumber 1);
                           ("n", VNumber 2)])].

(** ** More vocabulary *)

(** The kinds of element that have a type among the base types. *)
Definition catalog : list string :=
  ["text"; "number"; "date_time"; "asset"; "rich_text"; "modular_content";
   "taxonomy"; "multiple_choice"; "url_slug"].

(** A type that the base types declare. *)
Definition declared (name : string) : Prop :=
  name ∈ map decl_name createBaseTypes.

(** A computation whose exceptions are [TypeError]s. *)
Definition typeErrors {A} (m : M A) : Prop :=
  forall w e w', m w = Throws e w' -> exists msg, e = TypeError msg.

(** The key [key] of the item holds the object [le], and the reduce hands
    [le] on as it is. *)
Definition handedOn (h0 : gmap loc obj) (li : loc) (key : string) (le : loc)
  : Prop :=
  exists oi o,
    h0 !! li = Some oi /\ ownProp oi key = VRef le /\ h0 !! le = Some o /\
    truthy (ownProp o "type") = true /\
    ownProp o "type" <> VString "modular_content" /\
    ownProp o "type" <> VString "rich_text".

(** An object of the store without a [rawData] property. *)
Definition bare (h : gmap loc obj) (l : loc) : Prop :=
  exists o, h !! l = Some o /\ stripped o = o.

(** The second loop invariant, after the keys [done]: what was handed on
    has no [rawData]. *)
Definition Bare (h0 : gmap loc obj) (li : loc) (done : list string) (w : world)
  : Prop :=
  forall key le, key ∈ done -> handedOn h0 li key le -> bare (heap w) le.

(** The values an object of the store holds. *)
Definition vals (o : obj) : list val :=
  match o with
  | OObject ps => map snd ps
  | OArray es => es
  | ODate _ => []
  end.

(** A store without circular structures and without references that lead
    nowhere: every reference held by an object leads to an object of the
    store, of a lower rank. *)
Definition ranked (rank : loc -> nat) (h : gmap loc obj) : Prop :=
  forall l o l', h !! l = Some o -> VRef l' ∈ vals o ->
    is_Some (h !! l') /\ rank l' < rank l.

(** The ranks during the reduce: those of the store on entry, [bound] for
    the objects the reduce makes, and more for the accumulator [la]. *)
Definition rankIn (h0 : gmap loc obj) (la : loc) (rank : loc -> nat)
    (bound : nat) (l : loc) : nat :=
  match h0 !! l with
  | Some _ => rank l
  | None => if decide (l = la) then S bound else bound
  end.

(** A store of plain data for the sample item: no object is reached
    twice. *)
Definition sampleRank (l : loc) : nat :=
  match l with
  | 11%positive => 2
  | 12%positive | 13%positive | 14%positive => 1
  | _ => 0
  end.

(** An item as the delivery client hands it over: an object of the store
    whose [system] is an object of the store. *)
Definition itemObject (h : gmap loc obj) (item : val) : Prop :=
  exists li ips ls sps,
    item = VRef li /\ h !! li = Some (OObject ips) /\
    prop ips "system" = Some (VRef ls) /\ h !! ls = Some (OObject sps).

(** * Properties *)

(** ** Objects as property lists *)

Section Props.
Context {A : Type}.
Implicit Types (o : list (string * A)) (k f : string) (v : A).

Lemma prop_assign o k v f :
  prop (assign o k v) f = if String.eqb k f then Some v else prop o f.
Proof.
  induction o as [|[k' v'] o IH]; simpl.
  - reflexivity.
  - destruct (String.eqb k' k) eqn:Ek; simpl.
    + apply String.eqb_eq in Ek; subst k'.
      destruct (String.eqb k f); reflexivity.
    + destruct (String.eqb k' f) eqn:Ef.
      * apply String.eqb_eq in Ef; subst k'.
        rewrite String.eqb_sym, Ek. reflexivity.
      * exact IH.
Qed.

Lemma prop_assign_eq o k v : prop (assign o k v) k = Some v.
Proof. rewrite prop_assign, String.eqb_refl. reflexivity. Qed.

Lemma prop_assign_ne o k v f : k ≠ f -> prop (assign o k v) f = prop o f.
Proof.
  intros Hne. rewrite prop_assign.
  destruct (String.eqb k f) eqn:E; [|reflexivity].
  apply String.eqb_eq in E. contradiction.
Qed.

Lemma prop_Some_elem o k v : prop o k = Some v -> (k, v) ∈ o.
Proof.
  induction o as [|[k' v'] o IH]; simpl; [discriminate|].
  destruct (String.eqb k' k) eqn:E.
  - apply String.eqb_eq in E. intros [= ->]. subst. left.
  - intros H. right. auto.
Qed.

Lemma prop_None o k : prop o k = None <-> k ∉ map fst o.
Proof.
  induction o as [|[k' v'] o IH]; simpl.
  - split; [intros _; apply not_elem_of_nil | reflexivity].
  - destruct (String.eqb k' k) eqn:E.
    + apply String.eqb_eq in E; subst. split; [discriminate|].
      intros H. exfalso. apply H. left.
    + apply String.eqb_neq in E. rewrite IH, not_elem_of_cons.
      split; [intros H; split; [congruence|exact H] | intros [_ H]; exact H].
Qed.

Lemma keys_assign o k v :
  map fst (assign o k v) =
    if bool_decide (k ∈ map fst o) then map fst o else map fst o ++ [k].
Proof.
  induction o as [|[k' v'] o IH].
  - rewrite bool_decide_false by apply not_elem_of_nil. reflexivity.
  - cbn [assign map fst]. destruct (String.eqb k' k) eqn:E.
    + apply String.eqb_eq in E; subst.
      rewrite bool_decide_true by left. reflexivity.
    + apply String.eqb_neq in E. cbn [map fst]. rewrite IH.
      destruct (bool_decide (k ∈ map fst o)) eqn:Eb.
      * apply bool_decide_eq_true in Eb.
        rewrite bool_decide_true by (right; exact Eb). reflexivity.
      * apply bool_decide_eq_false in Eb.
        rewrite bool_decide_false; [reflexivity|].
        intros [?|?]%elem_of_cons; [congruence|contradiction].
Qed.

Lemma NoDup_keys_assign o k v :
  NoDup (map fst o) -> NoDup (map fst (assign o k v)).
Proof.
  intros Hnd. rewrite keys_assign. case_bool_decide as Hin; [exact Hnd|].
  apply NoDup_app. split; [exact Hnd|]. split.
  - intros x Hx Hx'. apply list_elem_of_singleton in Hx'. subst. contradiction.
  - apply NoDup_singleton.
Qed.

End Props.

(** ** Type Projection *)

(** Last write wins: a field holds the value type of the last element
    that has its name. *)
Lemma elementFieldsFrom_prop elements : forall acc f,
  prop (elementFieldsFrom acc elements) f =
    match last (filter (fun e => fieldOf e = f) elements) with
    | Some e => Some (valueTypeOf e)
    | None => prop acc f
    end.
Proof.
  induction elements as [|e es IH]; intros acc f; [reflexivity|].
  change (elementFieldsFrom acc (e :: es))
    with (elementFieldsFrom (assign acc (fieldOf e) (valueTypeOf e)) es).
  rewrite IH, filter_cons. case_decide as Hf.
  - destruct (filter (fun e0 => fieldOf e0 = f) es) as [|e' l] eqn:El.
    + simpl. subst f. apply prop_assign_eq.
    + change (last (e :: e' :: l)) with (last (e' :: l)).
      destruct (last (e' :: l)) eqn:Elast; [reflexivity|].
      apply last_None in Elast. discriminate Elast.
  - destruct (last (filter (fun e0 => fieldOf e0 = f) es)); [reflexivity|].
    apply prop_assign_ne. exact Hf.
Qed.

Lemma elementFieldsFrom_NoDup elements : forall acc,
  NoDup (map fst acc) -> NoDup (map fst (elementFieldsFrom acc elements)).
Proof.
  induction elements as [|e es IH]; intros acc Hnd; [exact Hnd|].
  apply IH, NoDup_keys_assign, Hnd.
Qed.

(** Without two elements of one field name, the fields are the elements,
    one for one and in order. *)
Lemma elementFieldsFrom_distinct elements : forall acc,
  NoDup (map fst acc ++ map fieldOf elements) ->
  elementFieldsFrom acc elements =
    acc ++ map (fun e => (fieldOf e, valueTypeOf e)) elements.
Proof.
  induction elements as [|e es IH]; intros acc Hnd.
  - simpl. rewrite app_nil_r. reflexivity.
  - change (elementFieldsFrom acc (e :: es))
      with (elementFieldsFrom (assign acc (fieldOf e) (valueTypeOf e)) es).
    assert (Hnew : assign acc (fieldOf e) (valueTypeOf e)
                   = acc ++ [(fieldOf e, valueTypeOf e)]).
    { apply NoDup_app in Hnd as (_ & Hdisj & _).
      assert (Hnot : fieldOf e ∉ map fst acc).
      { intros Hin. apply (Hdisj _ Hin). left. }
      clear -Hnot. induction acc as [|[k v] acc IH]; [reflexivity|].
      simpl. apply not_elem_of_cons in Hnot as [Hne Hnot]. simpl in Hne.
      destruct (String.eqb k (fieldOf e)) eqn:E.
      - apply String.eqb_eq in E. congruence.
      - rewrite IH by exact Hnot. reflexivity. }
    rewrite Hnew, IH.
    + rewrite <- app_assoc. reflexivity.
    + rewrite map_app, <- app_assoc. exact Hnd.
Qed.

Lemma createTypeDef_concat (types : list ContentType) : forall acc,
  fold_left (fun acc type => acc ++ createTypeDef type) types acc =
    acc ++ concat (map createTypeDef types).
Proof.
  induction types as [|t ts IH]; intros acc; simpl.
  - rewrite app_nil_r. reflexivity.
  - rewrite IH, <- app_assoc. reflexivity.
Qed.




(** ** The plain copy *)

Lemma bind_Ok {A B} (r : result A) (f : A -> result B) b :
  (r ≫= f) = Ok b -> exists a, r = Ok a /\ f a = Ok b.
Proof. destruct r as [a|e]; [eauto | discriminate]. Qed.

(** What a successful copy says about the value and the store. *)
Lemma plain_Ok fuel h seen v r :
  plain fuel h seen v = Ok r ->
  match v with
  | VUndefined => r = None
  | VNull => r = Some JNull
  | VBool b => r = Some (JBool b)
  | VNumber n => r = Some (JNumber n)
  | VString s => r = Some (JString s)
  | VRef l =>
      (l ∉ seen) /\
      match h !! l with
      | None => r = None
      | Some (ODate iso) => r = Some (from_option JString JNull iso)
      | Some (OArray es) =>
          exists n js, fuel = S n /\
            plainElems (plain n h (l :: seen)) es = Ok js /\ r = Some (JArray js)
      | Some (OObject ps) =>
          exists n jps, fuel = S n /\
            plainProps (plain n h (l :: seen)) ps = Ok jps /\ r = Some (JObject jps)
      end
  end.
Proof.
  destruct fuel as [|n]; [discriminate|]. simpl.
  destruct v; try (intros [= <-]; reflexivity).
  case_decide as Hseen; [discriminate|]. intros H. split; [exact Hseen|].
  revert H.
  destruct (h !! l) as [[ps|es|iso]|]; try (intros [= <-]; reflexivity).
  - intros (jps & Hps & [= <-])%bind_Ok. eauto.
  - intros (js & Hes & [= <-])%bind_Ok. eauto.
Qed.

(** Every property of the copy is the copy of a property that is not
    [undefined]: nothing is invented, and [undefined] is dropped, not
    written as [null]. *)
Lemma plainProps_source f ps jps k x :
  plainProps f ps = Ok jps -> prop jps k = Some x ->
  exists v, (k, v) ∈ ps /\ f v = Ok (Some x).
Proof.
  revert jps. induction ps as [|[k' v'] ps IH]; intros jps; simpl.
  - intros [= <-]. discriminate.
  - intros (j & Hj & (js & Hjs & [= <-])%bind_Ok)%bind_Ok Hx.
    destruct j as [y|].
    + simpl in Hx. destruct (String.eqb k' k) eqn:Ek.
      * apply String.eqb_eq in Ek. subst k'. injection Hx as <-.
        exists v'. split; [left | exact Hj].
      * destruct (IH js Hjs Hx) as (v & Hin & Hv).
        exists v. split; [right; exact Hin | exact Hv].
    + destruct (IH js Hjs Hx) as (v & Hin & Hv).
      exists v. split; [right; exact Hin | exact Hv].
Qed.

(** *** Fuel *)

Lemma plainElems_fuel f es :
  (forall v, f v <> Err OutOfFuel) -> plainElems f es <> Err OutOfFuel.
Proof.
  intros Hf. induction es as [|v es IH]; simpl; [discriminate|].
  specialize (Hf v). destruct (f v) as [j|e]; simpl; [|congruence].
  destruct (plainElems f es) as [js|e]; simpl; congruence.
Qed.

Lemma plainProps_fuel f ps :
  (forall v, f v <> Err OutOfFuel) -> plainProps f ps <> Err OutOfFuel.
Proof.
  intros Hf. induction ps as [|[k v] ps IH]; simpl; [discriminate|].
  specialize (Hf v). destruct (f v) as [j|e]; simpl; [|congruence].
  destruct (plainProps f ps) as [js|e]; simpl; congruence.
Qed.

(** The objects being serialized are distinct objects of the store, so
    there are at most as many as the store holds. *)
Lemma seen_bound (h : gmap loc obj) (seen : list loc) :
  NoDup seen -> (forall l, l ∈ seen -> is_Some (h !! l)) ->
  length seen <= size h.
Proof.
  intros Hnd Hin.
  rewrite <- (size_dom (D := gset loc)), <- (size_list_to_set (C := gset loc)) by exact Hnd.
  apply subseteq_size. intros l Hl.
  apply elem_of_list_to_set in Hl. apply elem_of_dom, Hin, Hl.
Qed.

Lemma plain_enough fuel : forall (h : gmap loc obj) seen v,
  NoDup seen -> (forall l, l ∈ seen -> is_Some (h !! l)) ->
  size h < fuel + length seen ->
  plain fuel h seen v <> Err OutOfFuel.
Proof.
  induction fuel as [|n IH]; intros h seen v Hnd Hin Hsize.
  - pose proof (seen_bound h seen Hnd Hin). simpl in Hsize. lia.
  - simpl. destruct v; try discriminate.
    case_decide as Hseen; [discriminate|].
    destruct (h !! l) as [o|] eqn:Hl; [|discriminate].
    assert (Hrec : forall v', plain n h (l :: seen) v' <> Err OutOfFuel).
    { intros v'. apply IH.
      - constructor; assumption.
      - intros l' [->|Hl']%elem_of_cons; [eauto | apply Hin, Hl'].
      - simpl. lia. }
    destruct o as [ps|es|iso]; [| |discriminate].
    + pose proof (plainProps_fuel _ ps Hrec) as Hps.
      destruct (plainProps _ ps); simpl; congruence.
    + pose proof (plainElems_fuel _ es Hrec) as Hes.
      destruct (plainElems _ es); simpl; congruence.
Qed.

(** [JSON.parse(JSON.stringify(v))] returns or throws; the bound on the
    nesting depth is never what stops it. *)
Lemma plain_fuel (h : gmap loc obj) v : JSON_roundtrip h v <> Err OutOfFuel.
Proof.
  apply plain_enough.
  - constructor.
  - intros l Hl. apply elem_of_nil in Hl. contradiction.
  - simpl. lia.
Qed.

(** ** Reads and writes of the store *)

Lemma prop_filter_key {A} (ps : list (string * A)) d k :
  prop (filter (fun p => negb (String.eqb (fst p) d)) ps) k =
    if String.eqb k d then None else prop ps k.
Proof.
  induction ps as [|[k' v'] ps IH]; simpl.
  - destruct (String.eqb k d); reflexivity.
  - rewrite filter_cons. simpl. destruct (String.eqb k' d) eqn:Ed; simpl.
    + rewrite IH. apply String.eqb_eq in Ed. subst k'.
      destruct (String.eqb k d) eqn:Ek; [reflexivity|].
      rewrite String.eqb_sym, Ek. reflexivity.
    + rewrite IH.
      destruct (String.eqb k' k) eqn:Ek; [|reflexivity].
      apply String.eqb_eq in Ek. subst k'. rewrite Ed. reflexivity.
Qed.

Lemma ownProp_deleteOwn o d k :
  k <> d -> ownProp (deleteOwn d o) k = ownProp o k.
Proof.
  intros Hne. destruct o as [ps|es|iso]; try reflexivity.
  simpl. rewrite prop_filter_key.
  apply String.eqb_neq in Hne. rewrite Hne. reflexivity.
Qed.

Lemma ownProp_deleteOwn_cases o d k :
  ownProp (deleteOwn d o) k = ownProp o k \/ ownProp (deleteOwn d o) k = VUndefined.
Proof.
  destruct o as [ps|es|iso]; try (left; reflexivity).
  simpl. rewrite prop_filter_key.
  destruct (String.eqb k d); [right|left]; reflexivity.
Qed.

Lemma deleteOwn_idemp d o : deleteOwn d (deleteOwn d o) = deleteOwn d o.
Proof.
  destruct o as [ps|es|iso]; try reflexivity.
  simpl. f_equal. rewrite list_filter_filter. apply list_filter_iff.
  intros x. tauto.
Qed.

Lemma hasType_run li key w :
  hasType (VRef li) key w = Returns (elementKey (heap w) (VRef li) key) w.
Proof.
  unfold hasType, elementKey, getProp, reading, mbind, M_bind. simpl.
  destruct (heap w !! li) as [oi|] eqn:Hli; simpl; [|reflexivity].
  destruct (ownProp oi key) as [| |b|n|s|l] eqn:Hv; simpl; try reflexivity.
  - destruct b; simpl; rewrite ?Hli; simpl; rewrite ?Hv; reflexivity.
  - destruct (negb _); simpl; rewrite ?Hli; simpl; rewrite ?Hv; reflexivity.
  - destruct (negb _); simpl; rewrite ?Hli; simpl; rewrite ?Hv; reflexivity.
  - rewrite Hli. simpl. rewrite Hv. simpl. reflexivity.
Qed.

Lemma filterM_hasType li keys w :
  filterM (hasType (VRef li)) keys w =
    Returns (filter (fun key => elementKey (heap w) (VRef li) key) keys) w.
Proof.
  induction keys as [|key keys IH]; [reflexivity|].
  simpl. unfold mbind, M_bind in *. rewrite hasType_run, IH. simpl.
  rewrite filter_cons.
  destruct (elementKey _ _ key); reflexivity.
Qed.

(** An element key names an object of the store with a truthy [type]. *)
Lemma elementKey_true h li key :
  elementKey h (VRef li) key = true ->
  exists oi le o,
    h !! li = Some oi /\ ownProp oi key = VRef le /\ h !! le = Some o /\
    truthy (ownProp o "type") = true.
Proof.
  unfold elementKey. simpl.
  destruct (h !! li) as [oi|] eqn:Hli; simpl; [|discriminate].
  destruct (ownProp oi key) as [| |b|n|s|le] eqn:Hv; simpl;
    try discriminate;
    try (rewrite andb_false_r; discriminate).
  destruct (h !! le) as [o|] eqn:Hle; simpl; [|discriminate].
  intros Ht. exists oi, le, o. auto.
Qed.

(** The callback, run on an element that is an object of the store. *)
Lemma addElement_run li la key w oi le o :
  heap w !! li = Some oi -> ownProp oi key = VRef le -> heap w !! le = Some o ->
  addElement (VRef li) (VRef la) key w =
    Returns (VRef la)
      {| heap :=
           if bool_decide (ownProp o "type" = VString "modular_content") then
             let l := fresh (dom (heap w)) in
             storeElement la (getGraphFieldName key) l
               (<[l := modularFields o]> (heap w))
           else if bool_decide (ownProp o "type" = VString "rich_text") then
             let l := fresh (dom (heap w)) in
             storeElement la (getGraphFieldName key) l
               (<[l := richTextFields o]> (heap w))
           else storeElement la (getGraphFieldName key) le (heap w);
         calls := calls w |}.
Proof.
  intros Hli Hkey Hle.
  unfold addElement, getProp, reading, mbind, M_bind. simpl.
  rewrite Hli. simpl. rewrite Hkey. simpl. rewrite Hle. simpl.
  destruct (bool_decide (ownProp o "type" = VString "modular_content")).
  { simpl. rewrite !Hle. reflexivity. }
  simpl. rewrite Hle. simpl.
  destruct (bool_decide (ownProp o "type" = VString "rich_text")).
  { simpl. rewrite !Hle. reflexivity. }
  reflexivity.
Qed.

(** The callback on a key that holds nothing any more. *)
Lemma addElement_undefined li la key w oi :
  heap w !! li = Some oi -> ownProp oi key = VUndefined ->
  exists e, addElement (VRef li) (VRef la) key w = Throws e w.
Proof.
  intros Hli Hkey.
  unfold addElement, getProp, reading, mbind, M_bind. simpl.
  rewrite Hli. simpl. rewrite Hkey. simpl. eauto.
Qed.

(** ** The reduce that builds [elements] *)

Section Reduce.

(** The store on entry, the item, the accumulator of the reduce and the
    host calls made so far. *)
Variables (h0 : gmap loc obj) (li la : loc) (c0 : list hostCall).
Hypothesis Hla : h0 !! la = None.

Lemma frame_refl : frame h0 li h0.
Proof. intros l o Hl. left. exact Hl. Qed.

Lemma frame_is_Some h l : frame h0 li h -> is_Some (h0 !! l) -> is_Some (h !! l).
Proof. intros Hf [o Ho]. destruct (Hf l o Ho) as [H|[H _]]; eauto. Qed.

Lemma frame_None h l : frame h0 li h -> h !! l = None -> h0 !! l = None.
Proof.
  intros Hf Hl. destruct (h0 !! l) as [o|] eqn:Ho; [|reflexivity].
  destruct (frame_is_Some h l Hf) as [o' Ho']; [eauto | congruence].
Qed.

(** A write to an object that was not in the store on entry. *)
Lemma frame_outside h h' :
  frame h0 li h -> (forall l, is_Some (h0 !! l) -> h' !! l = h !! l) -> frame h0 li h'.
Proof.
  intros Hf Hsame l o Hl. rewrite Hsame by eauto. apply Hf, Hl.
Qed.

Lemma frame_strip h l :
  frame h0 li h -> passedThrough h0 li l -> frame h0 li (alter stripped l h).
Proof.
  intros Hf Hp l' o Hl'. destruct (decide (l = l')) as [->|Hne].
  - rewrite lookup_alter_eq. right. split; [|exact Hp].
    destruct (Hf l' o Hl') as [->|[-> _]]; simpl; [reflexivity|].
    unfold stripped. rewrite deleteOwn_idemp. reflexivity.
  - rewrite lookup_alter_ne by exact Hne. apply Hf, Hl'.
Qed.

(** An object the frame covers reads as on entry, [rawData] apart. *)
Lemma frame_read h l o :
  frame h0 li h -> h0 !! l = Some o ->
  exists o', h !! l = Some o' /\
    (forall k, k <> "rawData" -> ownProp o' k = ownProp o k) /\
    (forall k, ownProp o' k = ownProp o k \/ ownProp o' k = VUndefined).
Proof.
  intros Hf Hl. destruct (Hf l o Hl) as [H|[H _]].
  - exists o. split; [exact H|]. split; [reflexivity | left; reflexivity].
  - exists (stripped o). split; [exact H|]. split.
    + intros k Hk. apply ownProp_deleteOwn, Hk.
    + intros k. apply ownProp_deleteOwn_cases.
Qed.

Lemma built_stable h h' key v :
  built h0 li la h key v ->
  (forall l, h0 !! l = None -> l <> la -> is_Some (h !! l) -> h' !! l = h !! l) ->
  built h0 li la h' key v.
Proof.
  intros (oi & le & o & Hli & Hv & Hle & Ht & Hb) Hsame.
  exists oi, le, o. repeat (split; [assumption|]).
  repeat case_bool_decide; [| |exact Hb];
    destruct Hb as (l & -> & Hl0 & Hne & Hl); exists l;
    (repeat split; [assumption..|]); rewrite Hsame by eauto; exact Hl.
Qed.

(** The end of the callback keeps the invariant, whatever came before
    it, as long as that kept the frame, the accumulator and the objects
    built so far. *)
Lemma Inv_store done w key target h1 :
  Inv h0 li la c0 done w ->
  frame h0 li h1 ->
  h1 !! la = heap w !! la ->
  (forall l, h0 !! l = None -> l <> la -> is_Some (heap w !! l) ->
             h1 !! l = heap w !! l) ->
  built h0 li la h1 key (VRef target) ->
  Inv h0 li la c0 (done ++ [key])
      {| heap := alter (assignOwn (getGraphFieldName key) (VRef target)) la h1;
         calls := calls w |}.
Proof.
  intros (Hc & Hf & acc & Hacc & Hfields & Hdone & Hnd) Hf1 Hla1 Hold Hb.
  assert (Hout : forall l, l <> la ->
    alter (assignOwn (getGraphFieldName key) (VRef target)) la h1 !! l = h1 !! l).
  { intros l Hl. apply lookup_alter_ne. congruence. }
  split; [exact Hc|]. split; [|exists (assign acc (getGraphFieldName key) (VRef target))].
  - simpl. apply (frame_outside h1); [exact Hf1|].
    intros l [o Ho]. apply Hout. congruence.
  - simpl. split; [|split; [|split]].
    + rewrite lookup_alter_eq, Hla1, Hacc. reflexivity.
    + intros f v. rewrite prop_assign.
      destruct (String.eqb (getGraphFieldName key) f) eqn:Ef.
      * apply String.eqb_eq in Ef. intros [= <-].
        exists key. split; [apply elem_of_app; right; left|].
        split; [exact Ef|].
        apply (built_stable h1); [exact Hb|].
        intros l _ Hl _. apply Hout, Hl.
      * intros Hv. destruct (Hfields f v Hv) as (key' & Hin & Hfk & Hb').
        exists key'. split; [apply elem_of_app; left; exact Hin|].
        split; [exact Hfk|].
        apply (built_stable (heap w)); [exact Hb'|].
        intros l Hl0 Hl Hsome. rewrite Hout by exact Hl.
        apply Hold; assumption.
    + intros key' [Hin|Hin]%elem_of_app.
      * rewrite prop_assign. destruct (String.eqb _ _); [eauto|].
        apply Hdone, Hin.
      * apply list_elem_of_singleton in Hin. subst key'.
        rewrite prop_assign_eq. eauto.
    + apply NoDup_keys_assign, Hnd.
Qed.

(** One turn of the reduce, on an element key of the store on entry. *)
Lemma addElement_step done w key :
  Inv h0 li la c0 done w -> elementKey h0 (VRef li) key = true ->
  match addElement (VRef li) (VRef la) key w with
  | Returns r w' => r = VRef la /\ Inv h0 li la c0 (done ++ [key]) w'
  | Throws _ w' => calls w' = c0 /\ frame h0 li (heap w')
  end.
Proof.
  intros HInv Hek.
  destruct (elementKey_true _ _ _ Hek) as (oi & le & o & Hli & Hv & Hle & Ht).
  pose proof HInv as (Hc & Hf & acc & Hacc & _).
  destruct (frame_read _ _ _ Hf Hli) as (oi' & Hli' & _ & Hcase).
  destruct (Hcase key) as [Hv'|Hv']; rewrite Hv in Hv' || idtac.
  2:{ destruct (addElement_undefined li la key w oi' Hli' Hv') as [e ->].
      split; assumption. }
  destruct (frame_read _ _ _ Hf Hle) as (o' & Hle' & Hsame & _).
  rewrite (addElement_run li la key w oi' le o' Hli' Hv' Hle').
  split; [reflexivity|].
  assert (Hlale : le <> la) by congruence.
  assert (Hmod : modularFields o' = modularFields o).
  { unfold modularFields. rewrite !Hsame by discriminate. reflexivity. }
  assert (Hrich : richTextFields o' = richTextFields o).
  { unfold richTextFields. rewrite !Hsame by discriminate. reflexivity. }
  rewrite (Hsame "type") by discriminate.
  set (lf := fresh (dom (heap w))).
  assert (Hlf : heap w !! lf = None) by apply not_elem_of_dom, is_fresh.
  assert (Hlfla : lf <> la) by congruence.
  assert (Hfresh : forall ob,
    stripped ob = ob ->
    frame h0 li (alter stripped lf (<[lf := ob]> (heap w))) /\
    alter stripped lf (<[lf := ob]> (heap w)) !! la = heap w !! la /\
    (forall l, h0 !! l = None -> l <> la -> is_Some (heap w !! l) ->
       alter stripped lf (<[lf := ob]> (heap w)) !! l = heap w !! l) /\
    alter stripped lf (<[lf := ob]> (heap w)) !! lf = Some ob).
  { intros ob Hob.
    assert (Hother : forall l, l <> lf ->
      alter stripped lf (<[lf := ob]> (heap w)) !! l = heap w !! l).
    { intros l Hl. rewrite lookup_alter_ne, lookup_insert_ne by congruence.
      reflexivity. }
    split; [|split; [|split]].
    - apply (frame_outside (heap w)); [exact Hf|].
      intros l Hl. apply Hother.
      intros ->. apply (frame_is_Some _ _ Hf) in Hl as [? ?]. congruence.
    - apply Hother. congruence.
    - intros l _ _ [? ?]. apply Hother. congruence.
    - rewrite lookup_alter_eq, lookup_insert_eq. simpl. rewrite Hob.
      reflexivity. }
  unfold storeElement. case_bool_decide as Em; [|case_bool_decide as Er].
  - cbv zeta. fold lf. rewrite Hmod.
    destruct (Hfresh (modularFields o) eq_refl) as (F1 & F2 & F3 & F4).
    apply Inv_store; try assumption.
    exists oi, le, o. repeat (split; [assumption|]).
    rewrite bool_decide_true by exact Em.
    exists lf. repeat split; try assumption.
    apply (frame_None _ _ Hf Hlf).
  - cbv zeta. fold lf. rewrite Hrich.
    destruct (Hfresh (richTextFields o) eq_refl) as (F1 & F2 & F3 & F4).
    apply Inv_store; try assumption.
    exists oi, le, o. repeat (split; [assumption|]).
    rewrite bool_decide_false by exact Em.
    rewrite bool_decide_true by exact Er.
    exists lf. repeat split; try assumption.
    apply (frame_None _ _ Hf Hlf).
  - apply Inv_store; try assumption.
    + apply frame_strip; [exact Hf|].
      exists key, (ownProp o "type"). simpl. rewrite Hli, Hle. simpl.
      rewrite Hv. auto.
    + apply lookup_alter_ne. exact Hlale.
    + intros l Hl0 _ _. apply lookup_alter_ne. congruence.
    + exists oi, le, o. repeat (split; [assumption|]).
      rewrite bool_decide_false by exact Em.
      rewrite bool_decide_false by exact Er. reflexivity.
Qed.

(** The whole reduce. *)
Lemma reduce_addElement keys : forall done w,
  Inv h0 li la c0 done w ->
  (forall key, key ∈ keys -> elementKey h0 (VRef li) key = true) ->
  match reduceM (addElement (VRef li)) keys (VRef la) w with
  | Returns r w' => r = VRef la /\ Inv h0 li la c0 (done ++ keys) w'
  | Throws _ w' => calls w' = c0 /\ frame h0 li (heap w')
  end.
Proof.
  induction keys as [|key keys IH]; intros done w HInv Hkeys.
  - simpl. rewrite app_nil_r. auto.
  - simpl. unfold mbind, M_bind.
    pose proof (addElement_step done w key HInv) as Hstep.
    destruct (addElement (VRef li) (VRef la) key w) as [r w1|e w1].
    + destruct Hstep as [-> HInv1]; [apply Hkeys; left|].
      specialize (IH (done ++ [key]) w1 HInv1).
      rewrite <- app_assoc in IH. apply IH.
      intros k Hk. apply Hkeys. right. exact Hk.
    + apply Hstep, Hkeys. left.
Qed.

(** A new object changes nothing the invariant speaks of. *)
Lemma Inv_alloc done w l o :
  Inv h0 li la c0 done w -> heap w !! l = None ->
  Inv h0 li la c0 done {| heap := <[l := o]> (heap w); calls := calls w |}.
Proof.
  intros (Hc & Hf & acc & Hacc & Hfields & Hdone & Hnd) Hl.
  assert (Hother : forall l', is_Some (heap w !! l') ->
            <[l := o]> (heap w) !! l' = heap w !! l').
  { intros l' [? ?]. apply lookup_insert_ne. congruence. }
  split; [exact Hc|]. split; [|exists acc; split; [|split; [|split]]]; simpl.
  - apply (frame_outside (heap w)); [exact Hf|].
    intros l' Hl'. apply Hother, (frame_is_Some _ _ Hf), Hl'.
  - rewrite Hother by eauto. exact Hacc.
  - intros f v Hv. destruct (Hfields f v Hv) as (key & Hin & Hfk & Hb).
    exists key. repeat (split; [assumption|]).
    apply (built_stable (heap w)); [exact Hb|].
    intros l' _ _ Hl'. apply Hother, Hl'.
  - exact Hdone.
  - exact Hnd.
Qed.

End Reduce.

(** ** [createItemNode], from entry to outcome *)

Lemma bind_run {A B} (m : M A) (f : A -> M B) w :
  (m ≫= f) w =
    match m w with
    | Returns a w' => f a w'
    | Throws e w' => Throws e w'
    end.
Proof. reflexivity. Qed.

(** What [createItemNode] leaves behind, and what it returns: the callers
    below read the facts they need off this lemma. *)
Lemma createItemNode_outcome d n li w :
  let h0 := heap w in
  let la := fresh (dom h0) in
  match createItemNode d n (VRef li) w with
  | Throws _ w' => calls w' = calls w /\ frame h0 li (heap w')
  | Returns node w' =>
      Inv h0 li la (calls w) (elementKeys h0 li) w' /\
      exists ln sysv nd idValue type,
        h0 !! ln = None /\ ln <> la /\
        (is_Some (h0 !! li) -> readProp h0 (VRef li) "system" = Ok sysv) /\
        heap w' !! ln = Some (OObject [("system", sysv); ("elements", VRef la)]) /\
        JSON_roundtrip (heap w') (VRef ln) = Ok (Some (JObject nd)) /\
        getNodeIdValue (JObject nd) = Ok idValue /\
        (jsonProp (Some (JObject nd)) "system" ≫= fun s => jsonProp s "type")
          = Ok type /\
        node = nodeOf d n nd idValue type
  end.
Proof.
  intros h0 la.
  assert (Hla : h0 !! la = None) by apply not_elem_of_dom, is_fresh.
  unfold createItemNode.
  rewrite bind_run. cbn [Object_keys reading]. cbv beta iota.
  rewrite bind_run, filterM_hasType.
  rewrite bind_run. cbn [alloc]. cbv zeta.
  rewrite bind_run. fold h0. fold la. fold (elementKeys h0 li).
  set (wa := {| heap := <[la := OObject []]> h0; calls := calls w |}).
  assert (HInv0 : Inv h0 li la (calls w) [] wa).
  { split; [reflexivity|]. split; [|exists []; split; [|split; [|split]]].
    - apply (frame_outside h0 li h0); [apply frame_refl|].
      intros l [o Ho]. apply lookup_insert_ne. congruence.
    - apply lookup_insert_eq.
    - intros f v [=].
    - intros key Hin. apply elem_of_nil in Hin. contradiction.
    - constructor. }
  pose proof (reduce_addElement h0 li la (calls w) Hla (elementKeys h0 li) [] wa HInv0)
    as Hloop.
  destruct (reduceM (addElement (VRef li)) (elementKeys h0 li) (VRef la) wa)
    as [r w1|e w1].
  2:{ apply Hloop. intros key Hin.
      apply list_elem_of_filter in Hin as [Hin _]. apply Is_true_true, Hin. }
  destruct Hloop as [-> HInv1].
  { intros key Hin.
    apply list_elem_of_filter in Hin as [Hin _]. apply Is_true_true, Hin. }
  simpl in HInv1.
  rewrite bind_run. unfold getProp at 1. cbn [reading readProp].
  rewrite bind_run. cbn [alloc]. cbv zeta.
  set (sysv := from_option (fun o => ownProp o "system") VUndefined (heap w1 !! li)).
  set (ln := fresh (dom (heap w1))).
  assert (Hln : heap w1 !! ln = None) by apply not_elem_of_dom, is_fresh.
  set (w2 := {| heap := <[ln := OObject [("system", sysv); ("elements", VRef la)]]> (heap w1);
                calls := calls w1 |}).
  assert (HInv2 : Inv h0 li la (calls w) (elementKeys h0 li) w2)
    by (apply (Inv_alloc h0 li la (calls w) Hla _ w1); assumption).
  pose proof HInv2 as (Hc2 & Hf2 & _).
  rewrite bind_run. unfold reading at 1. cbv beta.
  destruct (JSON_roundtrip (heap w2) (VRef ln)) as [parsed|e] eqn:Hparsed;
    [|cbv beta iota; split; assumption].
  destruct parsed as [[| | | | |nd]|]; try (cbv beta iota; split; assumption).
  rewrite bind_run. unfold ofResult at 1, reading at 1. cbv beta.
  destruct (getNodeIdValue (JObject nd)) as [idValue|e] eqn:Hid;
    [|cbv beta iota; split; assumption].
  rewrite bind_run. unfold ofResult at 1, reading at 1. cbv beta.
  destruct (jsonProp (Some (JObject nd)) "system") as [jsys|e] eqn:Hsys;
    [|cbv beta iota; split; assumption].
  rewrite bind_run. unfold ofResult at 1, reading at 1. cbv beta.
  destruct (jsonProp jsys "type") as [type|e] eqn:Htype;
    [|cbv beta iota; split; assumption].
  cbv beta iota. split; [exact HInv2|].
  exists ln, sysv, nd, idValue, type.
  destruct HInv1 as (_ & Hf1 & acc1 & Hacc1 & _).
  split; [apply (frame_None h0 li _ _ Hf1 Hln)|].
  split; [congruence|].
  split.
  { intros [oi Hoi]. simpl. fold h0. rewrite Hoi. simpl. subst sysv.
    destruct (frame_read h0 li _ _ _ Hf1 Hoi) as (oi' & -> & Hsame & _).
    simpl. rewrite Hsame by discriminate. reflexivity. }
  split; [apply lookup_insert_eq|].
  split; [exact Hparsed|].
  split; [exact Hid|].
  split; [rewrite Hsys; exact Htype | reflexivity].
Qed.

(** The node [createItemNode] returns, field by field. [jsys] is the plain
    copy of [item.system] and [jacc] the plain copy of the properties of
    [elements], both taken from the store the call leaves behind. *)
Lemma createItemNode_shape d n li w node w' :
  createItemNode d n (VRef li) w = Returns node w' ->
  let h0 := heap w in
  let la := fresh (dom h0) in
  calls w' = calls w /\ frame h0 li (heap w') /\
  exists ln sysv acc fuel jsys jacc idValue type,
    h0 !! la = None /\ h0 !! ln = None /\ ln <> la /\
    (is_Some (h0 !! li) -> readProp h0 (VRef li) "system" = Ok sysv) /\
    heap w' !! la = Some (OObject acc) /\
    (forall f v, prop acc f = Some v ->
       exists key, key ∈ elementKeys h0 li /\ getGraphFieldName key = f /\
                   built h0 li la (heap w') key v) /\
    (forall key, key ∈ elementKeys h0 li ->
       is_Some (prop acc (getGraphFieldName key))) /\
    plain (S fuel) (heap w') [ln] sysv = Ok (Some jsys) /\
    plainProps (plain fuel (heap w') [la; ln]) acc = Ok jacc /\
    getNodeIdValue (JObject [("system", jsys); ("elements", JObject jacc)])
      = Ok idValue /\
    jsonProp (Some jsys) "type" = Ok type /\
    heap w' !! ln = Some (OObject [("system", sysv); ("elements", VRef la)]) /\
    JSON_roundtrip (heap w') (VRef ln)
      = Ok (Some (JObject [("system", jsys); ("elements", JObject jacc)])) /\
    node =
      JObject
        [("system", jsys);
         ("elements", JObject jacc);
         ("id", JString (n idValue));
         ("parent", JNull);
         ("children", JArray []);
         ("internal",
           JObject
             [("type", JString (getGraphTypeName (caseArg type)));
              ("mediaType", JString "text/html");
              ("contentDigest",
                JString (d (JObject [("system", jsys);
                                     ("elements", JObject jacc)])))])].
Proof.
  intros Hrun h0 la.
  pose proof (createItemNode_outcome d n li w) as Hout.
  rewrite Hrun in Hout. fold h0 la in Hout.
  destruct Hout as [(Hc & Hf & acc & Hacc & Hfields & Hdone & _)
                    (ln & sysv & nd & idValue & type & Hln0 & Hlnla & Hsys
                       & Hln & Hparsed & Hid & Htype & ->)].
  split; [exact Hc|]. split; [exact Hf|].
  pose proof Hparsed as Hroundtrip.
  apply plain_Ok in Hparsed as [_ Hparsed]. rewrite Hln in Hparsed.
  destruct Hparsed as (n0 & jps & [= <-] & Hprops & [= ->]).
  cbn [plainProps] in Hprops.
  apply bind_Ok in Hprops as (js & Hjs & Hprops).
  apply bind_Ok in Hprops as (rest & Hrest & [= <-]).
  apply bind_Ok in Hrest as (je & Hje & [= <-]).
  pose proof Hje as Hje'.
  apply plain_Ok in Hje' as [_ Hje']. rewrite Hacc in Hje'.
  destruct Hje' as (n1 & jacc & Hn1 & Hjacc & ->).
  destruct js as [jsys|]; [|discriminate Hid].
  exists ln, sysv, acc, n1, jsys, jacc, idValue, type.
  assert (Hla : h0 !! la = None) by apply not_elem_of_dom, is_fresh.
  rewrite <- Hn1.
  repeat match goal with |- _ /\ _ => split; [assumption|] end.
  reflexivity.
Qed.

(** ** Reading the emitted node *)

Lemma frame_read_object h0 li h l ps :
  frame h0 li h -> h0 !! l = Some (OObject ps) ->
  exists ps', h !! l = Some (OObject ps') /\
    forall k, k <> "rawData" -> prop ps' k = prop ps k.
Proof.
  intros Hf Hl. destruct (Hf l _ Hl) as [H|[H _]].
  - exists ps. split; [exact H | reflexivity].
  - eexists. split; [exact H|]. intros k Hk. rewrite prop_filter_key.
    apply String.eqb_neq in Hk. rewrite Hk. reflexivity.
Qed.

Lemma frame_read_array h0 li h l es :
  frame h0 li h -> h0 !! l = Some (OArray es) -> h !! l = Some (OArray es).
Proof. intros Hf Hl. destruct (Hf l _ Hl) as [H|[H _]]; exact H. Qed.

Lemma plainProps_lookup f ps jps k v :
  plainProps f ps = Ok jps -> prop ps k = Some v ->
  exists r, f v = Ok r /\ forall x, r = Some x -> prop jps k = Some x.
Proof.
  revert jps. induction ps as [|[k' v'] ps IH]; intros jps; simpl; [discriminate|].
  intros (j & Hj & (js & Hjs & [= <-])%bind_Ok)%bind_Ok.
  destruct (String.eqb k' k) eqn:Ek.
  - intros [= ->]. exists j. split; [exact Hj|].
    intros x ->. simpl. rewrite Ek. reflexivity.
  - intros Hk. destruct (IH js Hjs Hk) as (r & Hr & Hx).
    exists r. split; [exact Hr|]. intros x Hrx.
    destruct j; simpl; [rewrite Ek|]; apply Hx, Hrx.
Qed.

Lemma plainProps_cons f k v ps jps :
  plainProps f ((k, v) :: ps) = Ok jps ->
  exists j js, f v = Ok j /\ plainProps f ps = Ok js /\
    jps = match j with Some x => (k, x) :: js | None => js end.
Proof.
  simpl. intros (j & Hj & (js & Hjs & [= <-])%bind_Ok)%bind_Ok. eauto.
Qed.

(** A string and an array of strings copy to themselves. *)
Lemma plain_string fuel h seen s r :
  plain fuel h seen (VString s) = Ok r -> r = Some (JString s).
Proof. apply plain_Ok. Qed.

Lemma plain_undefined fuel h seen r :
  plain fuel h seen VUndefined = Ok r -> r = None.
Proof. apply plain_Ok. Qed.

Lemma plain_strings fuel h seen l ss r :
  h !! l = Some (OArray (map VString ss)) ->
  plain fuel h seen (VRef l) = Ok r ->
  r = Some (JArray (map JString ss)).
Proof.
  intros Hl Hr. apply plain_Ok in Hr as [_ Hr]. rewrite Hl in Hr.
  destruct Hr as (n & js & _ & Hjs & ->). do 2 f_equal.
  clear Hl. revert js Hjs. induction ss as [|s ss IH]; intros js; simpl.
  - intros [= <-]. reflexivity.
  - intros (j & Hj%plain_string & (js' & Hjs' & [= <-])%bind_Ok)%bind_Ok.
    subst j. simpl. f_equal. apply IH, Hjs'.
Qed.

(** Where the item is an object whose key [k] holds a [rich_text] element
    and no other key of the item has the field name of [k], the emitted
    [elements] has, under that field name, the plain copy of the object
    the callback builds from the element. *)
Lemma richText_emitted d n li w node w' ips k le eps :
  heap w !! li = Some (OObject ips) ->
  prop ips k = Some (VRef le) ->
  heap w !! le = Some (OObject eps) ->
  prop eps "type" = Some (VString "rich_text") ->
  (forall k', k' ∈ map fst ips ->
     getGraphFieldName k' = getGraphFieldName k -> k' = k) ->
  createItemNode d n (VRef li) w = Returns node w' ->
  exists jacc jel fuel seen,
    jprop node "elements" = Some (JObject jacc) /\
    prop jacc (getGraphFieldName k) = Some (JObject jel) /\
    frame (heap w) li (heap w') /\
    plainProps (plain fuel (heap w') seen)
      [("images", default VUndefined (prop eps "images"));
       ("linkedItems", default VUndefined (prop eps "linkedItemCodenames"));
       ("links", default VUndefined (prop eps "links"));
       ("name", default VUndefined (prop eps "name"));
       ("type", default VUndefined (prop eps "type"));
       ("value", default VUndefined (prop eps "value"))] = Ok jel.
Proof.
  intros Hli Hk Hle Htype Huniq Hrun.
  destruct (createItemNode_shape d n li w node w' Hrun)
    as (_ & Hf & ln & sysv & acc & fuel & jsys & jacc & idValue & type
        & Hla & Hln & Hlnla & _ & Hacc & Hfields & Hdone & _ & Hjacc & _ & _ & _ & _ & ->).
  assert (Hkeys : k ∈ elementKeys (heap w) li).
  { apply list_elem_of_filter. split.
    - apply Is_true_true. unfold elementKey. simpl.
      rewrite Hli. simpl. rewrite Hk. simpl. rewrite Hle. simpl.
      rewrite Htype. reflexivity.
    - rewrite Hli. simpl. apply prop_Some_elem in Hk.
      apply (list_elem_of_fmap_2 fst) in Hk. exact Hk. }
  destruct (Hdone k Hkeys) as [v Hv].
  destruct (Hfields _ v Hv) as (key & Hkey & Hfield & Hbuilt).
  assert (key = k) as ->.
  { apply Huniq; [|exact Hfield].
    apply list_elem_of_filter in Hkey as [_ Hkey].
    rewrite Hli in Hkey. exact Hkey. }
  destruct Hbuilt as (oi & le' & o & Hli' & Hk' & Hle' & _ & Hb).
  rewrite Hli in Hli'. injection Hli' as <-.
  simpl in Hk'. rewrite Hk in Hk'. injection Hk' as <-.
  rewrite Hle in Hle'. injection Hle' as <-.
  cbn [ownProp] in Hb. rewrite Htype in Hb. cbn [default] in Hb.
  rewrite bool_decide_false in Hb by discriminate.
  rewrite bool_decide_true in Hb by reflexivity.
  destruct Hb as (l & -> & _ & _ & Hl).
  unfold richTextFields in Hl. cbn [ownProp] in Hl.
  destruct (plainProps_lookup _ _ _ _ _ Hjacc Hv) as (r & Hr & Hx).
  apply plain_Ok in Hr as [_ Hr]. rewrite Hl in Hr.
  destruct Hr as (n' & jel & _ & Hjel & ->).
  exists jacc, jel, n', [l; fresh (dom (heap w)); ln].
  split; [reflexivity|]. split; [apply Hx; reflexivity|].
  split; [exact Hf | exact Hjel].
Qed.

(** ** Identity (C1) *)

(** C1: for an item whose system record holds the type codename [t] and the
    item id [i], the node id is the host's id for
    [paramCase(t) + "-" + i]. The key handed to the host is determined by
    [t] and [i] alone: nothing else of the item, of the store or of the host
    functions enters it. *)
Theorem createItemNode_identity d n li w node w' ips ls sps t i :
  heap w !! li = Some (OObject ips) ->
  prop ips "system" = Some (VRef ls) ->
  heap w !! ls = Some (OObject sps) ->
  prop sps "type" = Some (VString t) ->
  prop sps "id" = Some (VString i) ->
  createItemNode d n (VRef li) w = Returns node w' ->
  jprop node "id" = Some (JString (n (ChangeCase.paramCase t +:+ "-" +:+ i))).
Proof.
  intros Hli Hsys Hls Ht Hi Hrun.
  destruct (createItemNode_shape d n li w node w' Hrun)
    as (_ & Hf & ln & sysv & acc & fuel & jsys & jacc & idValue & type
        & _ & _ & _ & Hsysv & _ & _ & _ & Hjsys & _ & Hid & _ & _ & _ & ->).
  simpl. do 3 f_equal.
  specialize (Hsysv (ex_intro _ _ Hli)). simpl in Hsysv.
  rewrite Hli in Hsysv. simpl in Hsysv. rewrite Hsys in Hsysv.
  injection Hsysv as <-.
  destruct (frame_read_object _ _ _ _ _ Hf Hls) as (sps' & Hls' & Hsame).
  apply plain_Ok in Hjsys as [_ Hjsys]. rewrite Hls' in Hjsys.
  destruct Hjsys as (n' & jps & [= <-] & Hjps & [= ->]).
  assert (Hcopy : forall k s, k <> "rawData" -> prop sps k = Some (VString s) ->
            prop jps k = Some (JString s)).
  { intros k s Hk Hks. rewrite <- Hsame in Hks by exact Hk.
    destruct (plainProps_lookup _ _ _ _ _ Hjps Hks) as (r & Hr & Hx).
    apply Hx. apply plain_string in Hr. exact Hr. }
  unfold getNodeIdValue in Hid. simpl in Hid.
  rewrite (Hcopy "type" t) in Hid by (discriminate || assumption).
  rewrite (Hcopy "id" i) in Hid by (discriminate || assumption).
  simpl in Hid. injection Hid as <-. reflexivity.
Qed.

(** C1 on the sample item: type [blog_post], id [i1]. *)
Lemma createItemNode_identity_witness :
  exists node w',
    createItemNode sampleDigest sampleNodeId (VRef 1%positive) sampleWorld
      = Returns node w' /\
    jprop node "id" = Some (JString "id:blog-post-i1").
Proof.
  destruct (createItemNode sampleDigest sampleNodeId (VRef 1%positive) sampleWorld)
    as [node w'|e w'] eqn:Hrun; [|vm_compute in Hrun; discriminate Hrun].
  exists node, w'. split; [reflexivity|].
  exact (createItemNode_identity sampleDigest sampleNodeId 1%positive sampleWorld
           node w' _ 2%positive _ "blog_post" "i1"
           eq_refl eq_refl eq_refl eq_refl eq_refl Hrun).
Defined.

(** ** Rich text elements (C4) *)

Lemma plain_object n h seen l ps :
  l ∉ seen -> h !! l = Some (OObject ps) ->
  plain (S n) h seen (VRef l) =
    plainProps (plain n h (l :: seen)) ps ≫= fun jps => Ok (Some (JObject jps)).
Proof.
  intros Hseen Hl. simpl. rewrite decide_False by exact Hseen.
  rewrite Hl. reflexivity.
Qed.

Lemma plain_array n h seen l es :
  l ∉ seen -> h !! l = Some (OArray es) ->
  plain (S n) h seen (VRef l) =
    plainElems (plain n h (l :: seen)) es ≫= fun js => Ok (Some (JArray js)).
Proof.
  intros Hseen Hl. simpl. rewrite decide_False by exact Hseen.
  rewrite Hl. reflexivity.
Qed.

(** The callback on such an element: the field value is a new object of
    exactly six properties. *)
Lemma addElement_richText li la k w ips le eps acc name limg llinks lcodes :
  heap w !! li = Some (OObject ips) ->
  prop ips k = Some (VRef le) ->
  heap w !! le = Some (OObject eps) ->
  prop eps "type" = Some (VString "rich_text") ->
  prop eps "name" = Some (VString name) ->
  prop eps "value" = Some (VString "<p>hi</p>") ->
  prop eps "images" = Some (VRef limg) ->
  heap w !! limg = Some (OArray []) ->
  prop eps "links" = Some (VRef llinks) ->
  heap w !! llinks = Some (OArray []) ->
  prop eps "linkedItemCodenames" = Some (VRef lcodes) ->
  heap w !! lcodes = Some (OArray [VString "c1"]) ->
  heap w !! la = Some (OObject acc) ->
  exists l w',
    addElement (VRef li) (VRef la) k w = Returns (VRef la) w' /\
    heap w' !! la
      = Some (OObject (assign acc (getGraphFieldName k) (VRef l))) /\
    JSON_roundtrip (heap w') (VRef l)
      = Ok (Some (JObject [("images", JArray []);
                           ("linkedItems", JArray [JString "c1"]);
                           ("links", JArray []);
                           ("name", JString name);
                           ("type", JString "rich_text");
                           ("value", JString "<p>hi</p>")])).
Proof.
  intros Hli Hk Hle Htype Hname Hvalue Himg Hlimg Hlinks Hllinks Hcodes Hlcodes Hla.
  assert (Hv : ownProp (OObject ips) k = VRef le) by (simpl; rewrite Hk; reflexivity).
  rewrite (addElement_run li la k w _ le _ Hli Hv Hle).
  cbn [ownProp]. rewrite Htype. cbn [default from_option id].
  rewrite bool_decide_false by discriminate.
  rewrite bool_decide_true by reflexivity. cbv zeta.
  set (lf := fresh (dom (heap w))).
  assert (Hlf : heap w !! lf = None) by apply not_elem_of_dom, is_fresh.
  unfold richTextFields. cbn [ownProp].
  rewrite Htype, Hname, Hvalue, Himg, Hlinks, Hcodes. cbn [default from_option id].
  eexists lf, _. split; [reflexivity|]. cbn [heap].
  set (h' := storeElement _ _ _ _).
  assert (Hother : forall l, l <> lf -> l <> la -> h' !! l = heap w !! l).
  { intros l H1 H2. unfold h', storeElement.
    rewrite !lookup_alter_ne, lookup_insert_ne by congruence. reflexivity. }
  assert (Hlfla : lf <> la) by congruence.
  split.
  { unfold h', storeElement. rewrite lookup_alter_eq, lookup_alter_ne by congruence.
    rewrite lookup_insert_ne, Hla by congruence. reflexivity. }
  assert (Hnew : h' !! lf = Some (OObject
            [("images", VRef limg); ("linkedItems", VRef lcodes);
             ("links", VRef llinks); ("name", VString name);
             ("type", VString "rich_text"); ("value", VString "<p>hi</p>")])).
  { unfold h', storeElement. rewrite lookup_alter_ne by congruence.
    rewrite lookup_alter_eq, lookup_insert_eq. reflexivity. }
  assert (Harr : forall l es, heap w !! l = Some (OArray es) -> h' !! l = Some (OArray es) /\ l <> lf).
  { intros l es Hl. split; [|congruence]. rewrite Hother by congruence. exact Hl. }
  destruct (Harr _ _ Hlimg) as [Hlimg' Hn1].
  destruct (Harr _ _ Hllinks) as [Hllinks' Hn2].
  destruct (Harr _ _ Hlcodes) as [Hlcodes' Hn3].
  assert (Hsize : 2 <= size h').
  { apply (seen_bound h' [lf; lcodes]).
    - constructor; [|constructor; [apply not_elem_of_nil | constructor]].
      intros [?|H]%elem_of_cons; [congruence | apply elem_of_nil in H; exact H].
    - intros l [->|[->|H]%elem_of_cons]%elem_of_cons; eauto.
      apply elem_of_nil in H. contradiction. }
  unfold JSON_roundtrip.
  destruct (size h') as [|[|m]]; [lia | lia |].
  assert (Hin : forall l : loc, l <> lf -> l ∉ [lf]).
  { intros l Hl [?|H]%elem_of_cons; [congruence | apply elem_of_nil in H; exact H]. }
  rewrite (plain_object _ _ _ _ _ (not_elem_of_nil _) Hnew).
  cbn [plainProps].
  rewrite (plain_array _ _ _ _ _ (Hin _ Hn1) Hlimg').
  rewrite (plain_array _ _ _ _ _ (Hin _ Hn2) Hllinks').
  rewrite (plain_array _ _ _ _ _ (Hin _ Hn3) Hlcodes').
  reflexivity.
Qed.

(** The same in the node, where the key is the only key of the item with
    its field name. *)
Lemma richText_in_node d n li w node w' ips k le eps name limg llinks lcodes :
  heap w !! li = Some (OObject ips) ->
  prop ips k = Some (VRef le) ->
  heap w !! le = Some (OObject eps) ->
  prop eps "type" = Some (VString "rich_text") ->
  prop eps "name" = Some (VString name) ->
  prop eps "value" = Some (VString "<p>hi</p>") ->
  prop eps "images" = Some (VRef limg) ->
  heap w !! limg = Some (OArray []) ->
  prop eps "links" = Some (VRef llinks) ->
  heap w !! llinks = Some (OArray []) ->
  prop eps "linkedItemCodenames" = Some (VRef lcodes) ->
  heap w !! lcodes = Some (OArray [VString "c1"]) ->
  (forall k', k' ∈ map fst ips ->
     getGraphFieldName k' = getGraphFieldName k -> k' = k) ->
  createItemNode d n (VRef li) w = Returns node w' ->
  exists elements,
    jprop node "elements" = Some elements /\
    jprop elements (getGraphFieldName k) =
      Some (JObject [("images", JArray []);
                     ("linkedItems", JArray [JString "c1"]);
                     ("links", JArray []);
                     ("name", JString name);
                     ("type", JString "rich_text");
                     ("value", JString "<p>hi</p>")]).
Proof.
  intros Hli Hk Hle Htype Hname Hvalue Himg Hlimg Hlinks Hllinks Hcodes Hlcodes
         Huniq Hrun.
  destruct (richText_emitted d n li w node w' ips k le eps
              Hli Hk Hle Htype Huniq Hrun)
    as (jacc & jel & fuel & seen & Hels & Hfield & Hf & Hjel).
  exists (JObject jacc). split; [exact Hels|].
  simpl. rewrite Hfield. do 2 f_equal.
  rewrite Htype, Hname, Hvalue, Himg, Hlinks, Hcodes in Hjel.
  cbn [default from_option id] in Hjel.
  apply (frame_read_array _ _ _ _ _ Hf) in Hlimg, Hllinks, Hlcodes.
  apply plainProps_cons in Hjel as (j1 & js1 & H1 & Hjel & ->).
  apply plainProps_cons in Hjel as (j2 & js2 & H2 & Hjel & ->).
  apply plainProps_cons in Hjel as (j3 & js3 & H3 & Hjel & ->).
  apply plainProps_cons in Hjel as (j4 & js4 & H4 & Hjel & ->).
  apply plainProps_cons in Hjel as (j5 & js5 & H5 & Hjel & ->).
  apply plainProps_cons in Hjel as (j6 & js6 & H6 & [= <-] & ->).
  apply (plain_strings _ _ _ _ [] _ Hlimg) in H1.
  apply (plain_strings _ _ _ _ ["c1"] _ Hlcodes) in H2.
  apply (plain_strings _ _ _ _ [] _ Hllinks) in H3.
  apply plain_string in H4, H5, H6.
  subst. reflexivity.
Qed.

(** C4: for an item with a [rich_text] element whose value is
    ["<p>hi</p>"], whose images and links are empty and whose linked item
    codenames are [["c1"]], the callback of the reduce stores, under the
    element's field name, a new object whose plain copy has exactly the
    fields [images: []], [linkedItems: ["c1"]], [links: []], [name], [type:
    "rich_text"] and [value: "<p>hi</p>"]: neither [rawData] nor the
    resolved linked items nor anything else of the element is carried
    over. Where no other key of the item has the same field name, that is
    the entry of the emitted node's [elements]. *)
Theorem richText_normalized :
  (forall li la k w ips le eps acc name limg llinks lcodes,
     heap w !! li = Some (OObject ips) ->
     prop ips k = Some (VRef le) ->
     heap w !! le = Some (OObject eps) ->
     prop eps "type" = Some (VString "rich_text") ->
     prop eps "name" = Some (VString name) ->
     prop eps "value" = Some (VString "<p>hi</p>") ->
     prop eps "images" = Some (VRef limg) ->
     heap w !! limg = Some (OArray []) ->
     prop eps "links" = Some (VRef llinks) ->
     heap w !! llinks = Some (OArray []) ->
     prop eps "linkedItemCodenames" = Some (VRef lcodes) ->
     heap w !! lcodes = Some (OArray [VString "c1"]) ->
     heap w !! la = Some (OObject acc) ->
     exists l w',
       addElement (VRef li) (VRef la) k w = Returns (VRef la) w' /\
       heap w' !! la
         = Some (OObject (assign acc (getGraphFieldName k) (VRef l))) /\
       JSON_roundtrip (heap w') (VRef l)
         = Ok (Some (JObject [("images", JArray []);
                              ("linkedItems", JArray [JString "c1"]);
                              ("links", JArray []);
                              ("name", JString name);
                              ("type", JString "rich_text");
                              ("value", JString "<p>hi</p>")]))) /\
  (forall d n li w node w' ips k le eps name limg llinks lcodes,
     heap w !! li = Some (OObject ips) ->
     prop ips k = Some (VRef le) ->
     heap w !! le = Some (OObject eps) ->
     prop eps "type" = Some (VString "rich_text") ->
     prop eps "name" = Some (VString name) ->
     prop eps "value" = Some (VString "<p>hi</p>") ->
     prop eps "images" = Some (VRef limg) ->
     heap w !! limg = Some (OArray []) ->
     prop eps "links" = Some (VRef llinks) ->
     heap w !! llinks = Some (OArray []) ->
     prop eps "linkedItemCodenames" = Some (VRef lcodes) ->
     heap w !! lcodes = Some (OArray [VString "c1"]) ->
     (forall k', k' ∈ map fst ips ->
        getGraphFieldName k' = getGraphFieldName k -> k' = k) ->
     createItemNode d n (VRef li) w = Returns node w' ->
     exists elements,
       jprop node "elements" = Some elements /\
       jprop elements (getGraphFieldName k) =
         Some (JObject [("images", JArray []);
                        ("linkedItems", JArray [JString "c1"]);
                        ("links", JArray []);
                        ("name", JString name);
                        ("type", JString "rich_text");
                        ("value", JString "<p>hi</p>")])).
Proof.
  split.
  - intros li la k w ips le eps acc name limg llinks lcodes
           Hli Hk Hle Htype Hname Hvalue Himg Hlimg Hlinks Hllinks Hcodes Hlcodes Hla.
    exact (addElement_richText li la k w ips le eps acc name limg llinks lcodes
             Hli Hk Hle Htype Hname Hvalue Himg Hlimg Hlinks Hllinks
             Hcodes Hlcodes Hla).
  - intros d n li w node w' ips k le eps name limg llinks lcodes
           Hli Hk Hle Htype Hname Hvalue Himg Hlimg Hlinks Hllinks Hcodes Hlcodes
           Huniq Hrun.
    exact (richText_in_node d n li w node w' ips k le eps name limg llinks lcodes
             Hli Hk Hle Htype Hname Hvalue Himg Hlimg Hlinks Hllinks
             Hcodes Hlcodes Huniq Hrun).
Qed.

(** C4 on the sample item, whose [body] element also carries [rawData] and
    its resolved linked items: the callback alone, on a store with an empty
    accumulator [9], and the whole call. *)
Lemma richText_normalized_witness :
  (exists l w',
     addElement (VRef 1%positive) (VRef 9%positive) "body"
       {| heap := <[9%positive := OObject []]> sampleHeap; calls := [] |}
       = Returns (VRef 9%positive) w' /\
     heap w' !! 9%positive = Some (OObject [("body", VRef l)]) /\
     JSON_roundtrip (heap w') (VRef l)
       = Ok (Some (JObject [("images", JArray []);
                            ("linkedItems", JArray [JString "c1"]);
                            ("links", JArray []);
                            ("name", JString "Body");
                            ("type", JString "rich_text");
                            ("value", JString "<p>hi</p>")]))) /\
  (exists node w' elements,
     createItemNode sampleDigest sampleNodeId (VRef 1%positive) sampleWorld
       = Returns node w' /\
     jprop node "elements" = Some elements /\
     jprop elements "body" =
       Some (JObject [("images", JArray []);
                      ("linkedItems", JArray [JString "c1"]);
                      ("links", JArray []);
                      ("name", JString "Body");
                      ("type", JString "rich_text");
                      ("value", JString "<p>hi</p>")])).
Proof.
  split.
  - exact (proj1 richText_normalized 1%positive 9%positive "body"
             {| heap := <[9%positive := OObject []]> sampleHeap; calls := [] |}
             _ 4%positive _ [] "Body" 6%positive 6%positive 7%positive
             eq_refl eq_refl eq_refl eq_refl eq_refl eq_refl eq_refl eq_refl
             eq_refl eq_refl eq_refl eq_refl eq_refl).
  - destruct (createItemNode sampleDigest sampleNodeId (VRef 1%positive) sampleWorld)
      as [node w'|e w'] eqn:Hrun; [|vm_compute in Hrun; discriminate Hrun].
    destruct (proj2 richText_normalized sampleDigest sampleNodeId 1%positive
                sampleWorld
                node w' _ "body" 4%positive _ "Body" 6%positive 6%positive 7%positive
                eq_refl eq_refl eq_refl eq_refl eq_refl eq_refl eq_refl eq_refl
                eq_refl eq_refl eq_refl eq_refl)
      as (elements & Hels & Hbody).
    + intros k' Hk' Hfield.
      repeat (apply elem_of_cons in Hk' as [->|Hk'];
              [try reflexivity; discriminate Hfield|]).
      apply elem_of_nil in Hk'. contradiction.
    + exact Hrun.
    + exists node, w', elements. split; [reflexivity|]. split; assumption.
Defined.

(** ** Canonical content (C10) and the fingerprint (C5) *)

(** C10: the node's [system] and [elements] are the two properties of the
    plain copy [JSON.parse(JSON.stringify({system, elements}))] of the
    object [nodeData], which holds [item.system] and the accumulator of the
    reduce; the copy is taken from the store after the reduce, and the id
    and the digest are computed from the copy. Plain data has no
    [undefined]: every property of a copied object comes from a property
    of the source whose value is not [undefined], so a property that is
    [undefined] is absent from the copy, not [null]. In particular a
    [rich_text] element without [linkedItemCodenames] is emitted without
    [linkedItems]. *)
Theorem canonical_content :
  (forall d n li w node w',
     createItemNode d n (VRef li) w = Returns node w' ->
     exists system elements idValue nodeData itemSystem elementsObject,
       heap w' !! nodeData
         = Some (OObject [("system", itemSystem); ("elements", elementsObject)]) /\
       (is_Some (heap w !! li) ->
        readProp (heap w) (VRef li) "system" = Ok itemSystem) /\
       jprop node "system" = Some system /\
       jprop node "elements" = Some elements /\
       JSON_roundtrip (heap w') (VRef nodeData)
         = Ok (Some (JObject [("system", system); ("elements", elements)])) /\
       getNodeIdValue (JObject [("system", system); ("elements", elements)])
         = Ok idValue /\
       jprop node "id" = Some (JString (n idValue)) /\
       contentDigestOf node
         = Some (JString (d (JObject [("system", system);
                                      ("elements", elements)])))) /\
  (forall fuel h seen l ps jps,
     h !! l = Some (OObject ps) ->
     plain fuel h seen (VRef l) = Ok (Some (JObject jps)) ->
     forall k x, prop jps k = Some x ->
       exists v, (k, v) ∈ ps /\ v <> VUndefined) /\
  (forall d n li w node w' ips k le eps,
     heap w !! li = Some (OObject ips) ->
     prop ips k = Some (VRef le) ->
     heap w !! le = Some (OObject eps) ->
     prop eps "type" = Some (VString "rich_text") ->
     prop eps "linkedItemCodenames" = None ->
     (forall k', k' ∈ map fst ips ->
        getGraphFieldName k' = getGraphFieldName k -> k' = k) ->
     createItemNode d n (VRef li) w = Returns node w' ->
     exists elements element,
       jprop node "elements" = Some elements /\
       jprop elements (getGraphFieldName k) = Some element /\
       jprop element "type" = Some (JString "rich_text") /\
       jprop element "linkedItems" = None).
Proof.
  split; [|split].
  - intros d n li w node w' Hrun.
    destruct (createItemNode_shape d n li w node w' Hrun)
      as (_ & _ & ln & sysv & acc & fuel & jsys & jacc & idValue & type
          & _ & _ & _ & Hsys & _ & _ & _ & _ & _ & Hid & _ & Hln & Hround & ->).
    exists jsys, (JObject jacc), idValue, ln, sysv, (VRef (fresh (dom (heap w)))).
    repeat match goal with |- _ /\ _ => split end;
      assumption || reflexivity.
  - intros fuel h seen l ps jps Hl Hplain k x Hk.
    apply plain_Ok in Hplain as [_ Hplain]. rewrite Hl in Hplain.
    destruct Hplain as (n' & jps' & _ & Hjps & [= <-]).
    destruct (plainProps_source _ _ _ _ _ Hjps Hk) as (v & Hin & Hv).
    exists v. split; [exact Hin|]. intros ->.
    apply plain_undefined in Hv. discriminate Hv.
  - intros d n li w node w' ips k le eps Hli Hk Hle Htype Hnone Huniq Hrun.
    destruct (richText_emitted d n li w node w' ips k le eps
                Hli Hk Hle Htype Huniq Hrun)
      as (jacc & jel & fuel & seen & Hels & Hfield & _ & Hjel).
    exists (JObject jacc), (JObject jel).
    split; [exact Hels|]. split; [exact Hfield|]. split.
    + rewrite Htype in Hjel. simpl.
      assert (Ht : prop [("images", default VUndefined (prop eps "images"));
                         ("linkedItems",
                           default VUndefined (prop eps "linkedItemCodenames"));
                         ("links", default VUndefined (prop eps "links"));
                         ("name", default VUndefined (prop eps "name"));
                         ("type", default VUndefined (Some (VString "rich_text")));
                         ("value", default VUndefined (prop eps "value"))] "type"
                   = Some (VString "rich_text")) by reflexivity.
      destruct (plainProps_lookup _ _ _ _ _ Hjel Ht) as (r & Hr & Hx).
      apply Hx. apply plain_string in Hr. exact Hr.
    + simpl. destruct (prop jel "linkedItems") as [x|] eqn:Hx; [|reflexivity].
      destruct (plainProps_source _ _ _ _ _ Hjel Hx) as (v & Hin & Hv).
      rewrite Hnone in Hin.
      repeat (apply elem_of_cons in Hin as [Hin|Hin];
              [try discriminate Hin|]).
      * injection Hin as ->. apply plain_undefined in Hv. discriminate Hv.
      * apply elem_of_nil in Hin. contradiction.
Qed.

(** C10 there: the [body] element of the node has no [linkedItems]. *)
Lemma canonical_content_witness :
  exists node w' elements element,
    createItemNode sampleDigest sampleNodeId (VRef 1%positive)
      {| heap := sampleHeapNoCodenames; calls := [] |} = Returns node w' /\
    jprop node "elements" = Some elements /\
    jprop elements "body" = Some element /\
    jprop element "type" = Some (JString "rich_text") /\
    jprop element "linkedItems" = None.
Proof.
  destruct (createItemNode sampleDigest sampleNodeId (VRef 1%positive)
              {| heap := sampleHeapNoCodenames; calls := [] |})
    as [node w'|e w'] eqn:Hrun; [|vm_compute in Hrun; discriminate Hrun].
  destruct (proj2 (proj2 canonical_content) sampleDigest sampleNodeId 1%positive
              {| heap := sampleHeapNoCodenames; calls := [] |}
              node w' _ "body" 4%positive _
              eq_refl eq_refl eq_refl eq_refl eq_refl)
    as (elements & element & H).
  - intros k' Hk' Hfield.
    repeat (apply elem_of_cons in Hk' as [->|Hk']; [try reflexivity; discriminate Hfield|]).
    apply elem_of_nil in Hk'. contradiction.
  - exact Hrun.
  - exists node, w', elements, element. split; [reflexivity | exact H].
Defined.

(** The host functions enter the node and nothing else: two calls that
    differ only in them leave the same store, fail alike, and return nodes
    with the same [system] and [elements]. *)
Lemma createItemNode_hosts d d' n n' item w :
  match createItemNode d n item w, createItemNode d' n' item w with
  | Returns node w1, Returns node' w2 =>
      w1 = w2 /\
      exists nodeData idValue type,
        node = nodeOf d n nodeData idValue type /\
        node' = nodeOf d' n' nodeData idValue type
  | Throws e1 w1, Throws e2 w2 => e1 = e2 /\ w1 = w2
  | _, _ => False
  end.
Proof.
  unfold createItemNode. rewrite !bind_run.
  destruct (Object_keys item w) as [keys w1|]; [|auto].
  rewrite !bind_run.
  destruct (filterM (hasType item) keys w1) as [eks w2|]; [|auto].
  rewrite !bind_run.
  destruct (alloc (OObject []) w2) as [acc w3|]; [|auto].
  rewrite !bind_run.
  destruct (reduceM (addElement item) eks acc w3) as [elements w4|]; [|auto].
  rewrite !bind_run.
  destruct (getProp item "system" w4) as [system w5|]; [|auto].
  rewrite !bind_run.
  destruct (alloc _ w5) as [nodeData w6|]; [|auto].
  rewrite !bind_run.
  destruct (reading _ w6) as [parsed w7|]; [|auto].
  destruct parsed as [[| | | | |nd]|]; try solve [simpl; auto].
  rewrite !bind_run.
  destruct (ofResult (getNodeIdValue (JObject nd)) w7) as [idValue w8|]; [|auto].
  rewrite !bind_run.
  destruct (ofResult (jsonProp (Some (JObject nd)) "system") w8) as [sys w9|];
    [|auto].
  rewrite !bind_run.
  destruct (ofResult (jsonProp sys "type") w9) as [type w10|]; [|auto].
  simpl. split; [reflexivity|]. exists nd, idValue, type. split; reflexivity.
Qed.

Lemma nodeOf_content d n nodeData idValue type :
  jprop (nodeOf d n nodeData idValue type) "system"
    = prop (assignAll [] nodeData) "system" /\
  jprop (nodeOf d n nodeData idValue type) "elements"
    = prop (assignAll [] nodeData) "elements" /\
  contentDigestOf (nodeOf d n nodeData idValue type)
    = Some (JString (d (JObject nodeData))).
Proof.
  unfold contentDigestOf, nodeOf, nodeMetaOf.
  set (copy := assignAll [] nodeData).
  unfold assignAll. cbn [fold_left jprop fst snd].
  rewrite !prop_assign. repeat split; reflexivity.
Qed.



(** ** The elements mapping (C7) *)

(** The system record of an item has a [type], the codename of the content
    type, so the filter takes the key [system] for an element key: whenever
    that [type] is truthy, the emitted [elements] has a [system] entry. *)
Lemma system_among_elements d n li w node w' ips ls os :
  heap w !! li = Some (OObject ips) ->
  prop ips "system" = Some (VRef ls) ->
  heap w !! ls = Some os ->
  truthy (ownProp os "type") = true ->
  createItemNode d n (VRef li) w = Returns node w' ->
  exists elements, jprop node "elements" = Some elements /\
                   is_Some (jprop elements "system").
Proof.
  intros Hli Hsys Hls Ht Hrun.
  destruct (createItemNode_shape d n li w node w' Hrun)
    as (_ & Hf & ln & sysv & acc & fuel & jsys & jacc & idValue & type
        & Hla & Hln & Hlnla & _ & Hacc & Hfields & Hdone & _ & Hjacc & _ & _ & _ & _ & ->).
  exists (JObject jacc). split; [reflexivity|]. simpl.
  assert (Hkeys : "system" ∈ elementKeys (heap w) li).
  { apply list_elem_of_filter. split.
    - apply Is_true_true. unfold elementKey. simpl.
      rewrite Hli. simpl. rewrite Hsys. simpl. rewrite Hls. simpl. exact Ht.
    - rewrite Hli. simpl. apply prop_Some_elem in Hsys.
      apply (list_elem_of_fmap_2 fst) in Hsys. exact Hsys. }
  destruct (Hdone _ Hkeys) as [v Hv].
  change (getGraphFieldName "system") with "system" in Hv.
  destruct (plainProps_lookup _ _ _ _ _ Hjacc Hv) as (r & Hr & Hx).
  destruct (Hfields _ v Hv) as (key & _ & _ & oi & le & o & _ & _ & Hle & _ & Hb).
  assert (Hobj : exists l, v = VRef l /\ is_Some (heap w' !! l)).
  { repeat case_bool_decide.
    - destruct Hb as (l & -> & _ & _ & Hl). eauto.
    - destruct Hb as (l & -> & _ & _ & Hl). eauto.
    - subst v. exists le. split; [reflexivity|].
      apply (frame_is_Some _ _ _ _ Hf). eauto. }
  destruct Hobj as (l & -> & [o' Hl]).
  apply plain_Ok in Hr as [_ Hr]. rewrite Hl in Hr.
  destruct o' as [ps|es|iso].
  - destruct Hr as (? & ? & _ & _ & ->). rewrite (Hx _ eq_refl). eauto.
  - destruct Hr as (? & ? & _ & _ & ->). rewrite (Hx _ eq_refl). eauto.
  - rewrite (Hx _ Hr). eauto.
Qed.

(** C7 fails on the sample item: its properties with an element kind are
    [title] and [body], and the [elements] of its node has the three keys
    [system], [title] and [body]; the [system] entry is the system record
    once more. *)
Theorem elements_hold_system :
  (fun node =>
     (jkeys <$> jprop node "elements",
      jprop node "elements" ≫= fun elements => jprop elements "system"))
    <$> returned (createItemNode sampleDigest sampleNodeId (VRef 1%positive)
                    sampleWorld)
  = Some (Some ["system"; "title"; "body"],
          Some (JObject [("codename", JString "first_post");
                         ("id", JString "i1");
                         ("type", JString "blog_post")])).
Proof. vm_compute. reflexivity. Qed.

(** ** What the call does to its input (C8) *)




(** Why the amended C8 says nothing of the order of the calls: where two
    items share an object, the node of the first depends on whether the
    second was normalized before it. *)
Lemma createItemNode_order_matters :
  returned (createItemNode sampleDigest sampleNodeId (VRef 1%positive)
              {| heap := sharedHeap; calls := [] |})
  <> returned (createItemNode sampleDigest sampleNodeId (VRef 1%positive)
                 (worldOf (createItemNode sampleDigest sampleNodeId (VRef 2%positive)
                             {| heap := sharedHeap; calls := [] |}))).
Proof. vm_compute. intros H. discriminate H. Qed.

(** ** Host calls *)

Lemma quiet_ret {A} (a : A) : quiet (mret a).
Proof. intros w. reflexivity. Qed.

Lemma quiet_throw {A} e : quiet (throw e : M A).
Proof. intros w. reflexivity. Qed.

Lemma quiet_bind {A B} (m : M A) (f : A -> M B) :
  quiet m -> (forall a, quiet (f a)) -> quiet (m ≫= f).
Proof.
  intros Hm Hf w. rewrite bind_run. specialize (Hm w).
  destruct (m w) as [a w1|e w1]; simpl in *; [|exact Hm].
  rewrite Hf. exact Hm.
Qed.

Lemma quiet_reading {A} (f : gmap loc obj -> result A) : quiet (reading f).
Proof. intros w. unfold reading. destruct (f (heap w)); reflexivity. Qed.

Lemma quiet_updating f : quiet (updating f).
Proof. intros w. reflexivity. Qed.

Lemma quiet_alloc o : quiet (alloc o).
Proof. intros w. reflexivity. Qed.

Ltac quiet_base :=
  first
    [ apply quiet_bind; [|intros ?]
    | apply quiet_reading
    | apply quiet_updating
    | apply quiet_alloc
    | apply quiet_ret
    | apply quiet_throw ].

Lemma quiet_deleteProp v key : quiet (deleteProp v key).
Proof. destruct v; simpl; quiet_base. Qed.

Lemma quiet_Object_assign target key value :
  quiet (Object_assign target key value).
Proof. destruct target; simpl; repeat quiet_base. Qed.

Lemma quiet_Object_keys v : quiet (Object_keys v).
Proof. destruct v; simpl; quiet_base. Qed.

Lemma quiet_filterM {A} (p : A -> M bool) l :
  (forall x, quiet (p x)) -> quiet (filterM p l).
Proof.
  intros Hp. induction l as [|x l IH]; simpl; [apply quiet_ret|].
  apply quiet_bind; [apply Hp|]. intros b.
  apply quiet_bind; [exact IH|]. intros l'. apply quiet_ret.
Qed.

Lemma quiet_reduceM {A B} (f : B -> A -> M B) l :
  (forall acc x, quiet (f acc x)) -> forall acc, quiet (reduceM f l acc).
Proof.
  intros Hf. induction l as [|x l IH]; intros acc; simpl; [apply quiet_ret|].
  apply quiet_bind; [apply Hf | exact IH].
Qed.

Ltac quiet_step :=
  first
    [ quiet_base
    | apply quiet_deleteProp
    | apply quiet_Object_assign
    | apply quiet_Object_keys ].

Lemma quiet_hasType item key : quiet (hasType item key).
Proof.
  unfold hasType, getProp. quiet_step; [quiet_step|].
  destruct (truthy a); repeat quiet_step.
Qed.

Lemma quiet_addElement item acc key : quiet (addElement item acc key).
Proof.
  unfold addElement, getProp. do 2 (quiet_step; [quiet_step|]).
  quiet_step; [|repeat quiet_step].
  case_bool_decide; [repeat quiet_step|].
  quiet_step; [quiet_step|].
  case_bool_decide; repeat quiet_step.
Qed.

(** [createItemNode] makes no host call, whatever its argument. *)
Lemma quiet_createItemNode d n item : quiet (createItemNode d n item).
Proof.
  unfold createItemNode, getProp, ofResult.
  quiet_step; [quiet_step|].
  quiet_step; [apply quiet_filterM; intros; apply quiet_hasType|].
  quiet_step; [quiet_step|].
  quiet_step; [apply quiet_reduceM; intros; apply quiet_addElement|].
  do 3 (quiet_step; [quiet_step|]).
  match goal with
  | |- quiet (match ?parsed with _ => _ end) =>
      destruct parsed as [[| | | | |nd]|]; try apply quiet_throw
  end.
  repeat quiet_step.
Qed.

(** ** Exceptions *)

Lemma fuelled_ret {A} (a : A) : fuelled (mret a).
Proof. intros w e w' [=]. Qed.

Lemma fuelled_throw {A} msg : fuelled (throw (TypeError msg) : M A).
Proof. intros w e w' [= <- _]. discriminate. Qed.

Lemma fuelled_bind {A B} (m : M A) (f : A -> M B) :
  fuelled m -> (forall a, fuelled (f a)) -> fuelled (m ≫= f).
Proof.
  intros Hm Hf w e w'. rewrite bind_run.
  destruct (m w) as [a w1|e1 w1] eqn:Hrun.
  - apply Hf.
  - intros [= <- _]. apply (Hm _ _ _ Hrun).
Qed.

Lemma fuelled_reading {A} (f : gmap loc obj -> result A) :
  (forall h, f h <> Err OutOfFuel) -> fuelled (reading f).
Proof.
  intros Hf w e w'. unfold reading. specialize (Hf (heap w)).
  destruct (f (heap w)); [discriminate|]. intros [= <- _]. congruence.
Qed.

Lemma fuelled_updating f : fuelled (updating f).
Proof. intros w e w' [=]. Qed.

Lemma fuelled_alloc o : fuelled (alloc o).
Proof. intros w e w' [=]. Qed.

Lemma readProp_fuel h v key : readProp h v key <> Err OutOfFuel.
Proof. destruct v; discriminate. Qed.

Lemma jsonProp_fuel v key : jsonProp v key <> Err OutOfFuel.
Proof. destruct v as [[]|]; discriminate. Qed.

Lemma getNodeIdValue_fuel item : getNodeIdValue item <> Err OutOfFuel.
Proof.
  unfold getNodeIdValue.
  repeat match goal with
         | |- context [jsonProp ?v ?k] =>
             let H := fresh in
             pose proof (jsonProp_fuel v k) as H;
             destruct (jsonProp v k); simpl; [clear H | congruence]
         end.
  discriminate.
Qed.

Ltac fuelled_step :=
  first
    [ apply fuelled_bind; [|intros ?]
    | apply fuelled_reading; intros ?;
        first [ apply readProp_fuel | apply plain_fuel | apply jsonProp_fuel
              | apply getNodeIdValue_fuel | discriminate ]
    | apply fuelled_updating
    | apply fuelled_alloc
    | apply fuelled_ret
    | apply fuelled_throw ].

Lemma fuelled_filterM {A} (p : A -> M bool) l :
  (forall x, fuelled (p x)) -> fuelled (filterM p l).
Proof.
  intros Hp. induction l as [|x l IH]; simpl; [apply fuelled_ret|].
  apply fuelled_bind; [apply Hp|]. intros b.
  apply fuelled_bind; [exact IH|]. intros l'. apply fuelled_ret.
Qed.

Lemma fuelled_reduceM {A B} (f : B -> A -> M B) l :
  (forall acc x, fuelled (f acc x)) -> forall acc, fuelled (reduceM f l acc).
Proof.
  intros Hf. induction l as [|x l IH]; intros acc; simpl; [apply fuelled_ret|].
  apply fuelled_bind; [apply Hf | exact IH].
Qed.

Lemma fuelled_addElement item acc key : fuelled (addElement item acc key).
Proof.
  unfold addElement, getProp. do 2 (fuelled_step; [fuelled_step|]).
  fuelled_step.
  - case_bool_decide; [repeat fuelled_step|].
    fuelled_step; [fuelled_step|].
    case_bool_decide; repeat fuelled_step.
  - fuelled_step.
    + destruct a1; simpl; fuelled_step.
    + destruct acc; simpl; repeat fuelled_step.
Qed.

(** [createItemNode] returns a node or throws a [TypeError]. *)
Lemma fuelled_createItemNode d n item : fuelled (createItemNode d n item).
Proof.
  unfold createItemNode, getProp, ofResult.
  fuelled_step; [destruct item; simpl; fuelled_step|].
  fuelled_step.
  { apply fuelled_filterM. intros key. unfold hasType, getProp.
    fuelled_step; [fuelled_step|]. destruct (truthy a0); repeat fuelled_step. }
  fuelled_step; [fuelled_step|].
  fuelled_step; [apply fuelled_reduceM; intros; apply fuelled_addElement|].
  do 3 (fuelled_step; [fuelled_step|]).
  match goal with
  | |- fuelled (match ?parsed with _ => _ end) =>
      destruct parsed as [[| | | | |nd]|]; try apply fuelled_throw
  end.
  repeat fuelled_step.
Qed.

(** ** The union of root and linked items (C3) *)

Section Uniq.
Variable key : val -> val.

Lemma baseUniq_elem array : forall seen x,
  x ∈ baseUniq key seen array -> x ∈ array /\ key x ∉ seen.
Proof.
  induction array as [|y array IH]; intros seen x; simpl.
  - intros H. apply elem_of_nil in H. contradiction.
  - case_bool_decide as Hseen.
    + intros [Hin Hx]%IH. split; [right; exact Hin | exact Hx].
    + intros [->|Hin]%elem_of_cons.
      * split; [left | exact Hseen].
      * apply IH in Hin as [Hin Hx]. split; [right; exact Hin|].
        intros Hs. apply Hx. right. exact Hs.
Qed.

Lemma baseUniq_NoDup array : forall seen,
  NoDup (map key (baseUniq key seen array)).
Proof.
  induction array as [|y array IH]; intros seen; simpl; [constructor|].
  case_bool_decide as Hseen; [apply IH|].
  simpl. constructor; [|apply IH].
  intros (x & Hkey & Hin)%list_elem_of_fmap.
  apply baseUniq_elem in Hin as [_ Hx]. apply Hx. rewrite <- Hkey. left.
Qed.

Lemma baseUniq_complete array : forall seen x,
  x ∈ array -> key x ∉ seen ->
  exists y, y ∈ baseUniq key seen array /\ key y = key x.
Proof.
  induction array as [|z array IH]; intros seen x Hin Hx.
  - apply elem_of_nil in Hin. contradiction.
  - simpl. case_bool_decide as Hseen.
    + apply elem_of_cons in Hin as [->|Hin]; [contradiction|].
      apply IH; assumption.
    + destruct (decide (key x = key z)) as [Heq|Hne].
      * exists z. split; [left | symmetry; exact Heq].
      * apply elem_of_cons in Hin as [->|Hin]; [contradiction|].
        destruct (IH (key z :: seen) x Hin) as (y & Hy & Hkey).
        { intros [?|?]%elem_of_cons; contradiction. }
        exists y. split; [right; exact Hy | exact Hkey].
Qed.

(** An entry that is kept is the first of the array with its key. *)
Lemma baseUniq_first array : forall seen y,
  y ∈ baseUniq key seen array ->
  exists before after,
    array = before ++ y :: after /\ forall z, z ∈ before -> key z <> key y.
Proof.
  induction array as [|x array IH]; intros seen y; simpl.
  - intros H. apply elem_of_nil in H. contradiction.
  - case_bool_decide as Hseen.
    + intros Hin. pose proof (baseUniq_elem _ _ _ Hin) as [_ Hy].
      destruct (IH _ _ Hin) as (before & after & -> & Hbefore).
      exists (x :: before), after. split; [reflexivity|].
      intros z [->|Hz]%elem_of_cons; [congruence | apply Hbefore, Hz].
    + intros [->|Hin]%elem_of_cons.
      * exists [], array. split; [reflexivity|].
        intros z Hz. apply elem_of_nil in Hz. contradiction.
      * pose proof (baseUniq_elem _ _ _ Hin) as [_ Hy].
        destruct (IH _ _ Hin) as (before & after & -> & Hbefore).
        exists (x :: before), after. split; [reflexivity|].
        intros z [->|Hz]%elem_of_cons; [|apply Hbefore, Hz].
        intros Heq. apply Hy. rewrite Heq. left.
Qed.

End Uniq.

Lemma emits_calls d n l w nodes w' :
  emits d n l w nodes w' -> calls w' = calls w ++ map CreateNode nodes.
Proof.
  induction 1 as [w|item rest w node w1 nodes w2 Hrun _ IH].
  - simpl. rewrite app_nil_r. reflexivity.
  - rewrite IH. simpl.
    pose proof (quiet_createItemNode d n item w) as Hq. rewrite Hrun in Hq.
    simpl in Hq. rewrite Hq, <- app_assoc. reflexivity.
Qed.

Lemma forEach_emits d n l : forall w w',
  forEachM (fun item => itemNode ← createItemNode d n item; createNode itemNode)
           l w = Returns tt w' ->
  exists nodes, emits d n l w nodes w'.
Proof.
  induction l as [|item rest IH]; intros w w'; simpl.
  - intros [= <-]. exists []. constructor.
  - rewrite !bind_run.
    destruct (createItemNode d n item w) as [node w1|e w1] eqn:Hrun;
      [|discriminate].
    simpl. intros (nodes & Hnodes)%IH.
    exists (node :: nodes). econstructor; eassumption.
Qed.

(** C3: [unionBy] keeps, of the root items followed by the linked items,
    the first entry for each [system.codename]: no two kept entries share a
    codename, every codename of the input is kept, and a kept entry is the
    first of the input with its codename. With roots [[A; B]] and linked
    items [[B'; C]], where [B'] has the codename of [B] and the codenames of
    [A], [B], [C] differ, the union is [[A; B; C]]. [handleNodeCreation]
    creates one node for each entry of the union, in order, so for these
    lists exactly three nodes: that of [A], that of [B] (the root
    occurrence, not [B']) and that of [C]. *)
Theorem unionBy_nodes :
  (forall h roots linked,
     let all := unionBy h roots linked ["system"; "codename"] in
     NoDup (map (codenameOf h) all) /\
     (forall x, x ∈ roots ++ linked ->
        exists y, y ∈ all /\ codenameOf h y = codenameOf h x) /\
     (forall y, y ∈ all ->
        exists before after,
          roots ++ linked = before ++ y :: after /\
          forall z, z ∈ before -> codenameOf h z <> codenameOf h y)) /\
  (forall h A B B' C,
     codenameOf h A <> codenameOf h B ->
     codenameOf h A <> codenameOf h C ->
     codenameOf h B <> codenameOf h C ->
     codenameOf h B' = codenameOf h B ->
     unionBy h [A; B] [B'; C] ["system"; "codename"] = [A; B; C]) /\
  (forall d n types response w w',
     handleNodeCreation d n
       {| client_types := types; client_items := Ok response |} w
       = Returns tt w' ->
     exists nodes,
       emits d n
         (unionBy (heap w) (items response) (linkedItems response)
                  ["system"; "codename"])
         w nodes w' /\
       calls w' = calls w ++ map CreateNode nodes) /\
  (forall d n types w w' A B B' C,
     codenameOf (heap w) A <> codenameOf (heap w) B ->
     codenameOf (heap w) A <> codenameOf (heap w) C ->
     codenameOf (heap w) B <> codenameOf (heap w) C ->
     codenameOf (heap w) B' = codenameOf (heap w) B ->
     handleNodeCreation d n
       {| client_types := types;
          client_items := Ok {| items := [A; B]; linkedItems := [B'; C] |} |} w
       = Returns tt w' ->
     exists nodeA nodeB nodeC,
       emits d n [A; B; C] w [nodeA; nodeB; nodeC] w' /\
       calls w' = calls w ++ [CreateNode nodeA; CreateNode nodeB; CreateNode nodeC]).
Proof.
  assert (Hex : forall h A B B' C,
     codenameOf h A <> codenameOf h B ->
     codenameOf h A <> codenameOf h C ->
     codenameOf h B <> codenameOf h C ->
     codenameOf h B' = codenameOf h B ->
     unionBy h [A; B] [B'; C] ["system"; "codename"] = [A; B; C]).
  { intros h A B B' C HAB HAC HBC HB'.
    unfold codenameOf in *. unfold unionBy. cbn [app baseUniq]. cbv beta.
    rewrite HB'.
    set (a := baseGet h A _) in *. set (b := baseGet h B _) in *.
    set (c := baseGet h C _) in *.
    rewrite (bool_decide_false (a ∈ [])) by apply not_elem_of_nil.
    rewrite (bool_decide_false (b ∈ [a])).
    2:{ intros [?|H]%elem_of_cons; [congruence | apply elem_of_nil in H; exact H]. }
    rewrite (bool_decide_true (b ∈ [b; a])) by left.
    rewrite bool_decide_false; [reflexivity|].
    intros [?|[?|H]%elem_of_cons]%elem_of_cons;
      [congruence | congruence | apply elem_of_nil in H; exact H]. }
  assert (Hrun : forall d n types response w w',
     handleNodeCreation d n
       {| client_types := types; client_items := Ok response |} w
       = Returns tt w' ->
     exists nodes,
       emits d n
         (unionBy (heap w) (items response) (linkedItems response)
                  ["system"; "codename"])
         w nodes w' /\
       calls w' = calls w ++ map CreateNode nodes).
  { intros d n types response w w' H.
    unfold handleNodeCreation in H. rewrite !bind_run in H. simpl in H.
    apply forEach_emits in H as (nodes & Hnodes).
    exists nodes. split; [exact Hnodes | apply (emits_calls _ _ _ _ _ _ Hnodes)]. }
  split; [|split; [exact Hex|split; [exact Hrun|]]].
  - intros h roots linked all. split; [|split].
    + apply baseUniq_NoDup.
    + intros x Hx. apply (baseUniq_complete (codenameOf h)); [exact Hx|].
      apply not_elem_of_nil.
    + intros y Hy. apply (baseUniq_first (codenameOf h) _ [] y Hy).
  - intros d n types w w' A B B' C HAB HAC HBC HB' H.
    apply Hrun in H as (nodes & Hnodes & Hcalls). simpl in Hnodes.
    rewrite Hex in Hnodes by assumption.
    pose proof Hnodes as Hthree.
    inversion Hthree as [|? ? ? nodeA ? nodes1 ? _ H1]; subst.
    inversion H1 as [|? ? ? nodeB ? nodes2 ? _ H2]; subst.
    inversion H2 as [|? ? ? nodeC ? nodes3 ? _ H3]; subst.
    inversion H3; subst.
    exists nodeA, nodeB, nodeC. split; [exact Hnodes | exact Hcalls].
Qed.

(** C3 there: three nodes, the second from the root occurrence of [B]. *)
Lemma unionBy_nodes_witness :
  exists w' nodeA nodeB nodeC,
    handleNodeCreation sampleDigest sampleNodeId
      {| client_types := Ok [];
         client_items :=
           Ok {| items := [VRef 1%positive; VRef 2%positive];
                 linkedItems := [VRef 3%positive; VRef 4%positive] |} |}
      {| heap := threeItems; calls := [] |} = Returns tt w' /\
    calls w' = [CreateNode nodeA; CreateNode nodeB; CreateNode nodeC] /\
    map (fun node => jprop node "id") [nodeA; nodeB; nodeC]
      = [Some (JString "id:page-1"); Some (JString "id:page-2");
         Some (JString "id:page-3")].
Proof.
  destruct (handleNodeCreation sampleDigest sampleNodeId _ _)
    as [[] w'|e w'] eqn:Hrun; [|vm_compute in Hrun; discriminate Hrun].
  destruct (proj2 (proj2 (proj2 unionBy_nodes)) sampleDigest sampleNodeId (Ok [])
              {| heap := threeItems; calls := [] |} w'
              (VRef 1%positive) (VRef 2%positive) (VRef 3%positive) (VRef 4%positive))
    as (nodeA & nodeB & nodeC & _ & Hcalls).
  - vm_compute. discriminate.
  - vm_compute. discriminate.
  - vm_compute. discriminate.
  - reflexivity.
  - exact Hrun.
  - exists w', nodeA, nodeB, nodeC. split; [reflexivity|].
    split; [exact Hcalls|].
    apply (f_equal (fun o => calls (worldOf o))) in Hrun.
    simpl in Hrun. rewrite Hcalls in Hrun. vm_compute in Hrun.
    injection Hrun as <- <- <-. reflexivity.
Defined.

(** ** Unknown element kinds (C6) *)

Lemma handleTypeCreation_run client types w :
  client_types client = Ok types ->
  handleTypeCreation client w =
    Returns tt
      {| heap := heap w;
         calls := calls w ++
           [CreateTypes (SchemaText createBaseTypes);
            CreateTypes (BuiltTypes (concat (map createTypeDef types)))] |}.
Proof.
  intros Htypes. unfold handleTypeCreation. rewrite !bind_run.
  unfold createTypes at 1, calling at 1. cbv beta iota.
  rewrite bind_run. unfold ofResult, reading. rewrite Htypes. cbv beta iota.
  unfold createTypes, calling. cbn [heap calls].
  rewrite createTypeDef_concat, <- app_assoc. reflexivity.
Qed.

(** The nine kinds of the catalog are named after declarations of the
    base schema; the name made for a kind outside the catalog is the name
    of no declaration. *)
Lemma catalog_declared :
  Forall (fun kind => getElementValueType kind ∈ map decl_name createBaseTypes)
    ["text"; "number"; "date_time"; "asset"; "rich_text"; "modular_content";
     "taxonomy"; "multiple_choice"; "url_slug"].
Proof.
  repeat (constructor; [apply (bool_decide_unpack _); vm_compute; exact I|]).
  constructor.
Qed.

Lemma unknown_kind_undeclared :
  getElementValueType "new_kind_v2" ∉ map decl_name createBaseTypes.
Proof. apply (bool_decide_unpack _). vm_compute. exact I. Qed.

(** C6: [getElementValueType] is total and has no catalog: any kind [k]
    is named ["Kontent" + PascalCase(k) + "Element"], and [new_kind_v2]
    is named [KontentNewKindV2Element]. A content type with an element of
    any kind gets its two declarations, the field of that element with
    that name for a type, and Type Projection registers the declarations
    of all the content types it was given, whatever their kinds. *)
Theorem unknown_kind_named :
  (forall kind,
     getElementValueType kind
       = "Kontent" +:+ ChangeCase.pascalCase kind +:+ "Element") /\
  getElementValueType "new_kind_v2" = "KontentNewKindV2Element" /\
  (forall codename element kind,
     exists typeDef,
       createTypeDef
         {| type_system_codename := codename;
            type_elements :=
              [ {| element_codename := element; element_type := kind |} ] |}
       = [ {| def_name := getGraphTypeName codename +:+ "Elements";
              def_fields :=
                [(ChangeCase.camelCase element,
                  "Kontent" +:+ ChangeCase.pascalCase kind +:+ "Element")];
              def_interfaces := []; def_infer := false |};
           typeDef ]) /\
  (forall types response w,
     handleTypeCreation
       {| client_types := Ok types; client_items := response |} w
     = Returns tt
         {| heap := heap w;
            calls := calls w ++
              [CreateTypes (SchemaText createBaseTypes);
               CreateTypes (BuiltTypes (concat (map createTypeDef types)))] |}).
Proof.
  split; [reflexivity|]. split; [reflexivity|]. split.
  - intros codename element kind. eexists. reflexivity.
  - intros types response w. apply handleTypeCreation_run. reflexivity.
Qed.

(** ** Types before nodes (C9) *)

Lemma forEach_calls d n l : forall w,
  exists nodes,
    calls (worldOf
             (forEachM
                (fun item =>
                   itemNode ← createItemNode d n item; createNode itemNode)
                l w))
    = calls w ++ map CreateNode nodes.
Proof.
  induction l as [|item rest IH]; intros w.
  - exists []. simpl. rewrite app_nil_r. reflexivity.
  - simpl. rewrite !bind_run.
    pose proof (quiet_createItemNode d n item w) as Hq.
    destruct (createItemNode d n item w) as [node w1|e w1]; simpl in Hq |- *.
    + destruct (IH {| heap := heap w1; calls := calls w1 ++ [CreateNode node] |})
        as (nodes & Hnodes).
      exists (node :: nodes). rewrite Hnodes. simpl.
      rewrite Hq, <- app_assoc. reflexivity.
    + exists []. simpl. rewrite app_nil_r. exact Hq.
Qed.

Lemma handleNodeCreation_calls d n client w :
  exists nodes,
    calls (worldOf (handleNodeCreation d n client w))
    = calls w ++ map CreateNode nodes.
Proof.
  unfold handleNodeCreation. rewrite bind_run.
  unfold ofResult at 1, reading at 1.
  destruct (client_items client) as [response|e].
  - rewrite bind_run. simpl. apply forEach_calls.
  - exists []. simpl. rewrite app_nil_r. reflexivity.
Qed.

(** C9: however a run ends, the host calls it made are the registration
    of the base declarations, then, unless the request for the content
    types was rejected, the registration of the declarations of all
    content types, and only then node creations. So wherever a node
    creation occurs among the calls of a run, both registrations come
    before it. *)
Theorem types_before_nodes d n client w :
  exists new,
    calls (worldOf (sourceNodes d n client w)) = calls w ++ new /\
    (new = [CreateTypes (SchemaText createBaseTypes)] \/
     exists types nodes,
       client_types client = Ok types /\
       new = CreateTypes (SchemaText createBaseTypes)
             :: CreateTypes (BuiltTypes (concat (map createTypeDef types)))
             :: map CreateNode nodes) /\
    (forall before node after,
       new = before ++ CreateNode node :: after ->
       exists types nodes,
         client_types client = Ok types /\
         before = CreateTypes (SchemaText createBaseTypes)
                  :: CreateTypes (BuiltTypes (concat (map createTypeDef types)))
                  :: map CreateNode nodes).
Proof.
  assert (Hnew : exists new,
    calls (worldOf (sourceNodes d n client w)) = calls w ++ new /\
    (new = [CreateTypes (SchemaText createBaseTypes)] \/
     exists types nodes,
       client_types client = Ok types /\
       new = CreateTypes (SchemaText createBaseTypes)
             :: CreateTypes (BuiltTypes (concat (map createTypeDef types)))
             :: map CreateNode nodes)).
  { unfold sourceNodes. rewrite bind_run.
    destruct (client_types client) as [types|e] eqn:Htypes.
    - rewrite (handleTypeCreation_run client types w Htypes).
      match goal with
      | |- context [handleNodeCreation d n client ?w1] =>
          destruct (handleNodeCreation_calls d n client w1) as (nodes & Hnodes)
      end.
      eexists. split.
      + rewrite Hnodes. simpl. rewrite <- app_assoc. reflexivity.
      + right. exists types, nodes. split; reflexivity.
    - unfold handleTypeCreation. rewrite !bind_run. simpl.
      unfold ofResult, reading. rewrite Htypes. simpl.
      eexists. split; [reflexivity|]. left. reflexivity. }
  destruct Hnew as (new & Hcalls & Hnew).
  exists new. split; [exact Hcalls|]. split; [exact Hnew|].
  intros before node after Hsplit.
  destruct Hnew as [->|(types & nodes & Htypes & ->)].
  - destruct before as [|c [|c' before]]; discriminate Hsplit.
  - exists types.
    destruct before as [|c [|c' before]]; try discriminate Hsplit.
    injection Hsplit as <- <- Hsplit.
    change (map CreateNode nodes) with (CreateNode <$> nodes) in Hsplit.
    apply fmap_app_inv in Hsplit as (nodes1 & nodes2 & Hbefore & _ & _).
    exists nodes1. split; [exact Htypes|]. rewrite Hbefore. reflexivity.
Qed.


(** C9 on the three items: two registrations, then three node creations. *)
Lemma types_before_nodes_witness :
  exists new types nodes,
    calls (worldOf (sourceNodes sampleDigest sampleNodeId
                      {| client_types := Ok [collidingType];
                         client_items :=
                           Ok {| items := [VRef 1%positive; VRef 2%positive];
                                 linkedItems := [VRef 3%positive; VRef 4%positive] |} |}
                      {| heap := threeItems; calls := [] |})) = new /\
    length new = 5 /\
    take 4 new
      = CreateTypes (SchemaText createBaseTypes)
        :: CreateTypes (BuiltTypes (concat (map createTypeDef types)))
        :: map CreateNode nodes.
Proof.
  destruct (types_before_nodes sampleDigest sampleNodeId
              {| client_types := Ok [collidingType];
                 client_items :=
                   Ok {| items := [VRef 1%positive; VRef 2%positive];
                         linkedItems := [VRef 3%positive; VRef 4%positive] |} |}
              {| heap := threeItems; calls := [] |})
    as (new & Hcalls & _ & Hbefore).
  simpl in Hcalls. rewrite Hcalls.
  assert (Hlen : length new = 5).
  { rewrite <- Hcalls. vm_compute. reflexivity. }
  destruct new as [|c1 [|c2 [|c3 [|c4 [|c5 [|c6 new]]]]]]; try discriminate Hlen.
  assert (Hlast : exists node, c5 = CreateNode node).
  { apply (f_equal (fun l => last l)) in Hcalls. vm_compute in Hcalls.
    injection Hcalls as Hc5. eexists. symmetry. exact Hc5. }
  destruct Hlast as [node ->].
  destruct (Hbefore [c1; c2; c3; c4] node [] eq_refl) as (types & nodes & _ & Hfour).
  exists [c1; c2; c3; c4; CreateNode node], types, nodes.
  split; [reflexivity|]. split; [reflexivity | exact Hfour].
Defined.
(** ** More on Type Projection *)

Lemma assign_values {A} (P : A -> Prop) (acc : list (string * A)) k v :
  Forall (fun p => P (snd p)) acc -> P v ->
  Forall (fun p => P (snd p)) (assign acc k v).
Proof.
  intros Hacc Hv. induction acc as [|[k' v'] acc IH]; simpl.
  - constructor; [exact Hv | constructor].
  - apply Forall_cons in Hacc as [Hv' Hacc].
    destruct (String.eqb k' k); constructor; auto.
Qed.

Lemma catalog_kind_declared kind :
  kind ∈ catalog -> declared (getElementValueType kind).
Proof.
  intros Hkind. unfold catalog in Hkind.
  repeat (apply elem_of_cons in Hkind as [->|Hkind];
          [apply (bool_decide_unpack _); vm_compute; exact I|]).
  apply elem_of_nil in Hkind. contradiction.
Qed.

(** X1: For a content type whose elements are of catalog kinds, the generated
    declarations refer to nothing that is not there: every field of the
    elements type has a value type the base schema declares, the [system]
    field of the item type is the declared system type, its [elements]
    field is the elements type generated beside it, and its interfaces
    are [Node] and the declared [KontentItem]. *)
Theorem createTypeDef_closed (type : ContentType) :
  Forall (fun e => element_type e ∈ catalog) (type_elements type) ->
  exists elementsTypeDef typeDef,
    createTypeDef type = [elementsTypeDef; typeDef] /\
    Forall (fun f => declared (snd f)) (def_fields elementsTypeDef) /\
    def_fields typeDef
      = [("system", "KontentItemSystem" +:+ "!");
         ("elements", def_name elementsTypeDef)] /\
    declared "KontentItemSystem" /\
    def_interfaces typeDef = ["Node"; "KontentItem"] /\
    declared "KontentItem".
Proof.
  intros Hkinds. eexists _, _. split; [reflexivity|]. cbn [def_fields def_interfaces def_name].
  assert (Hdecl : forall name, bool_decide (name ∈ map decl_name createBaseTypes) = true ->
            declared name).
  { intros name Hname. apply bool_decide_eq_true in Hname. exact Hname. }
  split; [|split; [reflexivity|split; [|split; [reflexivity|]]]];
    [|apply Hdecl; vm_compute; reflexivity..].
  change (Forall (fun f => declared (snd f))
            (elementFieldsFrom [] (type_elements type))).
  assert (Hany : forall acc : list (string * string),
            Forall (fun f => declared (snd f)) acc ->
            Forall (fun f => declared (snd f))
                   (elementFieldsFrom acc (type_elements type))).
  { induction Hkinds as [|e es He _ IH]; intros acc Hacc; [exact Hacc|].
    apply IH. apply assign_values; [exact Hacc|].
    apply catalog_kind_declared, He. }
  apply Hany. constructor.
Qed.

Lemma createTypeDef_closed_witness :
  exists elementsTypeDef typeDef,
    createTypeDef
      {| type_system_codename := "blog_post";
         type_elements :=
           [ {| element_codename := "title"; element_type := "text" |};
             {| element_codename := "teaser"; element_type := "rich_text" |} ] |}
      = [elementsTypeDef; typeDef] /\
    Forall (fun f => declared (snd f)) (def_fields elementsTypeDef).
Proof.
  destruct (createTypeDef_closed
              {| type_system_codename := "blog_post";
                 type_elements :=
                   [ {| element_codename := "title"; element_type := "text" |};
                     {| element_codename := "teaser"; element_type := "rich_text" |} ] |})
    as (d1 & d2 & Hdef & Hfields & _).
  - repeat constructor; apply (bool_decide_unpack _); vm_compute; exact I.
  - exists d1, d2. split; assumption.
Defined.

Lemma concat_createTypeDef_lookup types : forall i type,
  types !! i = Some type ->
  concat (map createTypeDef types) !! (2 * i) = createTypeDef type !! 0 /\
  concat (map createTypeDef types) !! (2 * i + 1) = createTypeDef type !! 1.
Proof.
  induction types as [|t ts IH]; intros i type Hi; [discriminate|].
  destruct i as [|i].
  - injection Hi as ->. split; reflexivity.
  - simpl in Hi. destruct (IH i type Hi) as [H0 H1].
    replace (2 * S i) with (S (S (2 * i))) by lia.
    replace (S (S (2 * i)) + 1) with (S (S (2 * i + 1))) by lia.
    split; [exact H0 | exact H1].
Qed.



(** X3: When the request for the content types is rejected, the run ends with
    that rejection after the registration of the base schema alone: no
    content type is declared, no node is created, the store is as it
    was. *)
Theorem sourceNodes_types_rejected d n client w e :
  client_types client = Err e ->
  sourceNodes d n client w =
    Throws e {| heap := heap w;
                calls := calls w ++ [CreateTypes (SchemaText createBaseTypes)] |}.
Proof.
  intros Htypes. unfold sourceNodes, handleTypeCreation.
  rewrite !bind_run. unfold createTypes at 1, calling at 1. cbv beta iota.
  rewrite bind_run. unfold ofResult, reading. rewrite Htypes. reflexivity.
Qed.

Lemma sourceNodes_types_rejected_witness :
  sourceNodes sampleDigest sampleNodeId
    {| client_types := Err (Rejected "offline");
       client_items := Ok {| items := [VRef 1%positive]; linkedItems := [] |} |}
    sampleWorld
  = Throws (Rejected "offline")
      {| heap := sampleHeap;
         calls := [CreateTypes (SchemaText createBaseTypes)] |}.
Proof.
  exact (sourceNodes_types_rejected sampleDigest sampleNodeId
           {| client_types := Err (Rejected "offline");
              client_items :=
                Ok {| items := [VRef 1%positive]; linkedItems := [] |} |}
           sampleWorld (Rejected "offline") eq_refl).
Defined.

(** X4: When the content types arrive and the request for the items is
    rejected, the run ends with that rejection after both registrations:
    the schema is registered in full and no node is created. *)
Theorem sourceNodes_items_rejected d n client w types e :
  client_types client = Ok types ->
  client_items client = Err e ->
  sourceNodes d n client w =
    Throws e
      {| heap := heap w;
         calls := calls w ++
           [CreateTypes (SchemaText createBaseTypes);
            CreateTypes (BuiltTypes (concat (map createTypeDef types)))] |}.
Proof.
  intros Htypes Hitems. unfold sourceNodes. rewrite bind_run.
  rewrite (handleTypeCreation_run client types w Htypes).
  unfold handleNodeCreation. rewrite bind_run.
  unfold ofResult, reading. rewrite Hitems. reflexivity.
Qed.

Lemma sourceNodes_items_rejected_witness :
  sourceNodes sampleDigest sampleNodeId
    {| client_types := Ok []; client_items := Err (Rejected "offline") |}
    sampleWorld
  = Throws (Rejected "offline")
      {| heap := sampleHeap;
         calls := [CreateTypes (SchemaText createBaseTypes);
                   CreateTypes (BuiltTypes [])] |}.
Proof.
  exact (sourceNodes_items_rejected sampleDigest sampleNodeId
           {| client_types := Ok []; client_items := Err (Rejected "offline") |}
           sampleWorld [] (Rejected "offline") eq_refl eq_refl).
Defined.

(** ** More on the union of root and linked items *)

Lemma baseUniq_sublist key array : forall seen,
  baseUniq key seen array `sublist_of` array.
Proof.
  induction array as [|x array IH]; intros seen; simpl; [constructor|].
  case_bool_decide; [apply sublist_cons | apply sublist_skip]; apply IH.
Qed.

Lemma baseUniq_distinct key array : forall seen,
  NoDup (map key array) -> (forall x, x ∈ array -> key x ∉ seen) ->
  baseUniq key seen array = array.
Proof.
  induction array as [|x array IH]; intros seen Hnd Hseen; [reflexivity|].
  simpl in *. apply NoDup_cons in Hnd as [Hx Hnd].
  rewrite bool_decide_false by (apply Hseen; left).
  f_equal. apply IH; [exact Hnd|].
  intros y Hy [Heq|Hin]%elem_of_cons.
  - apply Hx. rewrite <- Heq. apply (list_elem_of_fmap_2 key), Hy.
  - apply (Hseen y); [right; exact Hy | exact Hin].
Qed.

Lemma baseUniq_app key a : forall seen b,
  NoDup (map key a) -> (forall x, x ∈ a -> key x ∉ seen) ->
  baseUniq key seen (a ++ b) = a ++ baseUniq key (reverse (map key a) ++ seen) b.
Proof.
  induction a as [|x a IH]; intros seen b Hnd Hseen; [reflexivity|].
  simpl in *. apply NoDup_cons in Hnd as [Hx Hnd].
  rewrite bool_decide_false by (apply Hseen; left).
  f_equal. rewrite IH; [|exact Hnd|].
  - rewrite reverse_cons, <- app_assoc. reflexivity.
  - intros y Hy [Heq|Hin]%elem_of_cons.
    + apply Hx. rewrite <- Heq. apply (list_elem_of_fmap_2 key), Hy.
    + apply (Hseen y); [right; exact Hy | exact Hin].
Qed.

Lemma NoDup_fmap_eq {A B} (f : A -> B) (l : list A) x y :
  NoDup (map f l) -> x ∈ l -> y ∈ l -> f x = f y -> x = y.
Proof.
  induction l as [|z l IH]; intros Hnd Hx Hy Heq.
  - apply elem_of_nil in Hx. contradiction.
  - simpl in Hnd. apply NoDup_cons in Hnd as [Hz Hnd].
    apply elem_of_cons in Hx as [->|Hx]; apply elem_of_cons in Hy as [->|Hy].
    + reflexivity.
    + exfalso. apply Hz. rewrite Heq. apply (list_elem_of_fmap_2 f), Hy.
    + exfalso. apply Hz. rewrite <- Heq. apply (list_elem_of_fmap_2 f), Hx.
    + apply IH; assumption.
Qed.

(** X5: Where the root items have codenames of their own, each different from
    the others, none of them is dropped: the union is the root items, in
    order, followed by linked items, each of a codename that no root item
    and no linked item before it has. *)
Theorem unionBy_roots_kept h roots linked :
  NoDup (map (codenameOf h) roots) ->
  exists rest,
    unionBy h roots linked ["system"; "codename"] = roots ++ rest /\
    rest `sublist_of` linked /\
    NoDup (map (codenameOf h) rest) /\
    forall y, y ∈ rest -> codenameOf h y ∉ map (codenameOf h) roots.
Proof.
  intros Hnd. unfold unionBy.
  rewrite (baseUniq_app (codenameOf h)); [|exact Hnd|].
  2:{ intros x _. apply not_elem_of_nil. }
  eexists. split; [reflexivity|]. split; [apply baseUniq_sublist|].
  split; [apply baseUniq_NoDup|].
  intros y Hy Hin. apply baseUniq_elem in Hy as [_ Hy]. apply Hy.
  rewrite app_nil_r. apply elem_of_reverse. exact Hin.
Qed.

Lemma unionBy_roots_kept_witness :
  exists rest,
    unionBy threeItems [VRef 1%positive; VRef 2%positive]
            [VRef 3%positive; VRef 4%positive] ["system"; "codename"]
      = [VRef 1%positive; VRef 2%positive] ++ rest /\
    rest `sublist_of` [VRef 3%positive; VRef 4%positive].
Proof.
  destruct (unionBy_roots_kept threeItems [VRef 1%positive; VRef 2%positive]
              [VRef 3%positive; VRef 4%positive])
    as (rest & Hall & Hsub & _).
  - vm_compute. repeat constructor;
      intros H; repeat (apply elem_of_cons in H as [H|H]; [discriminate H|]);
      apply elem_of_nil in H; exact H.
  - exists rest. split; assumption.
Defined.

(** X6: An item without a [system] property has no codename, and all such
    items count as one: of the items without a [system] property, the
    union keeps at most one. *)
Theorem unionBy_without_system h roots linked x y lx ly px py :
  x = VRef lx -> h !! lx = Some (OObject px) -> prop px "system" = None ->
  y = VRef ly -> h !! ly = Some (OObject py) -> prop py "system" = None ->
  x ∈ unionBy h roots linked ["system"; "codename"] ->
  y ∈ unionBy h roots linked ["system"; "codename"] ->
  x = y.
Proof.
  intros -> Hlx Hpx -> Hly Hpy Hx Hy.
  apply (NoDup_fmap_eq (fun v => baseGet h v ["system"; "codename"])
           (unionBy h roots linked ["system"; "codename"]));
    [apply baseUniq_NoDup | exact Hx | exact Hy |].
  simpl. rewrite Hlx, Hly. simpl. rewrite Hpx, Hpy. reflexivity.
Qed.

Lemma unionBy_without_system_witness :
  VRef 4%positive ∉
    unionBy sampleHeap [VRef 1%positive; VRef 3%positive] [VRef 4%positive]
            ["system"; "codename"].
Proof.
  intros H4.
  assert (H3 : VRef 3%positive ∈
            unionBy sampleHeap [VRef 1%positive; VRef 3%positive]
              [VRef 4%positive] ["system"; "codename"]).
  { vm_compute. right. left. }
  pose proof (unionBy_without_system sampleHeap
                [VRef 1%positive; VRef 3%positive] [VRef 4%positive]
                (VRef 3%positive) (VRef 4%positive) 3%positive 4%positive _ _
                eq_refl eq_refl eq_refl eq_refl eq_refl eq_refl H3 H4) as Heq.
  discriminate Heq.
Defined.

(** ** Node creation that fails part of the way *)

Lemma forEach_stops d n before item after w nodes w1 e w2 :
  emits d n before w nodes w1 ->
  createItemNode d n item w1 = Throws e w2 ->
  forEachM (fun item => itemNode ← createItemNode d n item; createNode itemNode)
           (before ++ item :: after) w = Throws e w2.
Proof.
  intros Hem Hthrow.
  induction Hem as [w|first rest w node w1 nodes w3 Hrun _ IH]; simpl.
  - rewrite !bind_run, Hthrow. reflexivity.
  - rewrite !bind_run, Hrun. simpl. apply IH, Hthrow.
Qed.

Lemma emits_forEach d n l w nodes w' :
  emits d n l w nodes w' ->
  forEachM (fun item => itemNode ← createItemNode d n item; createNode itemNode)
           l w = Returns tt w'.
Proof.
  induction 1 as [w|first rest w node w1 nodes w3 Hrun _ IH]; simpl.
  - reflexivity.
  - rewrite !bind_run, Hrun. simpl. exact IH.
Qed.

(** X7: Nodes are created one at a time, and nothing is taken back: when the
    projection of an item of the union throws, [handleNodeCreation] throws
    the same exception, the nodes of the items before it have been handed
    to [createNode], in order, and none for that item or the items after
    it. *)
Theorem handleNodeCreation_stops d n client response w
        before item after nodes w1 e w2 :
  client_items client = Ok response ->
  unionBy (heap w) (items response) (linkedItems response)
          ["system"; "codename"] = before ++ item :: after ->
  emits d n before w nodes w1 ->
  createItemNode d n item w1 = Throws e w2 ->
  handleNodeCreation d n client w = Throws e w2 /\
  calls w2 = calls w ++ map CreateNode nodes.
Proof.
  intros Hitems Hall Hem Hthrow. split.
  - unfold handleNodeCreation. rewrite bind_run.
    unfold ofResult at 1. rewrite Hitems.
    unfold reading at 1. cbv beta iota.
    rewrite bind_run. unfold reading at 1. cbv beta iota. rewrite Hall.
    apply (forEach_stops d n before item after w nodes w1 e w2 Hem Hthrow).
  - pose proof (quiet_createItemNode d n item w1) as Hq.
    rewrite Hthrow in Hq. simpl in Hq. rewrite Hq.
    apply (emits_calls d n before w nodes w1 Hem).
Qed.

Lemma handleNodeCreation_stops_witness :
  exists node e w2,
    handleNodeCreation sampleDigest sampleNodeId
      {| client_types := Ok [];
         client_items :=
           Ok {| items := [VRef 1%positive]; linkedItems := [VRef 5%positive] |} |}
      sampleWorld = Throws e w2 /\
    calls w2 = [CreateNode node].
Proof.
  destruct (createItemNode sampleDigest sampleNodeId (VRef 1%positive)
              sampleWorld) as [node w1|e w1] eqn:Hrun;
    [|exfalso; vm_compute in Hrun; discriminate Hrun].
  destruct (createItemNode sampleDigest sampleNodeId (VRef 5%positive)
              {| heap := heap w1; calls := calls w1 ++ [CreateNode node] |})
    as [node' w2|e w2] eqn:Hthrow.
  { exfalso. vm_compute in Hrun. injection Hrun as <- <-.
    vm_compute in Hthrow. discriminate Hthrow. }
  exists node, e, w2.
  apply (handleNodeCreation_stops sampleDigest sampleNodeId
           {| client_types := Ok [];
              client_items :=
                Ok {| items := [VRef 1%positive];
                      linkedItems := [VRef 5%positive] |} |}
           {| items := [VRef 1%positive]; linkedItems := [VRef 5%positive] |}
           sampleWorld [VRef 1%positive] (VRef 5%positive) [] [node]
           {| heap := heap w1; calls := calls w1 ++ [CreateNode node] |}
           e w2 eq_refl).
  - vm_compute. reflexivity.
  - econstructor; [exact Hrun | constructor].
  - exact Hthrow.
Defined.

(** ** The exceptions of a run *)

Lemma typeErrors_ret {A} (a : A) : typeErrors (mret a).
Proof. intros w e w' [=]. Qed.

Lemma typeErrors_throw {A} msg : typeErrors (throw (TypeError msg) : M A).
Proof. intros w e w' [= <- _]. exists msg. reflexivity. Qed.

Lemma typeErrors_bind {A B} (m : M A) (f : A -> M B) :
  typeErrors m -> (forall a, typeErrors (f a)) -> typeErrors (m ≫= f).
Proof.
  intros Hm Hf w e w'. rewrite bind_run.
  destruct (m w) as [a w1|e1 w1] eqn:Hrun.
  - apply Hf.
  - intros [= <- _]. apply (Hm _ _ _ Hrun).
Qed.

Lemma typeErrors_reading {A} (f : gmap loc obj -> result A) :
  (forall h e, f h = Err e -> exists msg, e = TypeError msg) ->
  typeErrors (reading f).
Proof.
  intros Hf w e w'. unfold reading. specialize (Hf (heap w)).
  destruct (f (heap w)); [discriminate|]. intros [= <- _]. apply Hf. reflexivity.
Qed.

Lemma typeErrors_updating f : typeErrors (updating f).
Proof. intros w e w' [=]. Qed.

Lemma typeErrors_alloc o : typeErrors (alloc o).
Proof. intros w e w' [=]. Qed.

Lemma readProp_error h v key e :
  readProp h v key = Err e -> exists msg, e = TypeError msg.
Proof. destruct v; simpl; intros [=]; subst; eexists; reflexivity. Qed.

Lemma jsonProp_error v key e :
  jsonProp v key = Err e -> exists msg, e = TypeError msg.
Proof. destruct v as [[]|]; simpl; intros [=]; subst; eexists; reflexivity. Qed.

Lemma getNodeIdValue_error item e :
  getNodeIdValue item = Err e -> exists msg, e = TypeError msg.
Proof.
  unfold getNodeIdValue.
  repeat match goal with
         | |- context [jsonProp ?v ?k] =>
             let H := fresh in
             pose proof (jsonProp_error v k) as H;
             destruct (jsonProp v k); simpl;
               [clear H | intros [= <-]; apply H; reflexivity]
         end.
  discriminate.
Qed.

Lemma plainElems_error (f : val -> result (option json)) (P : error -> Prop) es e :
  (forall v e, v ∈ es -> f v = Err e -> P e) ->
  plainElems f es = Err e -> P e.
Proof.
  induction es as [|v es IH]; intros Hf; simpl; [discriminate|].
  destruct (f v) as [j|e1] eqn:Hv; simpl.
  - destruct (plainElems f es) as [js|e2]; simpl; [discriminate|].
    intros [= <-]. apply IH; [|reflexivity].
    intros v' e' Hin. apply Hf. right. exact Hin.
  - intros [= <-]. apply (Hf v); [left | exact Hv].
Qed.

Lemma plainProps_error (f : val -> result (option json)) (P : error -> Prop) ps e :
  (forall k v e, (k, v) ∈ ps -> f v = Err e -> P e) ->
  plainProps f ps = Err e -> P e.
Proof.
  induction ps as [|[k v] ps IH]; intros Hf; simpl; [discriminate|].
  destruct (f v) as [j|e1] eqn:Hv; simpl.
  - destruct (plainProps f ps) as [js|e2]; simpl; [discriminate|].
    intros [= <-]. apply IH; [|reflexivity].
    intros k' v' e' Hin. apply (Hf k'). right. exact Hin.
  - intros [= <-]. apply (Hf k v); [left | exact Hv].
Qed.

(** What stops a plain copy is a circular structure, or the bound on its
    depth. *)
Lemma plain_error fuel : forall h seen v e,
  plain fuel h seen v = Err e ->
  e = OutOfFuel \/ e = TypeError "Converting circular structure to JSON".
Proof.
  induction fuel as [|fuel IH]; intros h seen v e; simpl.
  - intros [= <-]. left. reflexivity.
  - destruct v as [| | | | |l]; try discriminate.
    destruct (decide (l ∈ seen)); [intros [= <-]; right; reflexivity|].
    destruct (h !! l) as [[ps|es|iso]|]; try discriminate.
    + destruct (plainProps (plain fuel h (l :: seen)) ps) as [jps|e1] eqn:Hps;
        simpl; [discriminate|].
      intros [= <-].
      apply (plainProps_error (plain fuel h (l :: seen))
               (fun e => e = OutOfFuel \/
                  e = TypeError "Converting circular structure to JSON")
               ps e1); [|exact Hps].
      intros k v e' _. apply IH.
    + destruct (plainElems (plain fuel h (l :: seen)) es) as [js|e1] eqn:Hes;
        simpl; [discriminate|].
      intros [= <-].
      apply (plainElems_error (plain fuel h (l :: seen))
               (fun e => e = OutOfFuel \/
                  e = TypeError "Converting circular structure to JSON")
               es e1); [|exact Hes].
      intros v e' _. apply IH.
Qed.

Lemma JSON_roundtrip_error h v e :
  JSON_roundtrip h v = Err e ->
  e = TypeError "Converting circular structure to JSON".
Proof.
  intros He. destruct (plain_error _ _ _ _ _ He) as [-> | ->]; [|reflexivity].
  exfalso. apply (plain_fuel h v He).
Qed.

Ltac typeErrors_step :=
  first
    [ apply typeErrors_bind; [|intros ?]
    | apply typeErrors_reading; intros ? ?;
        first [ apply readProp_error
              | apply jsonProp_error
              | apply getNodeIdValue_error
              | intros ?%JSON_roundtrip_error; eexists; eassumption
              | discriminate ]
    | apply typeErrors_updating
    | apply typeErrors_alloc
    | apply typeErrors_ret
    | apply typeErrors_throw ].

Lemma typeErrors_filterM {A} (p : A -> M bool) l :
  (forall x, typeErrors (p x)) -> typeErrors (filterM p l).
Proof.
  intros Hp. induction l as [|x l IH]; simpl; [apply typeErrors_ret|].
  apply typeErrors_bind; [apply Hp|]. intros b.
  apply typeErrors_bind; [exact IH|]. intros l'. apply typeErrors_ret.
Qed.

Lemma typeErrors_reduceM {A B} (f : B -> A -> M B) l :
  (forall acc x, typeErrors (f acc x)) ->
  forall acc, typeErrors (reduceM f l acc).
Proof.
  intros Hf. induction l as [|x l IH]; intros acc; simpl; [apply typeErrors_ret|].
  apply typeErrors_bind; [apply Hf | exact IH].
Qed.

Lemma typeErrors_forEachM {A} (f : A -> M unit) l :
  (forall x, typeErrors (f x)) -> typeErrors (forEachM f l).
Proof.
  intros Hf. induction l as [|x l IH]; simpl; [apply typeErrors_ret|].
  apply typeErrors_bind; [apply Hf | intros _; exact IH].
Qed.

Lemma typeErrors_addElement item acc key : typeErrors (addElement item acc key).
Proof.
  unfold addElement, getProp. do 2 (typeErrors_step; [typeErrors_step|]).
  typeErrors_step.
  - case_bool_decide; [repeat typeErrors_step|].
    typeErrors_step; [typeErrors_step|].
    case_bool_decide; repeat typeErrors_step.
  - typeErrors_step.
    + destruct a1; simpl; typeErrors_step.
    + destruct acc; simpl; repeat typeErrors_step.
Qed.

Lemma typeErrors_createItemNode d n item : typeErrors (createItemNode d n item).
Proof.
  unfold createItemNode, getProp, ofResult.
  typeErrors_step; [destruct item; simpl; typeErrors_step|].
  typeErrors_step.
  { apply typeErrors_filterM. intros key. unfold hasType, getProp.
    typeErrors_step; [typeErrors_step|].
    destruct (truthy a0); repeat typeErrors_step. }
  typeErrors_step; [typeErrors_step|].
  typeErrors_step; [apply typeErrors_reduceM; intros; apply typeErrors_addElement|].
  do 3 (typeErrors_step; [typeErrors_step|]).
  match goal with
  | |- typeErrors (match ?parsed with _ => _ end) =>
      destruct parsed as [[| | | | |nd]|]; try apply typeErrors_throw
  end.
  repeat typeErrors_step.
Qed.



(** ** Items without a system record, a type or an id *)



Lemma plainProps_absent f ps jps k :
  plainProps f ps = Ok jps -> prop ps k = None -> prop jps k = None.
Proof.
  intros Hjps Hk.
  destruct (prop jps k) as [x|] eqn:Hx; [|reflexivity].
  destruct (plainProps_source _ _ _ _ _ Hjps Hx) as (v & Hin & _).
  apply prop_None in Hk. exfalso. apply Hk.
  apply (list_elem_of_fmap_2 fst) in Hin. exact Hin.
Qed.

(** The plain copy of the system record of an item, as the node holds
    it. *)
Lemma system_copied d n li w node w' ips ls sps :
  heap w !! li = Some (OObject ips) ->
  prop ips "system" = Some (VRef ls) ->
  heap w !! ls = Some (OObject sps) ->
  createItemNode d n (VRef li) w = Returns node w' ->
  exists jps idValue type,
    (forall k s, k <> "rawData" -> prop sps k = Some (VString s) ->
       prop jps k = Some (JString s)) /\
    (forall k, k <> "rawData" -> prop sps k = None -> prop jps k = None) /\
    (type ← jsonProp (Some (JObject jps)) "type";
     id ← jsonProp (Some (JObject jps)) "id";
     Ok (ChangeCase.paramCase (caseArg type) +:+ "-" +:+ interpolate id))
      = Ok idValue /\
    jsonProp (Some (JObject jps)) "type" = Ok type /\
    jprop node "system" = Some (JObject jps) /\
    jprop node "id" = Some (JString (n idValue)) /\
    (jprop node "internal" ≫= fun internal => jprop internal "type")
      = Some (JString (getGraphTypeName (caseArg type))).
Proof.
  intros Hli Hsys Hls Hrun.
  destruct (createItemNode_shape d n li w node w' Hrun)
    as (_ & Hf & ln & sysv & acc & fuel & jsys & jacc & idValue & type
        & _ & _ & _ & Hsysv & _ & _ & _ & Hjsys & _ & Hid & Htype & _ & _ & ->).
  specialize (Hsysv (ex_intro _ _ Hli)). simpl in Hsysv.
  rewrite Hli in Hsysv. simpl in Hsysv. rewrite Hsys in Hsysv.
  injection Hsysv as <-.
  destruct (frame_read_object _ _ _ _ _ Hf Hls) as (sps' & Hls' & Hsame).
  apply plain_Ok in Hjsys as [_ Hjsys]. rewrite Hls' in Hjsys.
  destruct Hjsys as (n' & jps & [= <-] & Hjps & [= ->]).
  exists jps, idValue, type.
  split.
  { intros k s Hk Hks. rewrite <- Hsame in Hks by exact Hk.
    destruct (plainProps_lookup _ _ _ _ _ Hjps Hks) as (r & Hr & Hx).
    apply Hx. apply plain_string in Hr. exact Hr. }
  split.
  { intros k Hk Hks. rewrite <- Hsame in Hks by exact Hk.
    exact (plainProps_absent _ _ _ _ Hjps Hks). }
  split; [exact Hid|]. split; [exact Htype|].
  repeat split; reflexivity.
Qed.

(** X10: An item whose system record holds the type codename [t] and no [id]
    gets the node id the host makes of [paramCase(t) + "-undefined"]: the
    missing id is not an error, and all such items of one type share
    their node id. *)
Theorem createItemNode_without_id d n li w node w' ips ls sps t :
  heap w !! li = Some (OObject ips) ->
  prop ips "system" = Some (VRef ls) ->
  heap w !! ls = Some (OObject sps) ->
  prop sps "type" = Some (VString t) ->
  prop sps "id" = None ->
  createItemNode d n (VRef li) w = Returns node w' ->
  jprop node "id"
    = Some (JString (n (ChangeCase.paramCase t +:+ "-" +:+ "undefined"))).
Proof.
  intros Hli Hsys Hls Ht Hi Hrun.
  destruct (system_copied d n li w node w' ips ls sps Hli Hsys Hls Hrun)
    as (jps & idValue & type & Hcopy & Habsent & Hid & _ & _ & -> & _).
  simpl in Hid.
  rewrite (Hcopy "type" t) in Hid by (discriminate || assumption).
  rewrite (Habsent "id") in Hid by (discriminate || assumption).
  simpl in Hid. injection Hid as <-. reflexivity.
Qed.

(** Two items of type [page] without an id, [1] and [2]. *)
Lemma createItemNode_without_id_witness :
  let h : gmap loc obj :=
    list_to_map
      [(1%positive, OObject [("system", VRef 3%positive)]);
       (2%positive, OObject [("system", VRef 4%positive)]);
       (3%positive, OObject [("codename", VString "a"); ("type", VString "page")]);
       (4%positive, OObject [("codename", VString "b"); ("type", VString "page")])] in
  let w := {| heap := h; calls := [] |} in
  exists node1 w1 node2 w2,
    createItemNode sampleDigest sampleNodeId (VRef 1%positive) w
      = Returns node1 w1 /\
    createItemNode sampleDigest sampleNodeId (VRef 2%positive) w
      = Returns node2 w2 /\
    jprop node1 "id" = Some (JString "id:page-undefined") /\
    jprop node2 "id" = jprop node1 "id".
Proof.
  intros h w.
  destruct (createItemNode sampleDigest sampleNodeId (VRef 1%positive) w)
    as [node1 w1|e w1] eqn:Hrun1;
    [|exfalso; vm_compute in Hrun1; discriminate Hrun1].
  destruct (createItemNode sampleDigest sampleNodeId (VRef 2%positive) w)
    as [node2 w2|e w2] eqn:Hrun2;
    [|exfalso; vm_compute in Hrun2; discriminate Hrun2].
  exists node1, w1, node2, w2.
  split; [reflexivity|]. split; [reflexivity|].
  rewrite (createItemNode_without_id sampleDigest sampleNodeId 1%positive w
             node1 w1 _ 3%positive _ "page" eq_refl eq_refl eq_refl eq_refl
             eq_refl Hrun1).
  rewrite (createItemNode_without_id sampleDigest sampleNodeId 2%positive w
             node2 w2 _ 4%positive _ "page" eq_refl eq_refl eq_refl eq_refl
             eq_refl Hrun2).
  split; reflexivity.
Defined.

(** X11: The type of a node is a type [createTypeDef] declares: for an item
    whose system record holds the type codename [t], [internal.type] is
    the name of the item type declared for the content type of codename
    [t], the second of its two declarations. *)
Theorem createItemNode_internal_type d n li w node w' ips ls sps t type :
  heap w !! li = Some (OObject ips) ->
  prop ips "system" = Some (VRef ls) ->
  heap w !! ls = Some (OObject sps) ->
  prop sps "type" = Some (VString t) ->
  type_system_codename type = t ->
  createItemNode d n (VRef li) w = Returns node w' ->
  exists elementsTypeDef typeDef,
    createTypeDef type = [elementsTypeDef; typeDef] /\
    (jprop node "internal" ≫= fun internal => jprop internal "type")
      = Some (JString (def_name typeDef)) /\
    def_interfaces typeDef = ["Node"; "KontentItem"].
Proof.
  intros Hli Hsys Hls Ht Hcode Hrun.
  destruct (system_copied d n li w node w' ips ls sps Hli Hsys Hls Hrun)
    as (jps & idValue & jtype & Hcopy & _ & _ & Htype & _ & _ & Hinternal).
  simpl in Htype. rewrite (Hcopy "type" t) in Htype by (discriminate || assumption).
  injection Htype as <-.
  eexists _, _. split; [reflexivity|]. split; [|reflexivity].
  rewrite Hinternal. simpl. rewrite Hcode. reflexivity.
Qed.

Lemma createItemNode_internal_type_witness :
  exists node w',
    createItemNode sampleDigest sampleNodeId (VRef 1%positive) sampleWorld
      = Returns node w' /\
    (jprop node "internal" ≫= fun internal => jprop internal "type")
      = Some (JString "KontentItemBlogPost").
Proof.
  destruct (createItemNode sampleDigest sampleNodeId (VRef 1%positive) sampleWorld)
    as [node w'|e w'] eqn:Hrun; [|exfalso; vm_compute in Hrun; discriminate Hrun].
  exists node, w'. split; [reflexivity|].
  destruct (createItemNode_internal_type sampleDigest sampleNodeId 1%positive
              sampleWorld node w' _ 2%positive _ "blog_post"
              {| type_system_codename := "blog_post"; type_elements := [] |}
              eq_refl eq_refl eq_refl eq_refl eq_refl Hrun)
    as (elementsTypeDef & typeDef & [= _ <-] & Hinternal & _).
  exact Hinternal.
Defined.

(** ** The fields of [elements] *)

Lemma built_object h0 li la h key v :
  frame h0 li h -> built h0 li la h key v ->
  exists l o, v = VRef l /\ h !! l = Some o.
Proof.
  intros Hf (oi & le & o & _ & _ & Hle & _ & Hb).
  case_bool_decide; [|case_bool_decide].
  - destruct Hb as (l & -> & _ & _ & Hl). eauto.
  - destruct Hb as (l & -> & _ & _ & Hl). eauto.
  - subst v. destruct (Hf le o Hle) as [Hl|[Hl _]]; eauto.
Qed.

(** X12: The [elements] of a node have one field for each key the filter
    keeps, under the camel-case name of the key, and no other field. *)
Theorem createItemNode_element_fields d n li w node w' :
  createItemNode d n (VRef li) w = Returns node w' ->
  exists fields,
    jprop node "elements" = Some (JObject fields) /\
    forall f, is_Some (prop fields f) <->
      exists key, key ∈ elementKeys (heap w) li /\ getGraphFieldName key = f.
Proof.
  intros Hrun.
  destruct (createItemNode_shape d n li w node w' Hrun)
    as (_ & Hf & ln & sysv & acc & fuel & jsys & jacc & idValue & type
        & _ & _ & _ & _ & _ & Hfields & Hdone & _ & Hjacc & _ & _ & _ & _ & ->).
  exists jacc. split; [reflexivity|].
  intros f. split.
  - intros [x Hx].
    destruct (plainProps_source _ _ _ _ _ Hjacc Hx) as (v & Hin & _).
    destruct (prop acc f) as [v'|] eqn:Hv'.
    + destruct (Hfields f v' Hv') as (key & Hkey & Hname & _). eauto.
    + apply prop_None in Hv'. exfalso. apply Hv'.
      apply (list_elem_of_fmap_2 fst) in Hin. exact Hin.
  - intros (key & Hkey & <-).
    destruct (Hdone key Hkey) as [v Hv].
    destruct (Hfields _ v Hv) as (key' & _ & _ & Hbuilt).
    destruct (built_object _ _ _ _ _ _ Hf Hbuilt) as (l & o & -> & Hl).
    destruct (plainProps_lookup _ _ _ _ _ Hjacc Hv) as (r & Hr & Hx).
    apply plain_Ok in Hr as [_ Hr]. rewrite Hl in Hr.
    destruct o as [ps|es|iso].
    + destruct Hr as (? & jps & _ & _ & ->). eexists. apply Hx. reflexivity.
    + destruct Hr as (? & js & _ & _ & ->). eexists. apply Hx. reflexivity.
    + eexists. apply Hx. exact Hr.
Qed.

(** ** Modular content *)

Lemma modularContent_emitted d n li w node w' ips k le eps :
  heap w !! li = Some (OObject ips) ->
  prop ips k = Some (VRef le) ->
  heap w !! le = Some (OObject eps) ->
  prop eps "type" = Some (VString "modular_content") ->
  (forall k', k' ∈ map fst ips ->
     getGraphFieldName k' = getGraphFieldName k -> k' = k) ->
  createItemNode d n (VRef li) w = Returns node w' ->
  exists jacc jel fuel seen,
    jprop node "elements" = Some (JObject jacc) /\
    prop jacc (getGraphFieldName k) = Some (JObject jel) /\
    frame (heap w) li (heap w') /\
    plainProps (plain fuel (heap w') seen)
      [("name", default VUndefined (prop eps "name"));
       ("type", default VUndefined (prop eps "type"));
       ("value", default VUndefined (prop eps "itemCodenames"))] = Ok jel.
Proof.
  intros Hli Hk Hle Htype Huniq Hrun.
  destruct (createItemNode_shape d n li w node w' Hrun)
    as (_ & Hf & ln & sysv & acc & fuel & jsys & jacc & idValue & type
        & Hla & Hln & Hlnla & _ & Hacc & Hfields & Hdone & _ & Hjacc & _ & _ & _ & _ & ->).
  assert (Hkeys : k ∈ elementKeys (heap w) li).
  { apply list_elem_of_filter. split.
    - apply Is_true_true. unfold elementKey. simpl.
      rewrite Hli. simpl. rewrite Hk. simpl. rewrite Hle. simpl.
      rewrite Htype. reflexivity.
    - rewrite Hli. simpl. apply prop_Some_elem in Hk.
      apply (list_elem_of_fmap_2 fst) in Hk. exact Hk. }
  destruct (Hdone k Hkeys) as [v Hv].
  destruct (Hfields _ v Hv) as (key & Hkey & Hfield & Hbuilt).
  assert (key = k) as ->.
  { apply Huniq; [|exact Hfield].
    apply list_elem_of_filter in Hkey as [_ Hkey].
    rewrite Hli in Hkey. exact Hkey. }
  destruct Hbuilt as (oi & le' & o & Hli' & Hk' & Hle' & _ & Hb).
  rewrite Hli in Hli'. injection Hli' as <-.
  simpl in Hk'. rewrite Hk in Hk'. injection Hk' as <-.
  rewrite Hle in Hle'. injection Hle' as <-.
  cbn [ownProp] in Hb. rewrite Htype in Hb. cbn [default] in Hb.
  rewrite bool_decide_true in Hb by reflexivity.
  destruct Hb as (l & -> & _ & _ & Hl).
  unfold modularFields in Hl. cbn [ownProp] in Hl.
  destruct (plainProps_lookup _ _ _ _ _ Hjacc Hv) as (r & Hr & Hx).
  apply plain_Ok in Hr as [_ Hr]. rewrite Hl in Hr.
  destruct Hr as (n' & jel & _ & Hjel & ->).
  exists jacc, jel, n', [l; fresh (dom (heap w)); ln].
  split; [reflexivity|]. split; [apply Hx; reflexivity|].
  split; [exact Hf | exact Hjel].
Qed.

(** X13: A [modular_content] element is rewritten to three fields: its [name],
    its [type], and as [value] the codenames of its items. The element's
    own [value], the resolved items, is not carried over, nor is
    [rawData] or anything else of the element. This is the entry of the
    node's [elements] where no other key of the item has the same field
    name. *)
Theorem modularContent_normalized
    d n li w node w' ips k le eps name lcodes codes :
  heap w !! li = Some (OObject ips) ->
  prop ips k = Some (VRef le) ->
  heap w !! le = Some (OObject eps) ->
  prop eps "type" = Some (VString "modular_content") ->
  prop eps "name" = Some (VString name) ->
  prop eps "itemCodenames" = Some (VRef lcodes) ->
  heap w !! lcodes = Some (OArray (map VString codes)) ->
  (forall k', k' ∈ map fst ips ->
     getGraphFieldName k' = getGraphFieldName k -> k' = k) ->
  createItemNode d n (VRef li) w = Returns node w' ->
  exists elements,
    jprop node "elements" = Some elements /\
    jprop elements (getGraphFieldName k) =
      Some (JObject [("name", JString name);
                     ("type", JString "modular_content");
                     ("value", JArray (map JString codes))]).
Proof.
  intros Hli Hk Hle Htype Hname Hcodes Hlcodes Huniq Hrun.
  destruct (modularContent_emitted d n li w node w' ips k le eps
              Hli Hk Hle Htype Huniq Hrun)
    as (jacc & jel & fuel & seen & Hel & Hfield & Hf & Hjel).
  exists (JObject jacc). split; [exact Hel|]. simpl. rewrite Hfield.
  do 2 f_equal.
  rewrite Hname, Htype, Hcodes in Hjel. cbn [default] in Hjel.
  pose proof (frame_read_array _ _ _ _ _ Hf Hlcodes) as Hlcodes'.
  apply plainProps_cons in Hjel as (j1 & js1 & H1 & Hjel & ->).
  apply plainProps_cons in Hjel as (j2 & js2 & H2 & Hjel & ->).
  apply plainProps_cons in Hjel as (j3 & js3 & H3 & Hjel & ->).
  injection Hjel as <-.
  apply plain_string in H1, H2.
  apply (plain_strings _ _ _ _ codes _ Hlcodes') in H3.
  subst. reflexivity.
Qed.

Lemma modularContent_normalized_witness :
  let h : gmap loc obj :=
    list_to_map
      [(1%positive, OObject [("system", VRef 2%positive);
                             ("related_posts", VRef 3%positive)]);
       (2%positive, OObject [("codename", VString "home"); ("id", VString "i1");
                             ("type", VString "page")]);
       (3%positive, OObject [("name", VString "Related posts");
                             ("type", VString "modular_content");
                             ("itemCodenames", VRef 4%positive);
                             ("value", VRef 5%positive);
                             ("rawData", VRef 6%positive)]);
       (4%positive, OArray [VString "first_post"; VString "home"]);
       (5%positive, OArray [VRef 7%positive; VRef 1%positive]);
       (6%positive, OObject [("value", VRef 4%positive)]);
       (7%positive, OObject [("system", VRef 8%positive)]);
       (8%positive, OObject [("codename", VString "first_post");
                             ("id", VString "i2"); ("type", VString "post")])] in
  exists node w' elements,
    createItemNode sampleDigest sampleNodeId (VRef 1%positive)
      {| heap := h; calls := [] |} = Returns node w' /\
    jprop node "elements" = Some elements /\
    jprop elements "relatedPosts" =
      Some (JObject [("name", JString "Related posts");
                     ("type", JString "modular_content");
                     ("value", JArray [JString "first_post"; JString "home"])]).
Proof.
  intros h.
  destruct (createItemNode sampleDigest sampleNodeId (VRef 1%positive)
              {| heap := h; calls := [] |}) as [node w'|e w'] eqn:Hrun;
    [|exfalso; vm_compute in Hrun; discriminate Hrun].
  destruct (modularContent_normalized sampleDigest sampleNodeId 1%positive
              {| heap := h; calls := [] |} node w' _ "related_posts" 3%positive _
              "Related posts" 4%positive ["first_post"; "home"]
              eq_refl eq_refl eq_refl eq_refl eq_refl eq_refl eq_refl)
    as (elements & Hel & Hfield).
  - intros k' Hk' Hname.
    apply elem_of_cons in Hk' as [->|Hk']; [vm_compute in Hname; discriminate Hname|].
    apply elem_of_cons in Hk' as [->|Hk']; [reflexivity|].
    apply elem_of_nil in Hk'. contradiction.
  - exact Hrun.
  - exists node, w', elements. split; [reflexivity|]. split; [exact Hel|].
    exact Hfield.
Defined.

Lemma createItemNode_element_fields_witness :
  exists node w' fields,
    createItemNode sampleDigest sampleNodeId (VRef 1%positive) sampleWorld
      = Returns node w' /\
    jprop node "elements" = Some (JObject fields) /\
    is_Some (prop fields "title") /\ is_Some (prop fields "body") /\
    prop fields "codename" = None.
Proof.
  destruct (createItemNode sampleDigest sampleNodeId (VRef 1%positive) sampleWorld)
    as [node w'|e w'] eqn:Hrun; [|exfalso; vm_compute in Hrun; discriminate Hrun].
  destruct (createItemNode_element_fields sampleDigest sampleNodeId 1%positive
              sampleWorld node w' Hrun) as (fields & Hel & Hfields).
  exists node, w', fields. split; [reflexivity|]. split; [exact Hel|].
  split; [|split].
  - apply Hfields. exists "title". split; [|reflexivity].
    vm_compute. right. left.
  - apply Hfields. exists "body". split; [|reflexivity].
    vm_compute. right. right. left.
  - destruct (prop fields "codename") as [x|] eqn:Hx; [|reflexivity].
    exfalso. destruct (proj1 (Hfields "codename") (ex_intro _ x Hx))
      as (key & Hkey & Hname).
    vm_compute in Hkey.
    repeat (apply elem_of_cons in Hkey as [->|Hkey];
            [vm_compute in Hname; discriminate Hname|]).
    apply elem_of_nil in Hkey. exact Hkey.
Defined.

(** ** What the reduce deletes *)

Lemma storeElement_other la f target h l :
  l <> la -> l <> target -> storeElement la f target h !! l = h !! l.
Proof.
  intros Hla Ht. unfold storeElement.
  rewrite !lookup_alter_ne by congruence. reflexivity.
Qed.

Lemma storeElement_target la f target h o :
  target <> la -> h !! target = Some o ->
  storeElement la f target h !! target = Some (stripped o).
Proof.
  intros Hla Ht. unfold storeElement.
  rewrite lookup_alter_ne by congruence.
  rewrite lookup_alter_eq, Ht. reflexivity.
Qed.

Lemma bare_storeElement la f target h l :
  l <> la -> bare h l -> bare (storeElement la f target h) l.
Proof.
  intros Hla (o & Hl & Ho). destruct (decide (l = target)) as [->|Hne].
  - exists (stripped o). split; [apply storeElement_target; assumption|].
    apply deleteOwn_idemp.
  - exists o. split; [|exact Ho]. rewrite storeElement_other; assumption.
Qed.

Lemma bare_insert h l l' o :
  h !! l' = None -> bare h l -> bare (<[l' := o]> h) l.
Proof.
  intros Hl' (o' & Hl & Ho). exists o'. split; [|exact Ho].
  rewrite lookup_insert_ne by congruence. exact Hl.
Qed.

Section Strip.
Variables (h0 : gmap loc obj) (li la : loc) (c0 : list hostCall).
Hypothesis Hla : h0 !! la = None.

Lemma addElement_Bare done w key r w' :
  Inv h0 li la c0 done w -> Bare h0 li done w ->
  elementKey h0 (VRef li) key = true ->
  addElement (VRef li) (VRef la) key w = Returns r w' ->
  Bare h0 li (done ++ [key]) w'.
Proof.
  intros HInv HB Hek Hrun.
  destruct (elementKey_true _ _ _ Hek) as (oi & le & o & Hli & Hv & Hle & Ht).
  pose proof HInv as (Hc & Hf & acc & Hacc & _).
  destruct (frame_read _ _ _ _ _ Hf Hli) as (oi' & Hli' & _ & Hcase).
  destruct (Hcase key) as [Hv'|Hv']; rewrite Hv in Hv' || idtac.
  2:{ destruct (addElement_undefined li la key w oi' Hli' Hv') as [e He].
      rewrite He in Hrun. discriminate Hrun. }
  destruct (frame_read _ _ _ _ _ Hf Hle) as (o' & Hle' & Hsame & _).
  rewrite (addElement_run li la key w oi' le o' Hli' Hv' Hle') in Hrun.
  injection Hrun as <- <-.
  rewrite (Hsame "type") by discriminate.
  assert (Hlf : heap w !! fresh (dom (heap w)) = None)
    by apply not_elem_of_dom, is_fresh.
  intros key' le' Hin Hon. cbn [heap].
  assert (Hle'la : le' <> la).
  { destruct Hon as (? & ? & _ & _ & Hle2 & _). congruence. }
  apply elem_of_app in Hin as [Hin|Hin%list_elem_of_singleton].
  - specialize (HB key' le' Hin Hon).
    case_bool_decide; [|case_bool_decide]; cbv zeta;
      apply bare_storeElement; try assumption;
      apply bare_insert; assumption.
  - subst key'.
    destruct Hon as (oi2 & o2 & Hli2 & Hv2 & Hle2 & _ & Hm & Hr).
    rewrite Hli in Hli2. injection Hli2 as <-.
    rewrite Hv in Hv2. injection Hv2 as <-.
    rewrite Hle in Hle2. injection Hle2 as <-.
    rewrite !bool_decide_false by assumption.
    exists (stripped o'). split; [|apply deleteOwn_idemp].
    apply storeElement_target; assumption.
Qed.

Lemma reduce_Bare keys : forall done w r w',
  Inv h0 li la c0 done w -> Bare h0 li done w ->
  (forall key, key ∈ keys -> elementKey h0 (VRef li) key = true) ->
  reduceM (addElement (VRef li)) keys (VRef la) w = Returns r w' ->
  Bare h0 li (done ++ keys) w'.
Proof.
  induction keys as [|key keys IH]; intros done w r w' HInv HB Hkeys.
  - simpl. intros [= _ <-]. rewrite app_nil_r. exact HB.
  - simpl. rewrite bind_run.
    pose proof (addElement_step h0 li la c0 Hla done w key HInv
                  (Hkeys key ltac:(left))) as Hstep.
    destruct (addElement (VRef li) (VRef la) key w) as [r1 w1|e w1] eqn:Hrun;
      [|discriminate].
    destruct Hstep as [-> HInv1].
    pose proof (addElement_Bare done w key _ w1 HInv HB
                  (Hkeys key ltac:(left)) Hrun) as HB1.
    intros Hrest.
    replace (done ++ key :: keys) with ((done ++ [key]) ++ keys)
      by (rewrite <- app_assoc; reflexivity).
    apply (IH _ w1 r w' HInv1 HB1); [|exact Hrest].
    intros key' Hin. apply Hkeys. right. exact Hin.
Qed.

End Strip.

(** [createItemNode] on an object of the store, step by step: the reduce
    over the element keys from an empty accumulator, then [nodeData], its
    plain copy, and the node made of the copy. *)
Lemma createItemNode_unfold d n li w :
  let h0 := heap w in
  let la := fresh (dom h0) in
  let wa := {| heap := <[la := OObject []]> h0; calls := calls w |} in
  createItemNode d n (VRef li) w =
    match reduceM (addElement (VRef li)) (elementKeys h0 li) (VRef la) wa with
    | Throws e w1 => Throws e w1
    | Returns elements w1 =>
        let sysv :=
          from_option (fun o => ownProp o "system") VUndefined (heap w1 !! li) in
        let ln := fresh (dom (heap w1)) in
        let w2 :=
          {| heap := <[ln := OObject [("system", sysv); ("elements", elements)]]>
                       (heap w1);
             calls := calls w1 |} in
        match JSON_roundtrip (heap w2) (VRef ln) with
        | Err e => Throws e w2
        | Ok (Some (JObject nd)) =>
            match getNodeIdValue (JObject nd) with
            | Err e => Throws e w2
            | Ok idValue =>
                match jsonProp (Some (JObject nd)) "system"
                        ≫= (fun s => jsonProp s "type") with
                | Err e => Throws e w2
                | Ok type => Returns (nodeOf d n nd idValue type) w2
                end
            end
        | Ok _ => Throws (TypeError "nodeData is not an object") w2
        end
    end.
Proof.
  intros h0 la wa.
  unfold createItemNode.
  rewrite bind_run. cbn [Object_keys reading]. cbv beta iota.
  rewrite bind_run, filterM_hasType.
  rewrite bind_run. cbn [alloc]. cbv zeta.
  rewrite bind_run. fold h0. fold la. fold (elementKeys h0 li). fold wa.
  destruct (reduceM (addElement (VRef li)) (elementKeys h0 li) (VRef la) wa)
    as [r w1|e w1]; [|reflexivity].
  rewrite bind_run. unfold getProp at 1. cbn [reading readProp].
  rewrite bind_run. cbn [alloc]. cbv zeta.
  rewrite bind_run. unfold reading at 1. cbv beta. cbn [heap].
  destruct (JSON_roundtrip _ _) as [parsed|e]; [|reflexivity].
  destruct parsed as [[| | | | |nd]|]; try reflexivity.
  rewrite bind_run. unfold ofResult at 1, reading at 1. cbv beta.
  destruct (getNodeIdValue (JObject nd)) as [idValue|e]; [|reflexivity].
  rewrite bind_run. unfold ofResult at 1, reading at 1. cbv beta.
  destruct (jsonProp (Some (JObject nd)) "system") as [jsys|e]; [|reflexivity].
  rewrite bind_run. unfold ofResult at 1, reading at 1. cbv beta.
  change (Ok jsys ≫= (fun s => jsonProp s "type")) with (jsonProp jsys "type").
  destruct (jsonProp jsys "type") as [type|e]; reflexivity.
Qed.

Lemma createItemNode_Bare d n li w node w' :
  createItemNode d n (VRef li) w = Returns node w' ->
  Bare (heap w) li (elementKeys (heap w) li) w'.
Proof.
  intros Hrun. rewrite createItemNode_unfold in Hrun. cbv zeta in Hrun.
  set (h0 := heap w) in *. set (la := fresh (dom h0)) in *.
  set (wa := {| heap := <[la := OObject []]> h0; calls := calls w |}) in *.
  assert (Hla : h0 !! la = None) by apply not_elem_of_dom, is_fresh.
  assert (HInv0 : Inv h0 li la (calls w) [] wa).
  { split; [reflexivity|]. split; [|exists []; split; [|split; [|split]]].
    - apply (frame_outside h0 li h0); [apply frame_refl|].
      intros l [o Ho]. apply lookup_insert_ne. congruence.
    - apply lookup_insert_eq.
    - intros f v [=].
    - intros key Hin. apply elem_of_nil in Hin. contradiction.
    - constructor. }
  assert (HB0 : Bare h0 li [] wa).
  { intros key le Hin. apply elem_of_nil in Hin. contradiction. }
  assert (Hkeys : forall key, key ∈ elementKeys h0 li ->
            elementKey h0 (VRef li) key = true).
  { intros key Hin. apply list_elem_of_filter in Hin as [Hin _].
    apply Is_true_true, Hin. }
  destruct (reduceM (addElement (VRef li)) (elementKeys h0 li) (VRef la) wa)
    as [r w1|e w1] eqn:Hred; [|discriminate Hrun].
  pose proof (reduce_Bare h0 li la (calls w) Hla (elementKeys h0 li) [] wa r w1
                HInv0 HB0 Hkeys Hred) as HB1.
  simpl in HB1.
  assert (Hw' : heap w' =
            <[fresh (dom (heap w1)) :=
                OObject [("system",
                          from_option (fun o => ownProp o "system") VUndefined
                            (heap w1 !! li));
                         ("elements", r)]]> (heap w1)).
  { destruct (JSON_roundtrip _ _) as [[[| | | | |nd]|]|]; try discriminate Hrun.
    destruct (getNodeIdValue _); [|discriminate Hrun].
    destruct (_ ≫= _); [|discriminate Hrun].
    injection Hrun as _ <-. reflexivity. }
  intros key le Hin Hon. rewrite Hw'.
  apply bare_insert; [apply not_elem_of_dom, is_fresh|].
  apply (HB1 key le Hin Hon).
Qed.

Lemma stripped_object ps :
  stripped (OObject ps) = OObject ps -> prop ps "rawData" = None.
Proof.
  unfold stripped. simpl. intros [= Hps]. rewrite <- Hps.
  rewrite prop_filter_key. reflexivity.
Qed.

Lemma prop_NoDup_elem {A} (ps : list (string * A)) k v :
  NoDup (map fst ps) -> (k, v) ∈ ps -> prop ps k = Some v.
Proof.
  intros Hnd Hin.
  destruct (prop ps k) as [v'|] eqn:Hv'.
  - apply prop_Some_elem in Hv'. f_equal.
    apply list_elem_of_lookup in Hin as [i Hi].
    apply list_elem_of_lookup in Hv' as [j Hj].
    assert (i = j) as ->.
    { apply (NoDup_lookup (map fst ps) i j k); [exact Hnd| |].
      - rewrite list_lookup_fmap, Hi. reflexivity.
      - rewrite list_lookup_fmap, Hj. reflexivity. }
    congruence.
  - apply prop_None in Hv'. exfalso. apply Hv'.
    apply (list_elem_of_fmap_2 fst) in Hin. exact Hin.
Qed.

(** X14: What [delete fieldValue.rawData] comes to when a node is returned:
    every element of the item that is handed on as it is (an object under
    a key of the item, with a truthy [type] other than [modular_content]
    and [rich_text]) is left in the store without its [rawData], and no
    element of the node has a [rawData] field. *)
Theorem createItemNode_deletes_rawData d n li w node w' ips :
  heap w !! li = Some (OObject ips) ->
  createItemNode d n (VRef li) w = Returns node w' ->
  (forall key le o,
     prop ips key = Some (VRef le) -> heap w !! le = Some o ->
     truthy (ownProp o "type") = true ->
     ownProp o "type" <> VString "modular_content" ->
     ownProp o "type" <> VString "rich_text" ->
     heap w' !! le = Some (deleteOwn "rawData" o)) /\
  exists fields,
    jprop node "elements" = Some (JObject fields) /\
    forall f element, prop fields f = Some (JObject element) ->
      prop element "rawData" = None.
Proof.
  intros Hli Hrun.
  pose proof (createItemNode_Bare d n li w node w' Hrun) as HB.
  pose proof (createItemNode_outcome d n li w) as Hout.
  rewrite Hrun in Hout. cbv zeta in Hout.
  destruct Hout as [(_ & _ & acc' & Hacc' & _ & _ & Hnd) _].
  destruct (createItemNode_shape d n li w node w' Hrun)
    as (_ & Hf & ln & sysv & acc & fuel & jsys & jacc & idValue & type
        & _ & _ & _ & _ & Hacc & Hfields & Hdone & _ & Hjacc & _ & _ & _ & _ & ->).
  rewrite Hacc in Hacc'. injection Hacc' as <-.
  split.
  - intros key le o Hkey Hle Ht Hm Hr.
    assert (Hin : key ∈ elementKeys (heap w) li).
    { apply list_elem_of_filter. split.
      - apply Is_true_true. unfold elementKey. simpl.
        rewrite Hli. simpl. rewrite Hkey. simpl. rewrite Hle. simpl.
        rewrite Ht. reflexivity.
      - rewrite Hli. simpl. apply prop_Some_elem in Hkey.
        apply (list_elem_of_fmap_2 fst) in Hkey. exact Hkey. }
    destruct (HB key le Hin) as (o' & Hle' & Ho').
    { exists (OObject ips), o. simpl. rewrite Hkey. auto 10. }
    rewrite Hle'. f_equal.
    destruct (Hf le o Hle) as [Hsame|[Hsame _]]; rewrite Hle' in Hsame;
      injection Hsame as Hsame; unfold stripped in *; congruence.
  - exists jacc. split; [reflexivity|].
    intros f element Hel.
    destruct (plainProps_source _ _ _ _ _ Hjacc Hel) as (v & Hin & Hv).
    apply (prop_NoDup_elem _ _ _ Hnd) in Hin.
    destruct (Hfields f v Hin) as (key & Hkey & _ & Hbuilt).
    destruct Hbuilt as (oi & le & o & Hoi & Hk & Hle & Ht & Hb).
    case_bool_decide as Hm; [|case_bool_decide as Hr].
    + destruct Hb as (l & -> & _ & _ & Hl).
      apply plain_Ok in Hv as [_ Hv]. rewrite Hl in Hv.
      destruct Hv as (n' & jps & _ & Hjps & [= ->]).
      apply (plainProps_absent _ _ _ _ Hjps). reflexivity.
    + destruct Hb as (l & -> & _ & _ & Hl).
      apply plain_Ok in Hv as [_ Hv]. rewrite Hl in Hv.
      destruct Hv as (n' & jps & _ & Hjps & [= ->]).
      apply (plainProps_absent _ _ _ _ Hjps). reflexivity.
    + subst v.
      destruct (HB key le Hkey) as (o' & Hle' & Ho').
      { exists oi, o. auto 10. }
      apply plain_Ok in Hv as [_ Hv]. rewrite Hle' in Hv.
      destruct o' as [ps'|es'|iso'].
      * destruct Hv as (n' & jps & _ & Hjps & [= ->]).
        apply (plainProps_absent _ _ _ _ Hjps).
        apply stripped_object, Ho'.
      * destruct Hv as (n' & js & _ & _ & [=]).
      * destruct iso'; discriminate Hv.
Qed.

Lemma createItemNode_deletes_rawData_witness :
  exists node w' fields,
    createItemNode sampleDigest sampleNodeId (VRef 1%positive) sampleWorld
      = Returns node w' /\
    heap w' !! 3%positive
      = Some (OObject [("name", VString "Title"); ("type", VString "text");
                       ("value", VString "Hello")]) /\
    jprop node "elements" = Some (JObject fields) /\
    forall f element, prop fields f = Some (JObject element) ->
      prop element "rawData" = None.
Proof.
  destruct (createItemNode sampleDigest sampleNodeId (VRef 1%positive) sampleWorld)
    as [node w'|e w'] eqn:Hrun; [|exfalso; vm_compute in Hrun; discriminate Hrun].
  destruct (createItemNode_deletes_rawData sampleDigest sampleNodeId 1%positive
              sampleWorld node w' _ eq_refl Hrun)
    as (Hstore & fields & Hel & Hfields).
  exists node, w', fields. split; [reflexivity|].
  split; [|split; assumption].
  apply (Hstore "title" 3%positive
           (OObject [("name", VString "Title"); ("type", VString "text");
                     ("value", VString "Hello"); ("rawData", VRef 5%positive)]));
    solve [reflexivity | discriminate].
Defined.

(** ** Stores of plain data *)

Lemma ownProp_vals o k l : ownProp o k = VRef l -> VRef l ∈ vals o.
Proof.
  destruct o as [ps|es|iso]; simpl.
  - destruct (prop ps k) as [v|] eqn:Hk; simpl; [|discriminate].
    intros ->. apply prop_Some_elem in Hk.
    apply (list_elem_of_fmap_2 snd) in Hk. exact Hk.
  - destruct (String.eqb k "length"); [discriminate|].
    destruct (arrayIndex (length es) k) as [i|]; [|discriminate].
    destruct (es !! i) as [v|] eqn:Hi; simpl; [|discriminate].
    intros ->. apply (list_elem_of_lookup_2 _ _ _ Hi).
  - discriminate.
Qed.

Lemma vals_stripped o v : v ∈ vals (stripped o) -> v ∈ vals o.
Proof.
  destruct o as [ps|es|iso]; simpl; try tauto.
  intros ([k v'] & -> & Hin%list_elem_of_filter)%list_elem_of_fmap.
  destruct Hin as [_ Hin]. apply (list_elem_of_fmap_2 snd) in Hin. exact Hin.
Qed.

Lemma vals_assign {A} (ps : list (string * A)) f v x :
  x ∈ map snd (assign ps f v) -> x = v \/ x ∈ map snd ps.
Proof.
  induction ps as [|[k v'] ps IH]; simpl.
  - intros Hx%list_elem_of_singleton. left. exact Hx.
  - destruct (String.eqb k f); simpl.
    + intros [->|Hx]%elem_of_cons; [left; reflexivity|].
      right. right. exact Hx.
    + intros [->|Hx]%elem_of_cons; [right; left|].
      destruct (IH Hx) as [->|Hin]; [left; reflexivity|].
      right. right. exact Hin.
Qed.

Lemma vals_assignOwn o f v x :
  x ∈ vals (assignOwn f v o) -> x = v \/ x ∈ vals o.
Proof.
  destruct o as [ps|es|iso]; simpl; try tauto. apply vals_assign.
Qed.

Lemma vals_modularFields o l :
  VRef l ∈ vals (modularFields o) -> VRef l ∈ vals o.
Proof.
  unfold modularFields. simpl. intros Hin.
  repeat (apply elem_of_cons in Hin as [Hin|Hin];
          [symmetry in Hin; apply ownProp_vals in Hin; exact Hin|]).
  apply elem_of_nil in Hin. contradiction.
Qed.

Lemma vals_richTextFields o l :
  VRef l ∈ vals (richTextFields o) -> VRef l ∈ vals o.
Proof.
  unfold richTextFields. simpl. intros Hin.
  repeat (apply elem_of_cons in Hin as [Hin|Hin];
          [symmetry in Hin; apply ownProp_vals in Hin; exact Hin|]).
  apply elem_of_nil in Hin. contradiction.
Qed.

Lemma ranked_insert rank (h : gmap loc obj) l o :
  ranked rank h -> h !! l = None ->
  (forall l', VRef l' ∈ vals o -> is_Some (h !! l') /\ rank l' < rank l) ->
  ranked rank (<[l := o]> h).
Proof.
  intros Hr Hl Ho l1 o1 l' Hl1 Hin.
  assert (Hkeep : forall l2, is_Some (h !! l2) -> is_Some (<[l := o]> h !! l2)).
  { intros l2 [o2 Hl2]. exists o2. rewrite lookup_insert_ne by congruence.
    exact Hl2. }
  destruct (decide (l = l1)) as [->|Hne].
  - rewrite lookup_insert_eq in Hl1. injection Hl1 as <-.
    destruct (Ho l' Hin) as [Hs Hlt]. split; [apply Hkeep, Hs | exact Hlt].
  - rewrite lookup_insert_ne in Hl1 by exact Hne.
    destruct (Hr l1 o1 l' Hl1 Hin) as [Hs Hlt].
    split; [apply Hkeep, Hs | exact Hlt].
Qed.

Lemma ranked_alter rank (h : gmap loc obj) g l :
  ranked rank h ->
  (forall o l', h !! l = Some o -> VRef l' ∈ vals (g o) ->
     VRef l' ∈ vals o \/ (is_Some (h !! l') /\ rank l' < rank l)) ->
  ranked rank (alter g l h).
Proof.
  intros Hr Hg l1 o1 l' Hl1 Hin.
  assert (Hkeep : forall l2, is_Some (h !! l2) -> is_Some (alter g l h !! l2)).
  { intros l2 [o2 Hl2]. destruct (decide (l = l2)) as [->|Hne].
    - rewrite lookup_alter_eq, Hl2. simpl. eauto.
    - rewrite lookup_alter_ne by exact Hne. eauto. }
  destruct (decide (l = l1)) as [->|Hne].
  - rewrite lookup_alter_eq in Hl1.
    destruct (h !! l1) as [o|] eqn:Ho; [|discriminate Hl1].
    simpl in Hl1. injection Hl1 as <-.
    destruct (Hg o l' eq_refl Hin) as [Hold|[Hs Hlt]].
    + destruct (Hr l1 o l' Ho Hold) as [Hs Hlt].
      split; [apply Hkeep, Hs | exact Hlt].
    + split; [apply Hkeep, Hs | exact Hlt].
  - rewrite lookup_alter_ne in Hl1 by exact Hne.
    destruct (Hr l1 o1 l' Hl1 Hin) as [Hs Hlt].
    split; [apply Hkeep, Hs | exact Hlt].
Qed.

Lemma ranked_ext rank rank' (h : gmap loc obj) :
  ranked rank h -> (forall l, is_Some (h !! l) -> rank' l = rank l) ->
  ranked rank' h.
Proof.
  intros Hr Hsame l o l' Hl Hin.
  destruct (Hr l o l' Hl Hin) as [Hs Hlt]. split; [exact Hs|].
  rewrite (Hsame l) by eauto. rewrite (Hsame l') by exact Hs. exact Hlt.
Qed.

Lemma rank_bound (rank : loc -> nat) (h : gmap loc obj) :
  exists bound, forall l, is_Some (h !! l) -> rank l < bound.
Proof.
  induction h as [|l o h Hl IH] using map_ind.
  - exists 0. intros l [o Hl]. rewrite lookup_empty in Hl. discriminate Hl.
  - destruct IH as [bound IH].
    exists (Nat.max bound (S (rank l))). intros l' [o' Hl'].
    destruct (decide (l = l')) as [->|Hne]; [lia|].
    rewrite lookup_insert_ne in Hl' by exact Hne.
    specialize (IH l' (ex_intro _ _ Hl')). lia.
Qed.

(** On a ranked store the plain copy meets no circular structure. *)
Lemma plain_ranked rank h fuel : forall seen v,
  ranked rank h ->
  (forall l, v = VRef l -> forall s, s ∈ seen -> rank l < rank s) ->
  plain fuel h seen v <> Err (TypeError "Converting circular structure to JSON").
Proof.
  induction fuel as [|fuel IH]; intros seen v Hr Hseen; simpl; [discriminate|].
  destruct v as [| | | | |l]; try discriminate.
  destruct (decide (l ∈ seen)) as [Hin|Hnotin].
  { specialize (Hseen l eq_refl l Hin). lia. }
  assert (Hnext : forall o v', h !! l = Some o -> v' ∈ vals o ->
            plain fuel h (l :: seen) v'
            <> Err (TypeError "Converting circular structure to JSON")).
  { intros o v' Hl Hv'. apply IH; [exact Hr|].
    intros l' -> s Hs. destruct (Hr l o l' Hl Hv') as [_ Hlt].
    apply elem_of_cons in Hs as [->|Hs]; [exact Hlt|].
    specialize (Hseen l eq_refl s Hs). lia. }
  destruct (h !! l) as [[ps|es|iso]|] eqn:Hl; try discriminate.
  - destruct (plainProps (plain fuel h (l :: seen)) ps) as [jps|e] eqn:Hps;
      simpl; [discriminate|].
    intros [= ->].
    refine (plainProps_error (plain fuel h (l :: seen))
              (fun e => e <> TypeError "Converting circular structure to JSON")
              ps _ _ Hps eq_refl).
    intros k v' e Hin He ->. apply (Hnext (OObject ps) v' eq_refl); [|exact He].
    apply (list_elem_of_fmap_2 snd) in Hin. exact Hin.
  - destruct (plainElems (plain fuel h (l :: seen)) es) as [js|e] eqn:Hes;
      simpl; [discriminate|].
    intros [= ->].
    refine (plainElems_error (plain fuel h (l :: seen))
              (fun e => e <> TypeError "Converting circular structure to JSON")
              es _ _ Hes eq_refl).
    intros v' e Hin He ->. apply (Hnext (OArray es) v' eq_refl Hin He).
Qed.

(** ** Items of plain data: [createItemNode] returns *)

Section Total.
Variables (h0 : gmap loc obj) (li la : loc) (c0 : list hostCall).
Variables (rank : loc -> nat) (bound : nat).
Hypothesis Hla : h0 !! la = None.
Hypothesis Hranked : ranked rank h0.
Hypothesis Hbound : forall l, is_Some (h0 !! l) -> rank l < bound.

Lemma rankIn_old l : is_Some (h0 !! l) -> rankIn h0 la rank bound l = rank l.
Proof. intros [o Hl]. unfold rankIn. rewrite Hl. reflexivity. Qed.

Lemma rankIn_old_lt l : is_Some (h0 !! l) -> rankIn h0 la rank bound l < bound.
Proof. intros Hl. rewrite rankIn_old by exact Hl. apply Hbound, Hl. Qed.

Lemma rankIn_new l : h0 !! l = None -> l <> la -> rankIn h0 la rank bound l = bound.
Proof.
  intros Hl Hne. unfold rankIn. rewrite Hl.
  destruct (decide (l = la)); [contradiction | reflexivity].
Qed.

Lemma rankIn_acc : rankIn h0 la rank bound la = S bound.
Proof.
  unfold rankIn. rewrite Hla.
  destruct (decide (la = la)); [reflexivity | contradiction].
Qed.

Lemma rankIn_le l : rankIn h0 la rank bound l <= S bound.
Proof.
  unfold rankIn. destruct (h0 !! l) as [o|] eqn:Hl.
  - specialize (Hbound l (ex_intro _ _ Hl)). lia.
  - destruct (decide (l = la)); lia.
Qed.

Lemma item_not_handed_on : ~ passedThrough h0 li li.
Proof.
  intros (key & type & Hread & _). simpl in Hread.
  destruct (h0 !! li) as [oi|] eqn:Hli; simpl in Hread; [|discriminate Hread].
  injection Hread as Hread. apply ownProp_vals in Hread.
  destruct (Hranked li oi li Hli Hread) as [_ Hlt]. lia.
Qed.

Lemma storeElement_ranked h key target o :
  ranked (rankIn h0 la rank bound) h ->
  is_Some (h !! la) -> h !! target = Some o -> target <> la ->
  rankIn h0 la rank bound target <= bound ->
  ranked (rankIn h0 la rank bound) (storeElement la key target h).
Proof.
  intros Hr Hacc Ht Hne Hle. unfold storeElement.
  apply ranked_alter; [apply ranked_alter; [exact Hr|]|].
  - intros o' l' _ Hin. left. apply vals_stripped, Hin.
  - intros o' l' _ [Hin|Hin]%vals_assignOwn; [|left; exact Hin].
    injection Hin as ->. right. split.
    + rewrite lookup_alter_eq, Ht. simpl. eauto.
    + rewrite rankIn_acc. lia.
Qed.

Lemma addElement_ranked done w key :
  Inv h0 li la c0 done w ->
  ranked (rankIn h0 la rank bound) (heap w) ->
  elementKey h0 (VRef li) key = true ->
  exists w',
    addElement (VRef li) (VRef la) key w = Returns (VRef la) w' /\
    ranked (rankIn h0 la rank bound) (heap w').
Proof.
  intros HInv Hr Hek.
  destruct (elementKey_true _ _ _ Hek) as (oi & le & o & Hli & Hv & Hle & Ht).
  pose proof HInv as (Hc & Hf & acc & Hacc & _).
  assert (Hli' : heap w !! li = Some oi).
  { destruct (Hf li oi Hli) as [H|[_ H]]; [exact H|].
    destruct (item_not_handed_on H). }
  destruct (frame_read _ _ _ _ _ Hf Hle) as (o' & Hle' & Hsame & _).
  rewrite (addElement_run li la key w oi le o' Hli Hv Hle') || 
    rewrite (addElement_run li la key w oi le o' Hli' Hv Hle').
  eexists. split; [reflexivity|]. cbn [heap].
  assert (Hlf : heap w !! fresh (dom (heap w)) = None)
    by apply not_elem_of_dom, is_fresh.
  set (lf := fresh (dom (heap w))) in *.
  assert (Hlf0 : h0 !! lf = None) by apply (frame_None _ _ _ _ Hf Hlf).
  assert (Hlfla : lf <> la) by congruence.
  assert (Hlela : le <> la) by congruence.
  assert (Hnew : forall fields,
            (forall l', VRef l' ∈ vals fields -> VRef l' ∈ vals o') ->
            ranked (rankIn h0 la rank bound)
              (storeElement la (getGraphFieldName key) lf
                 (<[lf := fields]> (heap w)))).
  { intros fields Hfields.
    apply (storeElement_ranked _ _ _ fields).
    - apply ranked_insert; [exact Hr | exact Hlf |].
      intros l' Hin. destruct (Hr le o' l' Hle' (Hfields l' Hin)) as [Hs Hlt].
      split; [exact Hs|].
      rewrite (rankIn_new lf) by assumption.
      pose proof (rankIn_old_lt le (ex_intro _ _ Hle)). lia.
    - rewrite lookup_insert_ne by congruence. eauto.
    - apply lookup_insert_eq.
    - exact Hlfla.
    - rewrite rankIn_new by assumption. lia. }
  case_bool_decide; [|case_bool_decide]; cbv zeta.
  - apply Hnew, vals_modularFields.
  - apply Hnew, vals_richTextFields.
  - apply (storeElement_ranked _ _ _ o'); eauto.
    pose proof (rankIn_old_lt le (ex_intro _ _ Hle)). lia.
Qed.

Lemma reduce_ranked keys : forall done w,
  Inv h0 li la c0 done w ->
  ranked (rankIn h0 la rank bound) (heap w) ->
  (forall key, key ∈ keys -> elementKey h0 (VRef li) key = true) ->
  exists w',
    reduceM (addElement (VRef li)) keys (VRef la) w = Returns (VRef la) w' /\
    Inv h0 li la c0 (done ++ keys) w' /\
    ranked (rankIn h0 la rank bound) (heap w').
Proof.
  induction keys as [|key keys IH]; intros done w HInv Hr Hkeys.
  - exists w. rewrite app_nil_r. auto.
  - simpl. rewrite bind_run.
    pose proof (addElement_step h0 li la c0 Hla done w key HInv
                  (Hkeys key ltac:(left))) as Hstep.
    destruct (addElement_ranked done w key HInv Hr (Hkeys key ltac:(left)))
      as (w1 & Hrun & Hr1).
    rewrite Hrun in Hstep |- *. destruct Hstep as [_ HInv1].
    destruct (IH _ w1 HInv1 Hr1) as (w' & Hrest & HInv' & Hr').
    { intros key' Hin. apply Hkeys. right. exact Hin. }
    exists w'. split; [exact Hrest|]. split; [|exact Hr'].
    replace (done ++ key :: keys) with ((done ++ [key]) ++ keys)
      by (rewrite <- app_assoc; reflexivity).
    exact HInv'.
Qed.

End Total.

Lemma JSON_roundtrip_ranked rank h v :
  ranked rank h -> exists r, JSON_roundtrip h v = Ok r.
Proof.
  intros Hr. destruct (JSON_roundtrip h v) as [r|e] eqn:He; [eauto|].
  exfalso. pose proof (JSON_roundtrip_error h v e He) as ->.
  revert He. apply plain_ranked with (rank := rank); [exact Hr|].
  intros l _ s Hs. apply elem_of_nil in Hs. contradiction.
Qed.

Lemma createItemNode_runs d n li w ips ls sps rank :
  ranked rank (heap w) ->
  heap w !! li = Some (OObject ips) ->
  prop ips "system" = Some (VRef ls) ->
  heap w !! ls = Some (OObject sps) ->
  exists node w' rank',
    createItemNode d n (VRef li) w = Returns node w' /\
    ranked rank' (heap w').
Proof.
  intros Hr Hli Hsys Hls.
  rewrite createItemNode_unfold. cbv zeta.
  set (h0 := heap w) in *. set (la := fresh (dom h0)).
  set (wa := {| heap := <[la := OObject []]> h0; calls := calls w |}).
  assert (Hla : h0 !! la = None) by apply not_elem_of_dom, is_fresh.
  destruct (rank_bound rank h0) as [bound Hbound].
  set (rank' := rankIn h0 la rank bound).
  assert (HInv0 : Inv h0 li la (calls w) [] wa).
  { split; [reflexivity|]. split; [|exists []; split; [|split; [|split]]].
    - apply (frame_outside h0 li h0); [apply frame_refl|].
      intros l [o Ho]. apply lookup_insert_ne. congruence.
    - apply lookup_insert_eq.
    - intros f v [=].
    - intros key Hin. apply elem_of_nil in Hin. contradiction.
    - constructor. }
  assert (Hr0 : ranked rank' (heap wa)).
  { apply ranked_insert; [|exact Hla|].
    - apply (ranked_ext rank); [exact Hr|].
      intros l Hl. apply rankIn_old, Hl.
    - intros l' Hin. apply elem_of_nil in Hin. contradiction. }
  destruct (reduce_ranked h0 li la (calls w) rank bound Hla Hr Hbound
              (elementKeys h0 li) [] wa HInv0 Hr0)
    as (w1 & Hred & HInv1 & Hr1).
  { intros key Hin. apply list_elem_of_filter in Hin as [Hin _].
    apply Is_true_true, Hin. }
  rewrite Hred.
  destruct HInv1 as (_ & Hf1 & acc & Hacc & _).
  destruct (frame_read_object _ _ _ _ _ Hf1 Hli) as (ips' & Hli1 & Hsame).
  destruct (frame_read_object _ _ _ _ _ Hf1 Hls) as (sps' & Hls1 & _).
  rewrite Hli1. cbn [from_option ownProp].
  rewrite (Hsame "system") by discriminate. rewrite Hsys. cbn [default id].
  set (ln := fresh (dom (heap w1))).
  assert (Hln : heap w1 !! ln = None) by apply not_elem_of_dom, is_fresh.
  set (h2 := <[ln := OObject [("system", VRef ls); ("elements", VRef la)]]>
               (heap w1)).
  assert (Hr2 : ranked (fun l => if decide (l = ln) then S (S bound) else rank' l)
                       h2).
  { apply ranked_insert; [|exact Hln|].
    - apply (ranked_ext rank'); [exact Hr1|].
      intros l [o Hl]. destruct (decide (l = ln)); [congruence | reflexivity].
    - intros l' Hin. simpl in Hin.
      destruct (decide (ln = ln)); [|contradiction].
      assert (Hcases : l' = ls \/ l' = la).
      { apply elem_of_cons in Hin as [[= ->]|Hin]; [left; reflexivity|].
        apply elem_of_cons in Hin as [[= ->]|Hin]; [right; reflexivity|].
        apply elem_of_nil in Hin. contradiction. }
      assert (Hs : is_Some (heap w1 !! l'))
        by (destruct Hcases as [-> | ->]; eauto).
      split; [exact Hs|].
      destruct (decide (l' = ln)) as [->|_];
        [destruct Hs; congruence|].
      pose proof (rankIn_le h0 la rank bound Hbound l'). unfold rank'. lia. }
  destruct (JSON_roundtrip_ranked _ h2 (VRef ln) Hr2) as [parsed Hparsed].
  cbn [heap]. fold h2. rewrite Hparsed.
  pose proof Hparsed as Hplain. unfold JSON_roundtrip in Hplain.
  apply plain_Ok in Hplain as [_ Hplain].
  unfold h2 at 1 in Hplain. rewrite lookup_insert_eq in Hplain.
  destruct Hplain as (fuel & nd & _ & Hnd & ->).
  apply plainProps_cons in Hnd as (jsys & rest & Hjsys & _ & ->).
  apply plain_Ok in Hjsys as [_ Hjsys].
  unfold h2 at 1 in Hjsys.
  rewrite lookup_insert_ne, Hls1 in Hjsys by congruence.
  destruct Hjsys as (fuel' & jsps & _ & _ & ->).
  cbv beta iota. unfold getNodeIdValue. simpl.
  eexists _, _, _. split; [reflexivity | exact Hr2].
Qed.


Lemma sampleHeapMoved_ranked : ranked sampleRank sampleHeapMoved.
Proof.
  intros l o l' Hl Hin.
  apply elem_of_list_to_map_2 in Hl.
  repeat (apply elem_of_cons in Hl as [[= -> ->]|Hl];
          [simpl in Hin;
           repeat (apply elem_of_cons in Hin as [Hin|Hin];
                   [first [discriminate Hin
                          | injection Hin as ->;
                            split; [eexists; reflexivity | simpl; lia]]|]);
           apply elem_of_nil in Hin; contradiction|]).
  apply elem_of_nil in Hl. contradiction.
Qed.


Lemma itemObject_frame h0 li h item :
  frame h0 li h -> itemObject h0 item -> itemObject h item.
Proof.
  intros Hf (l & ips & ls & sps & -> & Hl & Hsys & Hls).
  destruct (frame_read_object _ _ _ _ _ Hf Hl) as (ips' & Hl' & Hsame).
  destruct (frame_read_object _ _ _ _ _ Hf Hls) as (sps' & Hls' & _).
  exists l, ips', ls, sps'. repeat split; try assumption.
  rewrite Hsame by discriminate. exact Hsys.
Qed.

Lemma emits_plain d n l : forall w rank,
  ranked rank (heap w) ->
  (forall item, item ∈ l -> itemObject (heap w) item) ->
  exists nodes w', emits d n l w nodes w' /\ length nodes = length l.
Proof.
  induction l as [|item l IH]; intros w rank Hr Hitems.
  - exists [], w. split; [constructor | reflexivity].
  - destruct (Hitems item ltac:(left))
      as (li & ips & ls & sps & -> & Hli & Hsys & Hls).
    destruct (createItemNode_runs d n li w ips ls sps rank Hr Hli Hsys Hls)
      as (node & w1 & rank1 & Hrun & Hr1).
    pose proof (createItemNode_outcome d n li w) as Hout.
    rewrite Hrun in Hout. cbv zeta in Hout.
    destruct Hout as [(_ & Hf & _) _].
    destruct (IH {| heap := heap w1; calls := calls w1 ++ [CreateNode node] |}
                 rank1 Hr1) as (nodes & w' & Hem & Hlen).
    { intros item Hin. apply (itemObject_frame _ _ _ _ Hf).
      apply Hitems. right. exact Hin. }
    exists (node :: nodes), w'. split; [|simpl; rewrite Hlen; reflexivity].
    econstructor; eassumption.
Qed.



(** ** Elements that lead back to their item *)



(** ** Names that are taken *)

Lemma length_app_string (a b : string) :
  String.length (a +:+ b) = String.length a + String.length b.
Proof. induction a as [|c a IH]; simpl; [reflexivity|]. rewrite IH. reflexivity. Qed.

Lemma app_Elements_System p : p +:+ "Elements" <> "System".
Proof.
  intros H. apply (f_equal String.length) in H.
  rewrite length_app_string in H. simpl in H. lia.
Qed.

(** X18: The elements type of a content type never has the name of a base
    type. The item type has the name of a base type for the content types
    whose codename has the Pascal case [System] (it is then
    [KontentItemSystem]) or the empty one (it is then [KontentItem]), and
    for no other. *)
Theorem createTypeDef_name_clash type :
  exists elementsTypeDef typeDef,
    createTypeDef type = [elementsTypeDef; typeDef] /\
    ~ declared (def_name elementsTypeDef) /\
    (declared (def_name typeDef) <->
       ChangeCase.pascalCase (type_system_codename type) = "" \/
       ChangeCase.pascalCase (type_system_codename type) = "System").
Proof.
  eexists _, _. split; [reflexivity|].
  unfold declared. cbn [def_name]. unfold getGraphTypeName.
  generalize (ChangeCase.pascalCase (type_system_codename type)). intros p.
  split; [|split].
  - intros Hin. simpl in Hin.
    repeat (apply elem_of_cons in Hin as [Hin|Hin];
            [first [ discriminate Hin
                   | injection Hin as Hin;
                     first [ destruct p; discriminate Hin
                           | exact (app_Elements_System p Hin) ] ]|]).
    apply elem_of_nil in Hin. exact Hin.
  - intros Hin. simpl in Hin.
    repeat (apply elem_of_cons in Hin as [Hin|Hin];
            [first [ discriminate Hin
                   | injection Hin as Hin; auto ]|]).
    apply elem_of_nil in Hin. contradiction.
  - intros [-> | ->]; simpl.
    + left.
    + right. right. left.
Qed.

(** ** Elements handed on as they are *)

(** X19: An element of any other kind goes into the node as it is, without
    [rawData]: its string properties are the string fields of the entry,
    and the entry has no field the element has not. This is the entry of
    the node's [elements] where no other key of the item has the same
    field name. *)
Theorem element_handed_on d n li w node w' ips k le eps t :
  heap w !! li = Some (OObject ips) ->
  prop ips k = Some (VRef le) ->
  heap w !! le = Some (OObject eps) ->
  prop eps "type" = Some (VString t) ->
  t <> "" -> t <> "modular_content" -> t <> "rich_text" ->
  (forall k', k' ∈ map fst ips ->
     getGraphFieldName k' = getGraphFieldName k -> k' = k) ->
  createItemNode d n (VRef li) w = Returns node w' ->
  exists elements entry,
    jprop node "elements" = Some elements /\
    jprop elements (getGraphFieldName k) = Some (JObject entry) /\
    prop entry "type" = Some (JString t) /\
    prop entry "rawData" = None /\
    (forall f s, f <> "rawData" -> prop eps f = Some (VString s) ->
       prop entry f = Some (JString s)) /\
    (forall f, prop eps f = None -> prop entry f = None).
Proof.
  intros Hli Hk Hle Htype Ht Hm Hr Huniq Hrun.
  pose proof (createItemNode_Bare d n li w node w' Hrun) as HB.
  destruct (createItemNode_shape d n li w node w' Hrun)
    as (_ & Hf & ln & sysv & acc & fuel & jsys & jacc & idValue & type
        & Hla & Hln & Hlnla & _ & Hacc & Hfields & Hdone & _ & Hjacc & _ & _ & _ & _ & ->).
  assert (Htruthy : truthy (VString t) = true).
  { simpl. apply negb_true_iff, String.eqb_neq, Ht. }
  assert (Hkeys : k ∈ elementKeys (heap w) li).
  { apply list_elem_of_filter. split.
    - apply Is_true_true. unfold elementKey. simpl.
      rewrite Hli. simpl. rewrite Hk. simpl. rewrite Hle. simpl.
      rewrite Htype. exact Htruthy.
    - rewrite Hli. simpl. apply prop_Some_elem in Hk.
      apply (list_elem_of_fmap_2 fst) in Hk. exact Hk. }
  destruct (Hdone k Hkeys) as [v Hv].
  destruct (Hfields _ v Hv) as (key & Hkey & Hfield & Hbuilt).
  assert (key = k) as ->.
  { apply Huniq; [|exact Hfield].
    apply list_elem_of_filter in Hkey as [_ Hkey].
    rewrite Hli in Hkey. exact Hkey. }
  destruct Hbuilt as (oi & le' & o & Hli' & Hk' & Hle' & _ & Hb).
  rewrite Hli in Hli'. injection Hli' as <-.
  simpl in Hk'. rewrite Hk in Hk'. injection Hk' as <-.
  rewrite Hle in Hle'. injection Hle' as <-.
  cbn [ownProp] in Hb. rewrite Htype in Hb. cbn [default] in Hb.
  rewrite !bool_decide_false in Hb by (intros [= ?]; contradiction).
  subst v.
  destruct (HB k le Hkeys) as (o' & Hle' & Ho').
  { exists (OObject ips), (OObject eps). cbn [ownProp].
    rewrite Hk, Htype. cbn [default].
    repeat split; try assumption; intros [= ?]; contradiction. }
  destruct (frame_read_object _ _ _ _ _ Hf Hle) as (eps' & Hle'' & Hsame).
  rewrite Hle' in Hle''. injection Hle'' as ->.
  apply stripped_object in Ho'.
  destruct (plainProps_lookup _ _ _ _ _ Hjacc Hv) as (r & Hr' & Hx).
  apply plain_Ok in Hr' as [_ Hr']. rewrite Hle' in Hr'.
  destruct Hr' as (n' & entry & _ & Hentry & ->).
  assert (Hcopy : forall f s, f <> "rawData" -> prop eps f = Some (VString s) ->
            prop entry f = Some (JString s)).
  { intros f s Hne Hfs. rewrite <- Hsame in Hfs by exact Hne.
    destruct (plainProps_lookup _ _ _ _ _ Hentry Hfs) as (r & Hr' & Hx').
    apply Hx'. apply plain_string in Hr'. exact Hr'. }
  exists (JObject jacc), entry.
  split; [reflexivity|]. split; [apply Hx; reflexivity|].
  split; [apply Hcopy; [discriminate | exact Htype]|].
  split; [exact (plainProps_absent _ _ _ _ Hentry Ho')|].
  split; [exact Hcopy|].
  intros f Hfs. apply (plainProps_absent _ _ _ _ Hentry).
  destruct (decide (f = "rawData")) as [->|Hne]; [exact Ho'|].
  rewrite Hsame by exact Hne. exact Hfs.
Qed.

Lemma element_handed_on_witness :
  exists node w' elements entry,
    createItemNode sampleDigest sampleNodeId (VRef 1%positive) sampleWorld
      = Returns node w' /\
    jprop node "elements" = Some elements /\
    jprop elements "title" = Some (JObject entry) /\
    prop entry "type" = Some (JString "text") /\
    prop entry "value" = Some (JString "Hello") /\
    prop entry "rawData" = None.
Proof.
  destruct (createItemNode sampleDigest sampleNodeId (VRef 1%positive) sampleWorld)
    as [node w'|e w'] eqn:Hrun; [|exfalso; vm_compute in Hrun; discriminate Hrun].
  destruct (element_handed_on sampleDigest sampleNodeId 1%positive sampleWorld
              node w'
              [("system", VRef 2%positive); ("title", VRef 3%positive);
               ("body", VRef 4%positive)]
              "title" 3%positive
              [("name", VString "Title"); ("type", VString "text");
               ("value", VString "Hello"); ("rawData", VRef 5%positive)]
              "text")
    as (elements & entry & Hel & Hentry & Htype & Hraw & Hcopy & _);
    [reflexivity | reflexivity | reflexivity | reflexivity
    | discriminate | discriminate | discriminate | | |].
  - intros k' Hk' Hname.
    repeat (apply elem_of_cons in Hk' as [->|Hk'];
            [first [reflexivity | vm_compute in Hname; discriminate Hname]|]).
    apply elem_of_nil in Hk'. contradiction.
  - exact Hrun.
  - assert (Hname : getGraphFieldName "title" = "title")
      by (vm_compute; reflexivity).
    rewrite Hname in Hentry.
    exists node, w', elements, entry.
    split; [reflexivity|]. split; [exact Hel|]. split; [exact Hentry|].
    split; [exact Htype|]. split; [|exact Hraw].
    apply Hcopy; [discriminate | reflexivity].
Defined.

(** ** The earlier revisions *)

Lemma fold_assign_prop {A} (name type : A -> string) (elements : list A) :
  forall acc f t,
    prop (fold_left (fun acc e => assign acc (name e) (type e)) elements acc) f
      = Some t ->
    prop acc f = Some t \/ exists e, e ∈ elements /\ name e = f /\ type e = t.
Proof.
  induction elements as [|e elements IH]; intros acc f t; simpl; [auto|].
  intros [Hacc|(e' & Hin & Hname & Htype)]%IH.
  - rewrite prop_assign in Hacc.
    destruct (String.eqb (name e) f) eqn:Ef; [|left; exact Hacc].
    apply String.eqb_eq in Ef. injection Hacc as <-.
    right. exists e. split; [left | auto].
  - right. exists e'. split; [right; exact Hin | auto].
Qed.

(** X20: In [part_000], a field of an elements type has the type
    [KontentTextElement], which the base types of that revision declare,
    and then it is the field of a text element; or it has one of the
    scalars [String] and [Date]. *)
Theorem part000_field_types type :
  exists elementsTypeDef typeDef,
    Part000.createTypeDef type = [elementsTypeDef; typeDef] /\
    forall f t, prop (def_fields elementsTypeDef) f = Some t ->
      t = "String" \/ t = "Date" \/
      (t = "KontentTextElement" /\
       t ∈ map decl_name Part000.createBaseTypes /\
       exists e, e ∈ type_elements type /\
                 getGraphFieldName (element_codename e) = f /\
                 element_type e = "text").
Proof.
  eexists _, _. split; [reflexivity|]. cbn [def_fields]. intros f t Hft.
  apply (fold_assign_prop (fun e => getGraphFieldName (element_codename e))
           (fun e => Part000.getGraphQLScalarType (element_type e))) in Hft
    as [Hft|(e & Hin & Hname & Htype)]; [discriminate Hft|].
  unfold Part000.getGraphQLScalarType in Htype.
  repeat match type of Htype with
         | (if String.eqb ?a ?b then _ else _) = _ =>
             let E := fresh "E" in destruct (String.eqb a b) eqn:E
         end; subst t; auto.
  right. right. split; [reflexivity|]. split.
  - simpl. right. right. left.
  - exists e. apply String.eqb_eq in E4. auto.
Qed.

(** X21: In [part_001], every field of an elements type is a scalar: [Date]
    for a [date_time] element, [String] for every other. *)
Theorem part001_field_types type :
  exists elementsTypeDef typeDef,
    Part001.createTypeDef type = [elementsTypeDef; typeDef] /\
    def_name elementsTypeDef = def_name typeDef +:+ "Elements" /\
    forall f t, prop (def_fields elementsTypeDef) f = Some t ->
      t = "String" \/
      (t = "Date" /\
       exists e, e ∈ type_elements type /\
                 getGraphFieldName (element_codename e) = f /\
                 element_type e = "date_time").
Proof.
  eexists _, _. split; [reflexivity|]. split; [reflexivity|].
  cbn [def_fields]. intros f t Hft.
  apply (fold_assign_prop (fun e => getGraphFieldName (element_codename e))
           (fun e => Part001.getGraphQLScalarType (element_type e))) in Hft
    as [Hft|(e & Hin & Hname & Htype)]; [discriminate Hft|].
  unfold Part001.getGraphQLScalarType in Htype.
  repeat match type of Htype with
         | (if String.eqb ?a ?b then _ else _) = _ =>
             let E := fresh "E" in destruct (String.eqb a b) eqn:E
         end; subst t; auto.
  right. split; [reflexivity|].
  exists e. apply String.eqb_eq in E0. auto.
Qed.
